(** * NNStreamer single-shot C-API (api/capi/src/nnstreamer-capi-single.c)

    A shallow embedding of [ml_single_open], [ml_single_close],
    [ml_single_invoke], [ml_single_get_tensors_info] and
    [ml_single_set_timeout], with the GStreamer application elements the
    functions drive taken as an interface, and one executable streaming
    engine behind that interface. *)

From stdpp Require Import base option list strings gmap gmultiset.
From Stdlib Require Import ZArith Ascii String List Lia Bool.
Import ListNotations.

Local Open Scope string_scope.
Local Open Scope list_scope.
Local Open Scope Z_scope.

(** ** Error codes and enumerations (nnstreamer.h) *)

(** [ml_error_e]; the numeric values come from tizen_error.h and play no
    role in the functions below, which only compare against
    [ML_ERROR_NONE]. *)
Inductive ml_error_e : Set :=
| ML_ERROR_NONE
| ML_ERROR_INVALID_PARAMETER
| ML_ERROR_STREAMS_PIPE
| ML_ERROR_TRY_AGAIN
| ML_ERROR_UNKNOWN
| ML_ERROR_TIMED_OUT
| ML_ERROR_NOT_SUPPORTED.

#[global] Instance ml_error_e_eq_dec : EqDecision ml_error_e.
Proof. solve_decision. Defined.

(** [ml_nnfw_type_e] as the switch of [ml_single_open] names it.  A C enum
    is an [int]: [ML_NNFW_TYPE_OTHER] stands for every value that reaches
    the [default:] labels. *)
Inductive ml_nnfw_type_e : Set :=
| ML_NNFW_TYPE_ANY
| ML_NNFW_TYPE_CUSTOM_FILTER
| ML_NNFW_TYPE_TENSORFLOW_LITE
| ML_NNFW_TYPE_TENSORFLOW
| ML_NNFW_TYPE_NNFW
| ML_NNFW_TYPE_OTHER (v : Z).

#[global] Instance ml_nnfw_type_e_eq_dec : EqDecision ml_nnfw_type_e.
Proof. solve_decision. Defined.

(** [ml_nnfw_hw_e] is passed through to the availability check only. *)
Definition ml_nnfw_hw_e : Set := Z.

(** ** Framework resolution: step 1 of [ml_single_open] *)

Module Resolver.

(** GLib's [g_ascii_tolower]: only 'A'..'Z' change. *)
Definition g_ascii_tolower (c : ascii) : ascii :=
  let n := nat_of_ascii c in
  if ((65 <=? n)%nat && (n <=? 90)%nat)%bool
  then ascii_of_nat (n + 32)
  else c.

(** [g_ascii_strdown (str, -1)]: a lowered copy of the whole string. *)
Fixpoint g_ascii_strdown (str : string) : string :=
  match str with
  | EmptyString => EmptyString
  | String c rest => String (g_ascii_tolower c) (g_ascii_strdown rest)
  end.

(** [g_str_has_suffix]: false when [str] is the shorter one, otherwise
    [strcmp (str + str_len - suffix_len, suffix) == 0]. *)
Definition g_str_has_suffix (str suffix : string) : bool :=
  let str_len := String.length str in
  let suffix_len := String.length suffix in
  if (str_len <? suffix_len)%nat then false
  else String.eqb (substring (str_len - suffix_len) suffix_len str) suffix.

(** The last character of a string, if it has one. *)
Fixpoint last_char (str : string) : option ascii :=
  match str with
  | EmptyString => None
  | String c EmptyString => Some c
  | String _ rest => last_char rest
  end.

(** Modelled from the spec: the shared-library extension.  The macro
    NNSTREAMER_SO_FILE_EXTENSION is defined in nnstreamer_conf.h, which
    is not among the sources; nnstreamer_conf.c spells the extension
    out as ".so" where it scans for sub-plugins. *)
Definition NNSTREAMER_SO_FILE_EXTENSION : string := ".so".

(** The [switch (nnfw)] of step 1, on the lowered path.  The result is
    the pair ([status], [nnfw]) the function continues with. *)
Definition determine_nnfw_down (nnfw : ml_nnfw_type_e) (path_down : string)
  : ml_error_e * ml_nnfw_type_e :=
  match nnfw with
  | ML_NNFW_TYPE_ANY =>
      if g_str_has_suffix path_down ".tflite" then
        (ML_ERROR_NONE, ML_NNFW_TYPE_TENSORFLOW_LITE)
      else if g_str_has_suffix path_down ".pb" then
        (ML_ERROR_NONE, ML_NNFW_TYPE_TENSORFLOW)
      else if g_str_has_suffix path_down NNSTREAMER_SO_FILE_EXTENSION then
        (ML_ERROR_NONE, ML_NNFW_TYPE_CUSTOM_FILTER)
      else
        (ML_ERROR_INVALID_PARAMETER, nnfw)
  | ML_NNFW_TYPE_CUSTOM_FILTER =>
      if negb (g_str_has_suffix path_down NNSTREAMER_SO_FILE_EXTENSION)
      then (ML_ERROR_INVALID_PARAMETER, nnfw)
      else (ML_ERROR_NONE, nnfw)
  | ML_NNFW_TYPE_TENSORFLOW_LITE =>
      if negb (g_str_has_suffix path_down ".tflite")
      then (ML_ERROR_INVALID_PARAMETER, nnfw)
      else (ML_ERROR_NONE, nnfw)
  | ML_NNFW_TYPE_TENSORFLOW =>
      if negb (g_str_has_suffix path_down ".pb")
      then (ML_ERROR_INVALID_PARAMETER, nnfw)
      else (ML_ERROR_NONE, nnfw)
  | ML_NNFW_TYPE_NNFW => (ML_ERROR_NOT_SUPPORTED, nnfw)
  | ML_NNFW_TYPE_OTHER _ => (ML_ERROR_NONE, nnfw)
  end.

(** Step 1 as [ml_single_open] runs it: lower the path, then switch. *)
Definition determine_nnfw (nnfw : ml_nnfw_type_e) (model : string)
  : ml_error_e * ml_nnfw_type_e :=
  let path_down := g_ascii_strdown model in
  determine_nnfw_down nnfw path_down.

(** The extension each explicit hint is checked against; the other
    hints have none. *)
Definition expected_extension (nnfw : ml_nnfw_type_e) : option string :=
  match nnfw with
  | ML_NNFW_TYPE_CUSTOM_FILTER => Some NNSTREAMER_SO_FILE_EXTENSION
  | ML_NNFW_TYPE_TENSORFLOW_LITE => Some ".tflite"
  | ML_NNFW_TYPE_TENSORFLOW => Some ".pb"
  | _ => None
  end.

End Resolver.

(** ** Tensor descriptors and data frames (nnstreamer.h) *)

Definition ML_TENSOR_RANK_LIMIT : nat := 4.
Definition ML_TENSOR_SIZE_LIMIT : nat := 16.

Inductive ml_tensor_type_e : Set :=
| ML_TENSOR_TYPE_INT32
| ML_TENSOR_TYPE_UINT32
| ML_TENSOR_TYPE_INT16
| ML_TENSOR_TYPE_UINT16
| ML_TENSOR_TYPE_INT8
| ML_TENSOR_TYPE_UINT8
| ML_TENSOR_TYPE_FLOAT64
| ML_TENSOR_TYPE_FLOAT32
| ML_TENSOR_TYPE_INT64
| ML_TENSOR_TYPE_UINT64
| ML_TENSOR_TYPE_UNKNOWN.

#[global] Instance ml_tensor_type_e_eq_dec : EqDecision ml_tensor_type_e.
Proof. solve_decision. Defined.

(** [ml_tensor_dim]: [unsigned int \[ML_TENSOR_RANK_LIMIT\]]. *)
Definition ml_tensor_dim : Set := list Z.

(** [ml_tensor_info_s]; [name = None] is the NULL string. *)
Record ml_tensor_info_s : Set := {
  name : option string;
  type : ml_tensor_type_e;
  dimension : ml_tensor_dim
}.

#[global] Instance ml_tensor_info_s_eq_dec : EqDecision ml_tensor_info_s.
Proof. solve_decision. Defined.

(** [ml_tensors_info_s]: a count and the array [info\[ML_TENSOR_SIZE_LIMIT\]],
    read through [info_at]. *)
Record ml_tensors_info_s : Set := {
  num_tensors : Z;
  info : list ml_tensor_info_s
}.

#[global] Instance ml_tensors_info_s_eq_dec : EqDecision ml_tensors_info_s.
Proof. solve_decision. Defined.

(** Modelled from the spec: an entry as [ml_tensors_info_initialize] (in
    nnstreamer-capi-util.c, not among the sources) leaves it: no name,
    unknown type, no extent. *)
Definition tensor_info_init : ml_tensor_info_s :=
  {| name := None; type := ML_TENSOR_TYPE_UNKNOWN;
     dimension := repeat 0 ML_TENSOR_RANK_LIMIT |}.

(** Modelled from the spec: [ml_tensors_info_initialize] (same file):
    no tensors, every entry as above. *)
Definition ml_tensors_info_initialize : ml_tensors_info_s :=
  {| num_tensors := 0; info := repeat tensor_info_init ML_TENSOR_SIZE_LIMIT |}.

(** [info->info\[i\]]. *)
Definition info_at (i : nat) (ti : ml_tensors_info_s) : ml_tensor_info_s :=
  nth i (info ti) tensor_info_init.

(** Modelled from the spec: the element width of a Tensor Type, in bytes
    (signed/unsigned integers of 8/16/32/64 bits, floating point of 32/64
    bits); the unknown type has none. *)
Definition tensor_element_size (t : ml_tensor_type_e) : Z :=
  match t with
  | ML_TENSOR_TYPE_INT8 | ML_TENSOR_TYPE_UINT8 => 1
  | ML_TENSOR_TYPE_INT16 | ML_TENSOR_TYPE_UINT16 => 2
  | ML_TENSOR_TYPE_INT32 | ML_TENSOR_TYPE_UINT32 | ML_TENSOR_TYPE_FLOAT32 => 4
  | ML_TENSOR_TYPE_INT64 | ML_TENSOR_TYPE_UINT64 | ML_TENSOR_TYPE_FLOAT64 => 8
  | ML_TENSOR_TYPE_UNKNOWN => 0
  end.

(** Modelled from the spec: [ml_tensor_info_get_size] (in
    nnstreamer-capi-util.c, not among the sources), the computed byte
    size of an entry: product of dimensions times element width. *)
Definition ml_tensor_info_get_size (ti : ml_tensor_info_s) : Z :=
  fold_left Z.mul (dimension ti) (tensor_element_size (type ti)).

(** Modelled from the spec: the validity of one entry (checked inside
    [ml_tensors_info_validate]): a known type and every dimension of
    the rank-4 vector at least 1. *)
Definition ml_tensor_info_valid (ti : ml_tensor_info_s) : bool :=
  negb (bool_decide (type ti = ML_TENSOR_TYPE_UNKNOWN))
  && bool_decide (length (dimension ti) = ML_TENSOR_RANK_LIMIT)
  && forallb (fun d => 1 <=? d) (dimension ti).

(** Modelled from the spec: [ml_tensors_info_validate] (in
    nnstreamer-capi-util.c, not among the sources).  A descriptor is valid
    when its count is at most N and every active entry is valid; the
    verdict comes with the status of the check itself. *)
Definition ml_tensors_info_validate (ti : ml_tensors_info_s)
  : ml_error_e * bool :=
  (ML_ERROR_NONE,
   (0 <=? num_tensors ti) && (num_tensors ti <=? Z.of_nat ML_TENSOR_SIZE_LIMIT)
   && forallb (fun i => ml_tensor_info_valid (info_at i ti))
        (seq 0 (Z.to_nat (num_tensors ti)))).

(** Modelled from the spec: [ml_tensors_info_clone]; open adopts a
    descriptor verbatim. *)
Definition ml_tensors_info_clone (src_info : ml_tensors_info_s)
  : ml_tensors_info_s := src_info.

(** [ml_tensor_data_s]: [tensor = None] is the NULL block; [size] is the
    declared byte length. *)
Record ml_tensor_data_s : Set := {
  tensor : option (list Byte.byte);
  size : Z
}.

(** [ml_tensors_data_s]: a count and the array
    [tensors\[ML_TENSOR_SIZE_LIMIT\]], read through [data_at]. *)
Record ml_tensors_data_s : Set := {
  data_num_tensors : Z;
  tensors : list ml_tensor_data_s
}.

(** A zeroed array slot ([g_new0]). *)
Definition tensor_data_zero : ml_tensor_data_s :=
  {| tensor := None; size := 0 |}.

Definition data_at (i : nat) (d : ml_tensors_data_s) : ml_tensor_data_s :=
  nth i (tensors d) tensor_data_zero.

(** Modelled from the spec: [ml_tensors_data_create] (in
    nnstreamer-capi-util.c, not among the sources) allocates a fresh Data
    Buffer sized per the given descriptor: one zero-filled block of the
    computed byte size per active entry. *)
Definition ml_tensors_data_create (ti : ml_tensors_info_s)
  : ml_error_e * option ml_tensors_data_s :=
  (ML_ERROR_NONE,
   Some {| data_num_tensors := num_tensors ti;
           tensors :=
             map (fun i =>
                    let sz := ml_tensor_info_get_size (info_at i ti) in
                    {| tensor := Some (repeat Byte.x00 (Z.to_nat sz));
                       size := sz |})
                 (seq 0 (Z.to_nat (num_tensors ti))) |}).

(** ** GStreamer values seen by the API *)

(** A [GstMemory] wrapping [mem_size] bytes at [mem_data]
    ([gst_memory_new_wrapped] / [GstMapInfo]). *)
Record GstMemory : Set := {
  mem_data : list Byte.byte;
  mem_size : Z
}.

(** A [GstBuffer] is its sequence of memories; a [GstSample] is read only
    through [gst_sample_get_buffer]. *)
Definition GstBuffer : Set := list GstMemory.
Definition GstSample : Set := GstBuffer.

Inductive GstFlowReturn : Set :=
| GST_FLOW_OK
| GST_FLOW_FLUSHING
| GST_FLOW_EOS
| GST_FLOW_ERROR.

#[global] Instance GstFlowReturn_eq_dec : EqDecision GstFlowReturn.
Proof. solve_decision. Defined.

(** A [GstElement *] got from [gst_bin_get_by_name]: the pipeline it
    belongs to and its name there.  [None] is NULL. *)
Definition GstElement : Set := positive * string.

(** [GST_MSECOND], in nanoseconds. *)
Definition GST_MSECOND : Z := 1000000.

(** ** Outcomes of a call *)

(** A call returns, never returns (it waits in the engine for ever), or
    leaves defined behaviour (a copy through NULL or past a block). *)
Inductive outcome (A : Type) : Type :=
| Returns (a : A)
| Blocked
| Undefined.
Arguments Returns {A} a.
Arguments Blocked {A}.
Arguments Undefined {A}.

#[global] Instance outcome_ret : MRet outcome := fun A a => Returns a.

#[global] Instance outcome_bind : MBind outcome := fun A B k m =>
  match m with
  | Returns a => k a
  | Blocked => Blocked
  | Undefined => Undefined
  end.

(** ** The handle (nnstreamer-capi-single.c) *)

Definition ML_SINGLE_MAGIC : Z := 0xfeedfeed.

(** Default time to wait for an output in appsink (3 seconds). *)
Definition SINGLE_DEFAULT_TIMEOUT : Z := 3000.

(** The struct [ml_single].  The mutex [lock] has no field: a call holds
    it from its liveness check to its return, which the model renders by
    running each call as one step. *)
Record ml_single : Set := {
  pipe : positive;
  src : option GstElement;
  sink : option GstElement;
  filter : option GstElement;
  in_info : ml_tensors_info_s;
  out_info : ml_tensors_info_s;
  magic : Z;
  clear_previous_buffer : bool;
  timeout : Z
}.

Definition set_clear_previous_buffer (b : bool) (single_h : ml_single)
  : ml_single :=
  {| pipe := pipe single_h; src := src single_h; sink := sink single_h;
     filter := filter single_h; in_info := in_info single_h;
     out_info := out_info single_h; magic := magic single_h;
     clear_previous_buffer := b; timeout := timeout single_h |}.

Definition set_timeout (t : Z) (single_h : ml_single) : ml_single :=
  {| pipe := pipe single_h; src := src single_h; sink := sink single_h;
     filter := filter single_h; in_info := in_info single_h;
     out_info := out_info single_h; magic := magic single_h;
     clear_previous_buffer := clear_previous_buffer single_h; timeout := t |}.

(** ** The application elements, as [ml_single_invoke] calls them *)

(** The three GStreamer app-library calls of [ml_single_invoke], over a
    streaming state [E] the API cannot see into.
    - [gst_app_src_push_buffer] queues a buffer or refuses it;
    - [gst_app_sink_pull_sample] returns a sample, or NULL once the
      stream has ended, and otherwise does not return: [None];
    - [gst_app_sink_try_pull_sample] does the same but gives up, with
      NULL, when the timeout (nanoseconds) has passed. *)
Class GstApp (E : Type) : Type := {
  gst_app_src_push_buffer :
    E -> option GstElement -> GstBuffer -> GstFlowReturn * E;
  gst_app_sink_pull_sample :
    E -> option GstElement -> option (option GstSample * E);
  gst_app_sink_try_pull_sample :
    E -> option GstElement -> Z -> option GstSample * E
}.

Section Invoke.

Context {E : Type} `{GstApp E}.

(** The loop that checks each memory block of the input
    ([for (i = 0; i < in_data->num_tensors; i++)]): [true] when it runs
    to its end, [false] when it leaves through [goto done]. *)
Fixpoint validate_blocks (single_h : ml_single) (in_data : ml_tensors_data_s)
    (remaining i : nat) : bool :=
  match remaining with
  | O => true
  | S remaining' =>
      let raw_size := ml_tensor_info_get_size (info_at i (in_info single_h)) in
      if negb (bool_decide (is_Some (tensor (data_at i in_data))))
         || negb (size (data_at i in_data) =? raw_size)
      then false
      else validate_blocks single_h in_data remaining' (S i)
  end.

(** "Validate input data": the count test, then the loop. *)
Definition validate_input (single_h : ml_single)
    (in_data : ml_tensors_data_s) : bool :=
  if negb (data_num_tensors in_data =? num_tensors (in_info single_h))
  then false
  else validate_blocks single_h in_data
         (Z.to_nat (data_num_tensors in_data)) 0.

(** "Try to clear old buffer in appsink before pushing the buffer": when
    [clear_previous_buffer] is set, [gst_app_sink_pull_sample], drop the
    sample if there is one, clear the flag. *)
Definition clear_old_buffer (single_h : ml_single) (e : E)
  : outcome (ml_single * E) :=
  if clear_previous_buffer single_h then
    match gst_app_sink_pull_sample e (sink single_h) with
    | None => Blocked
    | Some (sample, e') =>
        Returns (set_clear_previous_buffer false single_h, e')
    end
  else Returns (single_h, e).

(** "Push input buffer": one wrapped memory per block, appended in
    order.  Validation has seen every block non-NULL. *)
Definition input_buffer (in_data : ml_tensors_data_s) : GstBuffer :=
  map (fun i =>
         {| mem_data := default [] (tensor (data_at i in_data));
            mem_size := size (data_at i in_data) |})
      (seq 0 (Z.to_nat (data_num_tensors in_data))).

(** [memcpy (dst, src, n)] into a block of [length dst] bytes; [None]
    when it would read or write out of bounds. *)
Definition memcpy (dst data : list Byte.byte) (n : Z)
  : option (list Byte.byte) :=
  if (0 <=? n) && (n <=? Z.of_nat (length dst))
     && (n <=? Z.of_nat (length data))
  then Some (take (Z.to_nat n) data ++ drop (Z.to_nat n) dst)
  else None.

(** "Copy the result": for each block of [result], peek memory [i] of
    the sample's buffer and copy [mem_info.size] bytes from it.  [None]
    when the buffer has no memory [i] or the copy is out of bounds. *)
Fixpoint copy_result (buffer : GstBuffer) (remaining i : nat)
    (blocks : list ml_tensor_data_s) : option (list ml_tensor_data_s) :=
  match remaining with
  | O => Some blocks
  | S remaining' =>
      mem ← buffer !! i;
      blk ← blocks !! i;
      dst ← tensor blk;
      bytes ← memcpy dst (mem_data mem) (mem_size mem);
      copy_result buffer remaining' (S i)
        (<[i := {| tensor := Some bytes; size := size blk |}]> blocks)
  end.

(** The public functions begin with [check_feature_state ()], a macro of
    nnstreamer-capi-private.h, which is not among the sources; the
    return values documented in nnstreamer-single.h have none for it, and
    the macro is taken as the empty statement. *)

(** [ml_single_invoke], with ML_SINGLE_SUPPORT_TIMEOUT defined.
    - [single], [input]: the pointers, [None] for NULL;
    - [output]: [None] for a NULL pointer, otherwise what the caller's
      variable holds on entry.
    The result is the status, the caller's output variable on return,
    the handle on return and the streaming state. *)
Definition ml_single_invoke (single : option ml_single)
    (input : option ml_tensors_data_s)
    (output : option (option ml_tensors_data_s)) (e : E)
  : outcome (ml_error_e * option ml_tensors_data_s * option ml_single * E) :=
  match single, input, output with
  | Some single_h, Some in_data, Some output0 =>
      if negb (magic single_h =? ML_SINGLE_MAGIC) then
        Returns (ML_ERROR_INVALID_PARAMETER, output0, single, e)
      else if negb (validate_input single_h in_data) then
        Returns (ML_ERROR_INVALID_PARAMETER, None, single, e)
      else
        '(single_h, e) ← clear_old_buffer single_h e;
        let buffer := input_buffer in_data in
        let '(ret, e) := gst_app_src_push_buffer e (src single_h) buffer in
        if negb (bool_decide (ret = GST_FLOW_OK)) then
          Returns (ML_ERROR_STREAMS_PIPE, None, Some single_h, e)
        else
          let '(sample, e) :=
            gst_app_sink_try_pull_sample e (sink single_h)
              (GST_MSECOND * timeout single_h) in
          match sample with
          | None =>
              Returns (ML_ERROR_TIMED_OUT, None,
                       Some (set_clear_previous_buffer true single_h), e)
          | Some sample =>
              let '(status, output1) :=
                ml_tensors_data_create (out_info single_h) in
              if negb (bool_decide (status = ML_ERROR_NONE)) then
                Returns (status, output1, Some single_h, e)
              else
                match output1 with
                | None => Undefined
                | Some result =>
                    match copy_result sample
                            (Z.to_nat (data_num_tensors result)) 0
                            (tensors result) with
                    | None => Undefined
                    | Some blocks =>
                        Returns (ML_ERROR_NONE,
                                 Some {| data_num_tensors :=
                                           data_num_tensors result;
                                         tensors := blocks |},
                                 Some single_h, e)
                    end
                end
          end
  | _, _, _ =>
      Returns (ML_ERROR_INVALID_PARAMETER, default None output, single, e)
  end.

(** [ml_single_set_timeout], with ML_SINGLE_SUPPORT_TIMEOUT defined;
    [timeout] is an [unsigned int]. *)
Definition ml_single_set_timeout (single : option ml_single) (timeout : Z)
  : ml_error_e * option ml_single :=
  match single with
  | None => (ML_ERROR_INVALID_PARAMETER, single)
  | Some single_h =>
      if timeout =? 0 then (ML_ERROR_INVALID_PARAMETER, single)
      else if negb (magic single_h =? ML_SINGLE_MAGIC) then
        (ML_ERROR_INVALID_PARAMETER, single)
      else (ML_ERROR_NONE, Some (set_timeout timeout single_h))
  end.

End Invoke.

(** ** A streaming engine behind the interface *)

(** Modelled from the spec: the graph [ml_single_open] builds, as the
    API can observe it (GStreamer's appsrc and appsink around the
    tensor_filter element, none of it among the sources): an inference
    stage that turns each queued buffer into at most one sample after
    some processing time, one buffer at a time and in order, and an
    output stage that is a capacity-1 mailbox with drop-oldest semantics
    (max-buffers 1, drop TRUE).  Times are in nanoseconds. *)
Record Engine : Type := {
  (** what the inference stage makes of a buffer: [None] when it yields
      no sample for it, otherwise the processing time and the sample *)
  filter_fn : GstBuffer -> option (Z * GstSample);
  (** the source accepts buffers (the pipeline has been started) *)
  running : bool;
  (** samples still to come, oldest first, each with the time left
      after the one before it has come out *)
  inflight : list (Z * GstSample);
  (** the appsink's one slot *)
  sinkq : option GstSample;
  (** time passed since the engine was built *)
  clock : Z
}.

Definition set_stream (q : list (Z * GstSample)) (slot : option GstSample)
    (dt : Z) (e : Engine) : Engine :=
  {| filter_fn := filter_fn e; running := running e;
     inflight := q; sinkq := slot; clock := clock e + dt |}.

(** Samples that come out within [t]: each one replaces what the slot
    holds. *)
Fixpoint arrive (t : Z) (q : list (Z * GstSample)) (slot : option GstSample)
  : list (Z * GstSample) * option GstSample :=
  match q with
  | [] => ([], slot)
  | (d, f) :: rest =>
      if d <=? t then arrive (t - d) rest (Some f)
      else ((d - t, f) :: rest, slot)
  end.

(** Time [t] passes with no call in progress. *)
Definition elapse (t : Z) (e : Engine) : Engine :=
  let '(q, slot) := arrive t (inflight e) (sinkq e) in
  set_stream q slot t e.

Definition engine_push_buffer (e : Engine) (appsrc : option GstElement)
    (buffer : GstBuffer) : GstFlowReturn * Engine :=
  match appsrc with
  | None => (GST_FLOW_ERROR, e)
  | Some _ =>
      if negb (running e) then (GST_FLOW_FLUSHING, e)
      else
        match filter_fn e buffer with
        | None => (GST_FLOW_OK, e)
        | Some out => (GST_FLOW_OK, set_stream (inflight e ++ [out]) (sinkq e) 0 e)
        end
  end.

Definition engine_pull_sample (e : Engine) (appsink : option GstElement)
  : option (option GstSample * Engine) :=
  match appsink with
  | None => Some (None, e)
  | Some _ =>
      match sinkq e with
      | Some sample => Some (Some sample, set_stream (inflight e) None 0 e)
      | None =>
          match inflight e with
          | [] => None
          | (d, f) :: rest => Some (Some f, set_stream rest None d e)
          end
      end
  end.

Definition engine_try_pull_sample (e : Engine) (appsink : option GstElement)
    (timeout : Z) : option GstSample * Engine :=
  match appsink with
  | None => (None, e)
  | Some _ =>
      match sinkq e with
      | Some sample => (Some sample, set_stream (inflight e) None 0 e)
      | None =>
          match inflight e with
          | [] => (None, set_stream [] None timeout e)
          | (d, f) :: rest =>
              if d <=? timeout then (Some f, set_stream rest None d e)
              else (None, set_stream ((d - timeout, f) :: rest) None timeout e)
          end
      end
  end.

#[global] Instance Engine_GstApp : GstApp Engine := {
  gst_app_src_push_buffer := engine_push_buffer;
  gst_app_sink_pull_sample := engine_pull_sample;
  gst_app_sink_try_pull_sample := engine_try_pull_sample
}.

(** Samples the engine still owes the sink or holds in it. *)
Definition pending (e : Engine) : nat :=
  (length (inflight e) + match sinkq e with Some _ => 1 | None => 0 end)%nat.

(** ** Introspection of the inference stage *)

(** Modelled from the spec: the value of a tensor_filter property.  The
    inference stage self-reports dimension, type and name strings per
    direction, which are parsed into a Tensor-Set Descriptor.  The
    strings and their parsers (gst_tensors_info_parse_*_string, in
    tensor_common.c) are not among the sources, so a property is held as
    the list its parser reads from it. *)
Inductive prop_value : Set :=
| PropDimensions (dims : list ml_tensor_dim)
| PropTypes (types : list ml_tensor_type_e)
| PropNames (names : list (option string))
| PropUnset.

(** The tensor_filter element as [g_object_get (filter, prop_name, &val,
    NULL)] sees it. *)
Definition tensor_filter : Set := string -> prop_value.

(** [GstTensorsInfo] has the fields of [ml_tensors_info_s], which stands
    for it; [gst_tensors_info_init] is [ml_tensors_info_initialize]. *)
Definition GstTensorsInfo : Set := ml_tensors_info_s.

Definition with_dimension (d : ml_tensor_dim) (ti : ml_tensor_info_s)
  : ml_tensor_info_s :=
  {| name := name ti; type := type ti; dimension := d |}.

Definition with_type (t : ml_tensor_type_e) (ti : ml_tensor_info_s)
  : ml_tensor_info_s :=
  {| name := name ti; type := t; dimension := dimension ti |}.

Definition with_name (n : option string) (ti : ml_tensor_info_s)
  : ml_tensor_info_s :=
  {| name := n; type := type ti; dimension := dimension ti |}.

(** Writes [vals] into the array from index [i] on, one field per entry. *)
Fixpoint fill_entries {A : Type}
    (setter : A -> ml_tensor_info_s -> ml_tensor_info_s)
    (i : nat) (vals : list A) (entries : list ml_tensor_info_s)
  : list ml_tensor_info_s :=
  match vals with
  | [] => entries
  | v :: vals' => fill_entries setter (S i) vals' (alter (setter v) i entries)
  end.

(** Modelled from the spec: [gst_tensors_info_parse_dimensions_string].
    Like the two parsers after it, it fills its field of the first
    entries, at most NNS_TENSOR_SIZE_LIMIT (16) of them, and returns how
    many it filled. *)
Definition gst_tensors_info_parse_dimensions_string (gst_info : GstTensorsInfo)
    (val : prop_value) : GstTensorsInfo * Z :=
  match val with
  | PropDimensions dims =>
      let dims := take ML_TENSOR_SIZE_LIMIT dims in
      ({| num_tensors := num_tensors gst_info;
          info := fill_entries with_dimension 0 dims (info gst_info) |},
       Z.of_nat (length dims))
  | _ => (gst_info, 0)
  end.

(** Modelled from the spec: [gst_tensors_info_parse_types_string]. *)
Definition gst_tensors_info_parse_types_string (gst_info : GstTensorsInfo)
    (val : prop_value) : GstTensorsInfo * Z :=
  match val with
  | PropTypes types =>
      let types := take ML_TENSOR_SIZE_LIMIT types in
      ({| num_tensors := num_tensors gst_info;
          info := fill_entries with_type 0 types (info gst_info) |},
       Z.of_nat (length types))
  | _ => (gst_info, 0)
  end.

(** Modelled from the spec: [gst_tensors_info_parse_names_string]. *)
Definition gst_tensors_info_parse_names_string (gst_info : GstTensorsInfo)
    (val : prop_value) : GstTensorsInfo * Z :=
  match val with
  | PropNames names =>
      let names := take ML_TENSOR_SIZE_LIMIT names in
      ({| num_tensors := num_tensors gst_info;
          info := fill_entries with_name 0 names (info gst_info) |},
       Z.of_nat (length names))
  | _ => (gst_info, 0)
  end.

(** Modelled from the spec: [ml_tensors_info_copy_from_gst] (in
    nnstreamer-capi-util.c, not among the sources): the count and the
    active entries are copied over an initialised descriptor. *)
Definition ml_tensors_info_copy_from_gst (gst_info : GstTensorsInfo)
  : ml_tensors_info_s :=
  let n := Z.to_nat (num_tensors gst_info) in
  {| num_tensors := num_tensors gst_info;
     info := take n (info gst_info)
             ++ drop n (info ml_tensors_info_initialize) |}.

(** [ml_single_get_tensors_info_from_filter].  The two mismatch tests
    only log a warning. *)
Definition ml_single_get_tensors_info_from_filter (filter : tensor_filter)
    (is_input : bool) : ml_tensors_info_s :=
  let prop_prefix := if is_input then "input" else "output" in
  let gst_info := ml_tensors_info_initialize in
  (* get dimensions *)
  let prop_name := prop_prefix in
  let val := filter prop_name in
  let '(gst_info, rank) := gst_tensors_info_parse_dimensions_string gst_info val in
  (* set the number of tensors *)
  let gst_info := {| num_tensors := rank; info := info gst_info |} in
  (* get types *)
  let prop_name := (prop_prefix ++ "type")%string in
  let val := filter prop_name in
  let '(gst_info, rank) := gst_tensors_info_parse_types_string gst_info val in
  (* get names *)
  let prop_name := (prop_prefix ++ "name")%string in
  let val := filter prop_name in
  let '(gst_info, rank) := gst_tensors_info_parse_names_string gst_info val in
  ml_tensors_info_copy_from_gst gst_info.

(** [ml_single_get_tensors_info]: [filterx] is the element
    [single_h->filter] points to; [info] tells whether the out-pointer is
    non-NULL.  Reading properties through a NULL element is undefined. *)
Definition ml_single_get_tensors_info (single : option ml_single)
    (is_input : bool) (info : bool) (filterx : tensor_filter)
  : outcome (ml_error_e * option ml_tensors_info_s) :=
  match single with
  | Some single_h =>
      if negb info then Returns (ML_ERROR_INVALID_PARAMETER, None)
      else if negb (magic single_h =? ML_SINGLE_MAGIC) then
        Returns (ML_ERROR_INVALID_PARAMETER, None)
      else
        match filter single_h with
        | None => Undefined
        | Some _ =>
            Returns (ML_ERROR_NONE,
                     Some (ml_single_get_tensors_info_from_filter filterx is_input))
        end
  | None => Returns (ML_ERROR_INVALID_PARAMETER, None)
  end.

Definition ml_single_get_input_info (single : option ml_single) (info : bool)
    (filterx : tensor_filter) :=
  ml_single_get_tensors_info single true info filterx.

Definition ml_single_get_output_info (single : option ml_single) (info : bool)
    (filterx : tensor_filter) :=
  ml_single_get_tensors_info single false info filterx.

(** ** The process state seen by open and close *)

Section World.

Context {E : Type}.

(** A constructed pipeline ([ml_pipeline_h]): the inference stage's
    properties, the streaming state, and what open has set on the two
    app elements.  Caps are held as the descriptor they were made
    from ([ml_tensors_info_get_caps]). *)
Record Pipeline : Type := {
  filterx : tensor_filter;
  stream : E;
  srcx_caps : option ml_tensors_info_s;
  sinkx_caps : option ml_tensors_info_s;
  sinkx_max_buffers : Z;
  sinkx_drop : bool
}.

(** What the process owns: the pipelines constructed and not yet
    destroyed, the element references taken with
    [gst_bin_get_by_name] and not yet given back, and the [ml_single]
    blocks allocated and not yet freed.  [graphs_built] counts the
    pipelines ever instantiated. *)
Record World : Type := {
  pipelines : gmap positive Pipeline;
  element_refs : gmultiset GstElement;
  singles : gmap positive ml_single;
  graphs_built : nat
}.

(** The collaborators of [ml_single_open] that are not in the sources:
    GStreamer start-up, the file test, the availability probe, the
    pipeline parser and starter, and the three descriptor-to-string
    serialisers used for the tensorflow options. *)
Record Env : Type := {
  env_gst_init_check : bool;
  env_file_is_regular : string -> bool;
  env_check_nnfw_availability :
    ml_nnfw_type_e -> ml_nnfw_hw_e -> ml_error_e * bool;
  env_construct : string -> ml_error_e * Pipeline;
  env_start : Pipeline -> ml_error_e * E;
  env_dimensions_string : ml_tensors_info_s -> string;
  env_types_string : ml_tensors_info_s -> string;
  env_names_string : ml_tensors_info_s -> string
}.

Definition set_pipelines (ps : gmap positive Pipeline) (w : World) : World :=
  {| pipelines := ps; element_refs := element_refs w; singles := singles w;
     graphs_built := graphs_built w |}.

Definition set_element_refs (rs : gmultiset GstElement) (w : World) : World :=
  {| pipelines := pipelines w; element_refs := rs; singles := singles w;
     graphs_built := graphs_built w |}.

Definition set_singles (hs : gmap positive ml_single) (w : World) : World :=
  {| pipelines := pipelines w; element_refs := element_refs w; singles := hs;
     graphs_built := graphs_built w |}.

Definition set_stream_of (e : E) (p : Pipeline) : Pipeline :=
  {| filterx := filterx p; stream := e; srcx_caps := srcx_caps p;
     sinkx_caps := sinkx_caps p; sinkx_max_buffers := sinkx_max_buffers p;
     sinkx_drop := sinkx_drop p |}.

(** Modelled from the spec: [ml_pipeline_construct] (in
    nnstreamer-capi-pipeline.c, not among the sources).  The engine
    parses and instantiates the description; a construction failure
    yields an error and no pipeline. *)
Definition ml_pipeline_construct (env : Env) (w : World)
    (pipeline_description : string) : ml_error_e * option positive * World :=
  let '(status, p) := env_construct env pipeline_description in
  if negb (bool_decide (status = ML_ERROR_NONE)) then (status, None, w)
  else
    let h := fresh (dom (pipelines w)) in
    (ML_ERROR_NONE, Some h,
     {| pipelines := <[h := p]> (pipelines w);
        element_refs := element_refs w; singles := singles w;
        graphs_built := S (graphs_built w) |}).

(** Modelled from the spec: [ml_pipeline_start], asynchronous: it
    returns once the transition is requested. *)
Definition ml_pipeline_start (env : Env) (w : World) (pipe : positive)
  : ml_error_e * World :=
  match pipelines w !! pipe with
  | None => (ML_ERROR_INVALID_PARAMETER, w)
  | Some p =>
      let '(status, e) := env_start env p in
      (status, set_pipelines (<[pipe := set_stream_of e p]> (pipelines w)) w)
  end.

(** Modelled from the spec: [ml_pipeline_destroy] releases the graph. *)
Definition ml_pipeline_destroy (w : World) (pipe : positive)
  : ml_error_e * World :=
  match pipelines w !! pipe with
  | None => (ML_ERROR_INVALID_PARAMETER, w)
  | Some _ => (ML_ERROR_NONE, set_pipelines (delete pipe (pipelines w)) w)
  end.

(** [gst_bin_get_by_name]: a new reference to the named element.  The
    three names asked for are spelled out in every description
    [ml_single_open] constructs, so the element is there. *)
Definition gst_bin_get_by_name (w : World) (pipe : positive) (nm : string)
  : option GstElement * World :=
  (Some (pipe, nm), set_element_refs (element_refs w ⊎ {[+ (pipe, nm) +]}) w).

(** [gst_object_unref]. *)
Definition gst_object_unref (w : World) (el : GstElement) : World :=
  set_element_refs (element_refs w ∖ {[+ el +]}) w.

(** [g_new0 (ml_single, 1)] followed by the stores that fill the block. *)
Definition g_new0_ml_single (w : World) (content : ml_single)
  : positive * World :=
  let a := fresh (dom (singles w)) in
  (a, set_singles (<[a := content]> (singles w)) w).

Definition store_single (w : World) (a : positive) (content : ml_single)
  : World :=
  set_singles (<[a := content]> (singles w)) w.

Definition update_pipeline (w : World) (pipe : positive)
    (f : Pipeline -> Pipeline) : World :=
  set_pipelines (alter f pipe (pipelines w)) w.

Definition gst_app_src_set_caps (caps : ml_tensors_info_s) (p : Pipeline)
  : Pipeline :=
  {| filterx := filterx p; stream := stream p; srcx_caps := Some caps;
     sinkx_caps := sinkx_caps p; sinkx_max_buffers := sinkx_max_buffers p;
     sinkx_drop := sinkx_drop p |}.

Definition gst_app_sink_set_caps (caps : ml_tensors_info_s) (p : Pipeline)
  : Pipeline :=
  {| filterx := filterx p; stream := stream p; srcx_caps := srcx_caps p;
     sinkx_caps := Some caps; sinkx_max_buffers := sinkx_max_buffers p;
     sinkx_drop := sinkx_drop p |}.

Definition gst_app_sink_set_max_buffers (n : Z) (p : Pipeline) : Pipeline :=
  {| filterx := filterx p; stream := stream p; srcx_caps := srcx_caps p;
     sinkx_caps := sinkx_caps p; sinkx_max_buffers := n;
     sinkx_drop := sinkx_drop p |}.

Definition gst_app_sink_set_drop (b : bool) (p : Pipeline) : Pipeline :=
  {| filterx := filterx p; stream := stream p; srcx_caps := srcx_caps p;
     sinkx_caps := sinkx_caps p; sinkx_max_buffers := sinkx_max_buffers p;
     sinkx_drop := b |}.

(** The element unref of [ml_single_close]:
    [if (p) { gst_object_unref (p); p = NULL; }]. *)
Definition unref_if_set (w : World) (el : option GstElement) : World :=
  match el with
  | Some el => gst_object_unref w el
  | None => w
  end.

(** [ml_single_close].  [single] is the handle pointer; a pointer to no
    live block has no magic to show and is turned away like one whose
    magic is wrong. *)
Definition ml_single_close (w : World) (single : option positive)
  : ml_error_e * World :=
  match single with
  | None => (ML_ERROR_INVALID_PARAMETER, w)
  | Some a =>
      match singles w !! a with
      | None => (ML_ERROR_INVALID_PARAMETER, w)
      | Some single_h =>
          if negb (magic single_h =? ML_SINGLE_MAGIC) then
            (ML_ERROR_INVALID_PARAMETER, w)
          else
            let w := unref_if_set w (src single_h) in
            let w := unref_if_set w (sink single_h) in
            let w := unref_if_set w (filter single_h) in
            let '(status, w) := ml_pipeline_destroy w (pipe single_h) in
            (status, set_singles (delete a (singles w)) w)
      end
  end.

End World.

Arguments Pipeline : clear implicits.
Arguments World : clear implicits.
Arguments Env : clear implicits.

Section Open.

Context {E : Type}.

Definition set_in_info (ti : ml_tensors_info_s) (single_h : ml_single)
  : ml_single :=
  {| pipe := pipe single_h; src := src single_h; sink := sink single_h;
     filter := filter single_h; in_info := ti;
     out_info := out_info single_h; magic := magic single_h;
     clear_previous_buffer := clear_previous_buffer single_h;
     timeout := timeout single_h |}.

Definition set_out_info (ti : ml_tensors_info_s) (single_h : ml_single)
  : ml_single :=
  {| pipe := pipe single_h; src := src single_h; sink := sink single_h;
     filter := filter single_h; in_info := in_info single_h;
     out_info := ti; magic := magic single_h;
     clear_previous_buffer := clear_previous_buffer single_h;
     timeout := timeout single_h |}.

(** The tensor_filter element of a pipeline, for [g_object_get]. *)
Definition filter_of (w : World E) (pipe : positive) : tensor_filter :=
  match pipelines w !! pipe with
  | Some p => filterx p
  | None => fun _ => PropUnset
  end.

(** "3. Construct a pipeline": the description for the resolved
    framework, or the status the switch returns with. *)
Definition pipeline_description (env : Env E) (nnfw : ml_nnfw_type_e)
    (model : string) (in_tensors_info out_tensors_info : option ml_tensors_info_s)
  : ml_error_e + string :=
  match nnfw with
  | ML_NNFW_TYPE_CUSTOM_FILTER =>
      inr ("appsrc name=srcx ! tensor_filter name=filterx framework=custom model="
           ++ model ++ " ! appsink name=sinkx sync=false")%string
  | ML_NNFW_TYPE_TENSORFLOW_LITE =>
      inr ("appsrc name=srcx ! tensor_filter name=filterx framework=tensorflow-lite model="
           ++ model ++ " ! appsink name=sinkx sync=false")%string
  | ML_NNFW_TYPE_TENSORFLOW =>
      match in_tensors_info, out_tensors_info with
      | Some in_info, Some out_info =>
          let in_option :=
            ("input=" ++ env_dimensions_string env in_info
             ++ " inputtype=" ++ env_types_string env in_info
             ++ " inputname=" ++ env_names_string env in_info)%string in
          let out_option :=
            ("output=" ++ env_dimensions_string env out_info
             ++ " outputtype=" ++ env_types_string env out_info
             ++ " outputname=" ++ env_names_string env out_info)%string in
          inr ("appsrc name=srcx ! tensor_filter name=filterx framework=tensorflow model="
               ++ model ++ " " ++ in_option ++ " " ++ out_option
               ++ " ! appsink name=sinkx sync=false")%string
      | _, _ => inl ML_ERROR_INVALID_PARAMETER
      end
  | _ => inl ML_ERROR_NOT_SUPPORTED
  end.

(** The [error:] label: close the handle when [status] is a failure,
    hand it out otherwise. *)
Definition open_finish (w : World E) (status : ml_error_e) (single_h : positive)
  : ml_error_e * option positive * World E :=
  if negb (bool_decide (status = ML_ERROR_NONE)) then
    (status, None, snd (ml_single_close w (Some single_h)))
  else (status, Some single_h, w).

(** "4. Allocate": the three elements by name, then the zeroed block
    and the stores that fill it. *)
Definition open_allocate (w : World E) (pipe : positive)
  : positive * ml_single * World E :=
  let '(appsrc, w) := gst_bin_get_by_name w pipe "srcx" in
  let '(appsink, w) := gst_bin_get_by_name w pipe "sinkx" in
  let '(filter, w) := gst_bin_get_by_name w pipe "filterx" in
  let content :=
    {| pipe := pipe; src := appsrc; sink := appsink; filter := filter;
       in_info := ml_tensors_info_initialize;
       out_info := ml_tensors_info_initialize;
       magic := ML_SINGLE_MAGIC;
       clear_previous_buffer := false;
       timeout := SINGLE_DEFAULT_TIMEOUT |} in
  let '(single_h, w) := g_new0_ml_single w content in
  (single_h, content, w).

(** "5. Set in/out caps and metadata", the output half, and "6. Start
    pipeline".  [content] is what the block [single_h] holds. *)
Definition open_set_output (env : Env E) (w : World E) (pipe : positive)
    (single_h : positive) (content : ml_single)
    (out_tensors_info : option ml_tensors_info_s)
  : ml_error_e * option positive * World E :=
  let content :=
    match out_tensors_info with
    | Some info => set_out_info (ml_tensors_info_clone info) content
    | None =>
        set_out_info
          (ml_tensors_info_clone
             (ml_single_get_tensors_info_from_filter (filter_of w pipe) false))
          content
    end in
  let w := store_single w single_h content in
  let '(status, valid) :=
    match out_tensors_info with
    | Some _ => (ML_ERROR_NONE, true)
    | None => ml_tensors_info_validate (out_info content)
    end in
  if negb (bool_decide (status = ML_ERROR_NONE)) || negb valid then
    open_finish w ML_ERROR_INVALID_PARAMETER single_h
  else
    let caps := out_info content in
    let w := update_pipeline w pipe (gst_app_sink_set_caps caps) in
    (* set max buffer in appsink (default unlimited) and drop old buffer *)
    let w := update_pipeline w pipe (gst_app_sink_set_max_buffers 1) in
    let w := update_pipeline w pipe (gst_app_sink_set_drop true) in
    (* 6. Start pipeline *)
    let '(status, w) := ml_pipeline_start env w pipe in
    open_finish w status single_h.

(** "5. Set in/out caps and metadata", the input half, then the rest. *)
Definition open_set_input (env : Env E) (w : World E) (pipe : positive)
    (single_h : positive) (content : ml_single)
    (in_tensors_info out_tensors_info : option ml_tensors_info_s)
  : ml_error_e * option positive * World E :=
  let content :=
    match in_tensors_info with
    | Some info => set_in_info (ml_tensors_info_clone info) content
    | None =>
        set_in_info
          (ml_tensors_info_clone
             (ml_single_get_tensors_info_from_filter (filter_of w pipe) true))
          content
    end in
  let w := store_single w single_h content in
  let '(status, valid) :=
    match in_tensors_info with
    | Some _ => (ML_ERROR_NONE, true)
    | None => ml_tensors_info_validate (in_info content)
    end in
  if negb (bool_decide (status = ML_ERROR_NONE)) || negb valid then
    open_finish w ML_ERROR_INVALID_PARAMETER single_h
  else
    let caps := in_info content in
    let w := update_pipeline w pipe (gst_app_src_set_caps caps) in
    open_set_output env w pipe single_h content out_tensors_info.

(** Steps 4 to 6 of [ml_single_open], from the constructed pipeline
    on. *)
Definition open_constructed (env : Env E) (w : World E) (pipe : positive)
    (in_tensors_info out_tensors_info : option ml_tensors_info_s)
  : ml_error_e * option positive * World E :=
  let '(single_h, content, w) := open_allocate w pipe in
  open_set_input env w pipe single_h content
    in_tensors_info out_tensors_info.

(** A descriptor argument passes when it is NULL or validates. *)
Definition info_param_ok (ti : option ml_tensors_info_s) : bool :=
  match ti with
  | None => true
  | Some ti =>
      let '(status, valid) := ml_tensors_info_validate ti in
      bool_decide (status = ML_ERROR_NONE) && valid
  end.

(** [ml_single_open].
    - [single]: [None] for a NULL out-pointer, otherwise what the
      caller's variable holds on entry;
    - [model]: the path, [None] for NULL.
    The result is the status, the caller's handle variable on return
    and the world. *)
Definition ml_single_open (env : Env E) (w : World E)
    (single : option (option positive)) (model : option string)
    (input_info output_info : option ml_tensors_info_s)
    (nnfw : ml_nnfw_type_e) (hw : ml_nnfw_hw_e)
  : ml_error_e * option positive * World E :=
  match single with
  | None => (ML_ERROR_INVALID_PARAMETER, None, w)
  | Some _ =>
      (* init null *)
      if negb (env_gst_init_check env) then (ML_ERROR_STREAMS_PIPE, None, w)
      else if negb (info_param_ok input_info) then
        (ML_ERROR_INVALID_PARAMETER, None, w)
      else if negb (info_param_ok output_info) then
        (ML_ERROR_INVALID_PARAMETER, None, w)
      else
        match model with
        | None => (ML_ERROR_INVALID_PARAMETER, None, w)
        | Some model =>
            if negb (env_file_is_regular env model) then
              (ML_ERROR_INVALID_PARAMETER, None, w)
            else
              (* 1. Determine nnfw *)
              let '(status, nnfw) := Resolver.determine_nnfw nnfw model in
              if negb (bool_decide (status = ML_ERROR_NONE)) then
                (status, None, w)
              else
                (* 2. Determine hw *)
                let '(status, available) :=
                  env_check_nnfw_availability env nnfw hw in
                if negb (bool_decide (status = ML_ERROR_NONE)) then
                  (status, None, w)
                else if negb available then (ML_ERROR_NOT_SUPPORTED, None, w)
                else
                  (* 3. Construct a pipeline *)
                  match pipeline_description env nnfw model
                          input_info output_info with
                  | inl status => (status, None, w)
                  | inr pipeline_desc =>
                      let '(status, pipe, w) :=
                        ml_pipeline_construct env w pipeline_desc in
                      if negb (bool_decide (status = ML_ERROR_NONE)) then
                        (status, None, w)
                      else
                        match pipe with
                        | None => (status, None, w)
                        | Some pipe =>
                            open_constructed env w pipe input_info output_info
                        end
                  end
        end
  end.

End Open.

(** ** What open owns while it builds a handle *)

Section Construction.

Context {E : Type}.

(** Two worlds own the same pipelines, element references and handle
    blocks. *)
Definition same_resources (w w' : World E) : Prop :=
  pipelines w = pipelines w'
  /\ element_refs w = element_refs w'
  /\ singles w = singles w'.

(** The handle block [ml_single_open] fills for the pipeline [p]. *)
Definition handle_of (p : positive) (single_h : ml_single) : Prop :=
  magic single_h = ML_SINGLE_MAGIC
  /\ pipe single_h = p
  /\ src single_h = Some (p, "srcx")
  /\ sink single_h = Some (p, "sinkx")
  /\ filter single_h = Some (p, "filterx")
  /\ timeout single_h = SINGLE_DEFAULT_TIMEOUT
  /\ clear_previous_buffer single_h = false.

(** The world [w] is [w0] plus what steps 3 and 4 of open have built:
    the pipeline [p] with the inference stage [fx], one reference to
    each of its three stages, and the block [a]. *)
Definition under_construction (w0 w : World E) (p a : positive)
    (fx : tensor_filter) : Prop :=
  pipelines w0 !! p = None
  /\ singles w0 !! a = None
  /\ (exists pl, pipelines w !! p = Some pl /\ filterx pl = fx)
  /\ delete p (pipelines w) = pipelines w0
  /\ element_refs w
     = element_refs w0 ⊎ {[+ (p, "srcx") +]} ⊎ {[+ (p, "sinkx") +]}
         ⊎ {[+ (p, "filterx") +]}
  /\ delete a (singles w) = singles w0.

(** The descriptor open settles on for one direction: the caller's,
    or else the inference stage's own. *)
Definition negotiated (given : option ml_tensors_info_s)
    (fx : tensor_filter) (is_input : bool) : ml_tensors_info_s :=
  match given with
  | Some ti => ti
  | None => ml_single_get_tensors_info_from_filter fx is_input
  end.

End Construction.

(** ** Compatibility of a data frame with a descriptor *)

(** A Data Buffer is compatible with a Descriptor when the counts match
    and every block is there with the byte length computed from its
    entry (product of dimensions times element width). *)
Definition data_compatible (ti : ml_tensors_info_s) (d : ml_tensors_data_s)
  : Prop :=
  data_num_tensors d = num_tensors ti
  /\ forall i : nat, (i < Z.to_nat (data_num_tensors d))%nat ->
       is_Some (tensor (data_at i d))
       /\ size (data_at i d) = ml_tensor_info_get_size (info_at i ti).

(** A Data Buffer has the shape of a Descriptor when it has its count
    and each block is allocated with the entry's computed byte size. *)
Definition data_shaped (ti : ml_tensors_info_s) (d : ml_tensors_data_s)
  : Prop :=
  data_num_tensors d = num_tensors ti
  /\ forall i : nat, (i < Z.to_nat (num_tensors ti))%nat ->
       exists bytes,
         tensor (data_at i d) = Some bytes
         /\ size (data_at i d) = ml_tensor_info_get_size (info_at i ti)
         /\ length bytes = Z.to_nat (ml_tensor_info_get_size (info_at i ti)).

(** A sample fits a Descriptor when it has a memory for each entry that
    holds what it says and no more than the entry's computed byte size
    (what the caps set on the sink let through). *)
Definition sample_fits (ti : ml_tensors_info_s) (sample : GstSample) : Prop :=
  forall i : nat, (i < Z.to_nat (num_tensors ti))%nat ->
    exists mem,
      sample !! i = Some mem
      /\ 0 <= mem_size mem <= ml_tensor_info_get_size (info_at i ti)
      /\ mem_size mem <= Z.of_nat (length (mem_data mem)).

(** A block keeps its declared size and its allocation through the
    result copy. *)
Definition same_block_shape (blk blk' : ml_tensor_data_s) : Prop :=
  size blk' = size blk /\ length <$> tensor blk' = length <$> tensor blk.

Section InvokeSteps.

Context {E : Type} `{GstApp E}.

(** The sample the wait of an invoke call gets from the sink, when the
    call comes that far: after the clean-up and the push. *)
Definition awaited_sample (single_h : ml_single)
    (in_data : ml_tensors_data_s) (e : E) : option GstSample :=
  match clear_old_buffer single_h e with
  | Returns (single_h, e) =>
      let '(ret, e) :=
        gst_app_src_push_buffer e (src single_h) (input_buffer in_data) in
      if bool_decide (ret = GST_FLOW_OK) then
        fst (gst_app_sink_try_pull_sample e (sink single_h)
               (GST_MSECOND * timeout single_h))
      else None
  | _ => None
  end.

End InvokeSteps.

(** The statuses invoke fails with. *)
Definition invoke_error (status : ml_error_e) : Prop :=
  status = ML_ERROR_INVALID_PARAMETER \/ status = ML_ERROR_STREAMS_PIPE
  \/ status = ML_ERROR_TIMED_OUT \/ status = ML_ERROR_UNKNOWN.

(** ** Sample values *)

(** The descriptor {type = uint8, dims = \[1,28,28,1\]} and the descriptor
    {type = float32, dims = \[1,10\]} (padded to rank 4). *)
Definition info_uint8_28x28 : ml_tensors_info_s :=
  {| num_tensors := 1;
     info := {| name := None; type := ML_TENSOR_TYPE_UINT8;
                dimension := [1; 28; 28; 1] |}
             :: repeat tensor_info_init 15 |}.

Definition info_float32_10 : ml_tensors_info_s :=
  {| num_tensors := 1;
     info := {| name := None; type := ML_TENSOR_TYPE_FLOAT32;
                dimension := [1; 10; 1; 1] |}
             :: repeat tensor_info_init 15 |}.

(** A frame of one block of [n] bytes, all [b]. *)
Definition one_block (b : Byte.byte) (n : Z) : ml_tensors_data_s :=
  {| data_num_tensors := 1;
     tensors := [ {| tensor := Some (repeat b (Z.to_nat n)); size := n |} ] |}.

(** A handle as open leaves it for a pipeline with these descriptors. *)
Definition sample_single : ml_single :=
  {| pipe := 1%positive;
     src := Some (1%positive, "srcx");
     sink := Some (1%positive, "sinkx");
     filter := Some (1%positive, "filterx");
     in_info := info_uint8_28x28;
     out_info := info_float32_10;
     magic := ML_SINGLE_MAGIC;
     clear_previous_buffer := false;
     timeout := SINGLE_DEFAULT_TIMEOUT |}.

(** An inference stage that answers every buffer with forty bytes, all
    of the first byte [b] of the input, after [d * b] nanoseconds. *)
Definition echo_filter (d : Z) (buffer : GstBuffer) : option (Z * GstSample) :=
  let b := match buffer with
           | mem :: _ => hd Byte.x00 (mem_data mem)
           | [] => Byte.x00
           end in
  Some (d * Z.of_N (Byte.to_N b),
        [ {| mem_data := repeat b 40; mem_size := 40 |} ]).

(** An inference stage that yields nothing. *)
Definition silent_filter (buffer : GstBuffer) : option (Z * GstSample) := None.

(** A started engine with nothing under way. *)
Definition idle_engine (f : GstBuffer -> option (Z * GstSample)) : Engine :=
  {| filter_fn := f; running := true; inflight := []; sinkq := None;
     clock := 0 |}.

(** ** Sessions on one handle *)

(** The handle and the streaming state of its pipeline. *)
Definition session : Type := ml_single * Engine.

(** A handle as [ml_single_open] leaves it, over a pipeline with nothing
    under way: live, the three elements got, the flag clear. *)
Definition opened (st : session) : Prop :=
  magic (fst st) = ML_SINGLE_MAGIC
  /\ is_Some (sink (fst st))
  /\ clear_previous_buffer (fst st) = false
  /\ pending (snd st) = 0%nat.

(** One step of a session: a call on the handle that returns, or time
    passing between calls.  The describe calls change nothing. *)
Inductive session_step : session -> session -> Prop :=
| step_invoke single_h e in_data output0 status output single_h' e' :
    ml_single_invoke (Some single_h) in_data output0 e
    = Returns (status, output, Some single_h', e') ->
    session_step (single_h, e) (single_h', e')
| step_set_timeout single_h e t status single_h' :
    ml_single_set_timeout (Some single_h) t = (status, Some single_h') ->
    session_step (single_h, e) (single_h', e)
| step_elapse single_h e t :
    0 <= t ->
    session_step (single_h, e) (single_h, elapse t e).

(** The states a session can be in. *)
Definition reachable (st : session) : Prop :=
  exists st0, opened st0 /\ rtc session_step st0 st.

(** The frame invoke builds when the inference stage's answer to this
    call's own input is copied out. *)
Definition own_result (single_h : ml_single) (in_data : ml_tensors_data_s)
    (e : Engine) : option ml_tensors_data_s :=
  '(_, sample) ← filter_fn e (input_buffer in_data);
  result ← snd (ml_tensors_data_create (out_info single_h));
  blocks ← copy_result sample (Z.to_nat (data_num_tensors result)) 0
              (tensors result);
  Some {| data_num_tensors := data_num_tensors result; tensors := blocks |}.

(** What holds of every reachable session: the sink element is there,
    at most one sample is owed, and none when the flag is clear. *)
Definition session_inv (st : session) : Prop :=
  magic (fst st) = ML_SINGLE_MAGIC
  /\ is_Some (sink (fst st))
  /\ (pending (snd st) <= 1)%nat
  /\ (clear_previous_buffer (fst st) = false -> pending (snd st) = 0%nat).

(** ** A session that times out *)

Definition one_second : Z := 1000 * GST_MSECOND.

(** An input the sample engine needs five seconds for, and one it needs
    one second for. *)
Definition slow_input : ml_tensors_data_s := one_block Byte.x05 784.
Definition fast_input : ml_tensors_data_s := one_block Byte.x01 784.

(** The sample handle over an idle engine that paces itself in seconds. *)
Definition session_start : session :=
  (sample_single, idle_engine (echo_filter one_second)).

(** The session after invoke has timed out on [slow_input]: three
    seconds have passed, the sample is two seconds away, the flag is
    set. *)
Definition session_timed_out : session :=
  (set_clear_previous_buffer true sample_single,
   {| filter_fn := echo_filter one_second; running := true;
      inflight := [ (2 * one_second,
                     [ {| mem_data := repeat Byte.x05 40; mem_size := 40 |} ]) ];
      sinkq := None; clock := 3 * one_second |}).

(** The same with an inference stage that yields nothing. *)
Definition session_lost : session :=
  (set_clear_previous_buffer true sample_single,
   {| filter_fn := silent_filter; running := true; inflight := [];
      sinkq := None; clock := 3 * one_second |}).

(** ** A sample process *)

(** A tensor_filter over a model that takes one uint8 tensor of
    1:28:28:1 and gives one float32 tensor of 1:10:1:1, reporting the
    given input names. *)
Definition sample_filter (input_names : list (option string)) : tensor_filter :=
  fun prop_name =>
    if String.eqb prop_name "input" then PropDimensions [[1; 28; 28; 1]]
    else if String.eqb prop_name "inputtype" then PropTypes [ML_TENSOR_TYPE_UINT8]
    else if String.eqb prop_name "inputname" then PropNames input_names
    else if String.eqb prop_name "output" then PropDimensions [[1; 10; 1; 1]]
    else if String.eqb prop_name "outputtype" then
      PropTypes [ML_TENSOR_TYPE_FLOAT32]
    else if String.eqb prop_name "outputname" then PropNames []
    else PropUnset.

(** The pipeline the sample engine parses every description into, not
    yet started. *)
Definition sample_pipeline (input_names : list (option string))
  : Pipeline Engine :=
  {| filterx := sample_filter input_names;
     stream := {| filter_fn := echo_filter one_second; running := false;
                  inflight := []; sinkq := None; clock := 0 |};
     srcx_caps := None; sinkx_caps := None;
     sinkx_max_buffers := 0; sinkx_drop := false |}.

(** Collaborators that let everything through up to the start, which
    answers [start_status]. *)
Definition sample_env (input_names : list (option string))
    (start_status : ml_error_e) : Env Engine :=
  {| env_gst_init_check := true;
     env_file_is_regular := fun _ => true;
     env_check_nnfw_availability := fun _ _ => (ML_ERROR_NONE, true);
     env_construct := fun _ => (ML_ERROR_NONE, sample_pipeline input_names);
     env_start := fun p =>
       (start_status,
        {| filter_fn := filter_fn (stream p);
           running := bool_decide (start_status = ML_ERROR_NONE);
           inflight := inflight (stream p); sinkq := sinkq (stream p);
           clock := clock (stream p) |});
     env_dimensions_string := fun _ => "";
     env_types_string := fun _ => "";
     env_names_string := fun _ => "" |}.

Definition empty_world : World Engine :=
  {| pipelines := ∅; element_refs := ∅; singles := ∅; graphs_built := 0 |}.

(** The descriptor {type = uint8, dims = \[1,28,28,1\]} with the tensor
    named by the caller. *)
Definition info_uint8_28x28_named : ml_tensors_info_s :=
  {| num_tensors := 1;
     info := {| name := Some "image"; type := ML_TENSOR_TYPE_UINT8;
                dimension := [1; 28; 28; 1] |}
             :: repeat tensor_info_init 15 |}.


(** ** What a successful open leaves behind *)

Section Opened.

Context {E : Type}.

(** The pipeline as open has configured it when it asks for the start:
    caps on the source, then caps, max-buffers 1 and drop on the sink. *)
Definition configured (in_caps out_caps : ml_tensors_info_s)
    (pl : Pipeline E) : Pipeline E :=
  gst_app_sink_set_drop true
    (gst_app_sink_set_max_buffers 1
       (gst_app_sink_set_caps out_caps
          (gst_app_src_set_caps in_caps pl))).

(** The block of a handle over the pipeline [p] with the descriptors
    [i] and [o], as step 4 and step 5 of open fill it. *)
Definition opened_single (p : positive) (i o : ml_tensors_info_s) : ml_single :=
  {| pipe := p;
     src := Some (p, "srcx"); sink := Some (p, "sinkx");
     filter := Some (p, "filterx");
     in_info := i; out_info := o;
     magic := ML_SINGLE_MAGIC;
     clear_previous_buffer := false;
     timeout := SINGLE_DEFAULT_TIMEOUT |}.

(** The world after construction of the pipeline [pl] at the fresh
    handle of [w]. *)
Definition constructed_world (w : World E) (pl : Pipeline E) : World E :=
  {| pipelines := <[fresh (dom (pipelines w)) := pl]> (pipelines w);
     element_refs := element_refs w; singles := singles w;
     graphs_built := S (graphs_built w) |}.

(** The world a successful open of the pipeline [pl] makes of [w]: the
    pipeline, configured and with the stream [e] the start has left, one
    reference to each of the three stages, and the handle block. *)
Definition opened_world (w : World E) (pl : Pipeline E)
    (i o : ml_tensors_info_s) (e : E) : World E :=
  let p := fresh (dom (pipelines w)) in
  {| pipelines := <[p := set_stream_of e (configured i o pl)]> (pipelines w);
     element_refs :=
       element_refs w ⊎ {[+ (p, "srcx") +]} ⊎ {[+ (p, "sinkx") +]}
         ⊎ {[+ (p, "filterx") +]};
     singles := <[fresh (dom (singles w)) := opened_single p i o]> (singles w);
     graphs_built := S (graphs_built w) |}.

End Opened.

(** A world with the handle 1 over a pipeline that is no longer there,
    and the handle 2 over the pipeline 7. *)
Definition world_with_orphan : World Engine :=
  {| pipelines := {[ 7%positive := sample_pipeline [] ]};
     element_refs :=
       {[+ (5%positive, "srcx") +]} ⊎ {[+ (5%positive, "sinkx") +]}
         ⊎ {[+ (5%positive, "filterx") +]} ⊎ {[+ (7%positive, "srcx") +]};
     singles :=
       {[ 1%positive :=
            opened_single 5 info_uint8_28x28 info_float32_10;
          2%positive :=
            opened_single 7 info_uint8_28x28 info_float32_10 ]};
     graphs_built := 2 |}.

(** * Outcomes of a call into the plug-in infrastructure *)

Module Call.

(** A call returns, stops in a failed [g_assert], or leaves defined
    behaviour: [G_LOCK] of a static mutex by the thread that holds it
    (GLib: locking a GMutex already locked by the same thread is
    undefined), a destroy notifier run on a pointer of another type, a
    read through a freed pointer or past an array. *)
Inductive run (A : Type) : Type :=
| Done (a : A)
| Aborted
| Undefined.
Arguments Done {A} a.
Arguments Aborted {A}.
Arguments Undefined {A}.

#[global] Instance run_ret : MRet run := fun A a => Done a.

#[global] Instance run_bind : MBind run := fun A B k m =>
  match m with
  | Done a => k a
  | Aborted => Aborted
  | Undefined => Undefined
  end.

End Call.

(** * The sub-plugin registry (gst/nnstreamer/nnstreamer_subplugin.c) *)

Module Subplugin.

Import Call.

(** A [dlopen]'ed handle. *)
Definition dlhandle : Set := positive.

Section Registry.

(** [subpluginType] indexes the two static arrays
    [subplugins\[NNS_SUBPLUGIN_END\]] and
    [held_subplugins\[NNS_SUBPLUGIN_END\]]; the functions only index with
    it and compare it. *)
Context {subpluginType : Type} `{EqDecision subpluginType}.

(** What a non-NULL [const void *data] points to; [None] is NULL. *)
Context {D : Type}.

(** The struct [subpluginData]. *)
Record subpluginData : Type := {
  name : string;
  data : option D;
  handle : option dlhandle
}.

(** [nnstreamer_subplugin_data], the symbol a library exports, with the
    fields [get_subplugin] reads. *)
Record nnstreamer_subplugin_data : Type := {
  ns_checker : Z;
  ns_type : subpluginType;
  ns_name : option string;
  ns_data : option D
}.

(** The static state of the file: the two arrays of hash tables ([None]
    is a NULL table), the mutex [splock], and the references [dlopen]
    has handed out that [dlclose] has not yet taken back. *)
Record registry : Type := {
  subplugins : subpluginType -> option (gmap string subpluginData);
  held_subplugins : subpluginType -> option (gmap string (option D));
  splock : bool;
  dl_refs : gmultiset dlhandle
}.

Definition set_subplugins (type : subpluginType)
    (table : gmap string subpluginData) (r : registry) : registry :=
  {| subplugins := fun t => if decide (t = type) then Some table
                            else subplugins r t;
     held_subplugins := held_subplugins r; splock := splock r;
     dl_refs := dl_refs r |}.

Definition set_held (type : subpluginType)
    (table : gmap string (option D)) (r : registry) : registry :=
  {| subplugins := subplugins r;
     held_subplugins := fun t => if decide (t = type) then Some table
                                 else held_subplugins r t;
     splock := splock r; dl_refs := dl_refs r |}.

Definition set_splock (b : bool) (r : registry) : registry :=
  {| subplugins := subplugins r; held_subplugins := held_subplugins r;
     splock := b; dl_refs := dl_refs r |}.

Definition set_dl_refs (refs : gmultiset dlhandle) (r : registry) : registry :=
  {| subplugins := subplugins r; held_subplugins := held_subplugins r;
     splock := splock r; dl_refs := refs |}.

(** [G_LOCK (splock)] and [G_UNLOCK (splock)], seen from the one thread
    of the model. *)
Definition G_LOCK (r : registry) : run registry :=
  if splock r then Undefined else Done (set_splock true r).

Definition G_UNLOCK (r : registry) : registry := set_splock false r.

(** [dlclose]. *)
Definition dlclose (h : dlhandle) (r : registry) : registry :=
  set_dl_refs (dl_refs r ∖ {[+ h +]}) r.

(** [hold_register_subplugin].  The held table is created with
    [_heldsp_destroy] as the destroy notifier of its values, and the
    values stored are the callers' [data] pointers: when the name is
    already held, [g_hash_table_insert] runs [_heldsp_destroy] on the old
    [data], which frees [data->name] and [data] as if it were a
    [holdplugins]. *)
Definition hold_register_subplugin (r : registry) (type : subpluginType)
    (nm : string) (dt : option D) : run registry :=
  let table := default ∅ (held_subplugins r type) in
  match table !! nm with
  | Some _ => Undefined
  | None => Done (set_held type (<[nm := dt]> table) r)
  end.

(** [check_held_subplugin]: NULL for a NULL table, a missing name or a
    name held with NULL data. *)
Definition check_held_subplugin (r : registry) (type : subpluginType)
    (nm : string) : option D :=
  match held_subplugins r type with
  | None => None
  | Some table => mjoin (table !! nm)
  end.

(** [_spdata_destroy]. *)
Definition _spdata_destroy (dt : subpluginData) (r : registry) : registry :=
  match handle dt with
  | Some h => dlclose h r
  | None => r
  end.

(** [register_subplugin].  [g_hash_table_insert] returns TRUE when the
    key did not exist yet; the value it replaces goes through
    [_spdata_destroy]. *)
Definition register_subplugin (r : registry) (type : subpluginType)
    (nm : string) (dt : option D) : run (bool * registry) :=
  let spdata := {| name := nm; data := dt; handle := None |} in
  let table := default ∅ (subplugins r type) in
  let r := set_subplugins type table r in
  r ← G_LOCK r;
  let '(ret, r) :=
    match table !! nm with
    | Some old => (false, _spdata_destroy old r)
    | None => (true, r)
    end in
  let r := set_subplugins type (<[nm := spdata]> table) r in
  let r := G_UNLOCK r in
  Done (ret, r).

(** [unregister_subplugin]. *)
Definition unregister_subplugin (r : registry) (type : subpluginType)
    (nm : string) : run (bool * registry) :=
  match subplugins r type with
  | None => Done (false, r)
  | Some table =>
      r ← G_LOCK r;
      let '(ret, r) :=
        match table !! nm with
        | Some old =>
            (true, set_subplugins type (delete nm table) (_spdata_destroy old r))
        | None => (false, r)
        end in
      let r := G_UNLOCK r in
      Done (ret, r)
  end.

(** What [get_subplugin] asks of the rest of the process at one call:
    the path [nnsconf_get_fullpath] answers, [dlopen], which gives no
    handle or a handle after the constructors of the library have run
    (the [hold_register_subplugin] calls they make are listed; it is the
    one function of the file that does not take [splock]), and [dlsym]
    of a symbol with the [dlerror] after it. *)
Record Loader : Type := {
  nnsconf_get_fullpath : string -> subpluginType -> option string;
  dlopen : string -> option (dlhandle * list (subpluginType * string * option D));
  dlsym : dlhandle -> string
          -> option nnstreamer_subplugin_data * option string
}.

Fixpoint run_probes (r : registry)
    (probes : list (subpluginType * string * option D)) : run registry :=
  match probes with
  | [] => Done r
  | (type, nm, dt) :: probes =>
      r ← hold_register_subplugin r type nm dt;
      run_probes r probes
  end.

(** The labels [error_handle:] and [error:]. *)
Definition error (r : registry) : run (option D * registry) :=
  Done (None, G_UNLOCK r).

Definition error_handle (h : dlhandle) (r : registry)
  : run (option D * registry) :=
  error (dlclose h r).

(** [get_subplugin].  [NNS_SUBPLUGIN_CHECKER] is the constant of
    nnstreamer_subplugin.h.  [nnsconf_loadconf (FALSE)] changes nothing
    of this file's state. *)
Definition get_subplugin (NNS_SUBPLUGIN_CHECKER : Z) (L : Loader)
    (r : registry) (type : subpluginType) (nm : string)
  : run (option D * registry) :=
  r ← G_LOCK r;
  let table := default ∅ (subplugins r type) in
  let r := set_subplugins type table r in
  match table !! nm with
  | Some dt =>
      let r := G_UNLOCK r in
      Done (data dt, r)
  | None =>
      (* Search and register if found with the conf *)
      match nnsconf_get_fullpath L nm type with
      | None => error r (* No Such Thing !!! *)
      | Some fullpath =>
          match dlopen L fullpath with
          | None => error r
          | Some (h, probes) =>
              let r := set_dl_refs (dl_refs r ⊎ {[+ h +]}) r in
              r ← run_probes r probes;
              match check_held_subplugin r type nm with
              | Some held =>
                  let r := G_UNLOCK r in
                  Done (Some held, r)
              | None =>
                  let '(nsdata, dlsym_error) :=
                    dlsym L h "nnstreamer_subplugin" in
                  match nsdata with
                  | None => error_handle h r
                  | Some nsdata =>
                      if bool_decide (is_Some dlsym_error) then
                        error_handle h r
                      else if negb (ns_checker nsdata =? NNS_SUBPLUGIN_CHECKER)
                      then error_handle h r
                      else if negb (bool_decide (ns_type nsdata = type)) then
                        error_handle h r
                      else if negb (bool_decide (ns_name nsdata = Some nm))
                      then error_handle h r
                      else
                        '(ret, r) ← register_subplugin r type nm
                                      (ns_data nsdata);
                        if negb ret then Aborted
                        else
                          match default ∅ (subplugins r type) !! nm with
                          | None => Aborted
                          | Some dt =>
                              let dt := {| name := name dt; data := data dt;
                                           handle := Some h |} in
                              let r :=
                                set_subplugins type
                                  (<[nm := dt]>
                                     (default ∅ (subplugins r type))) r in
                              let r := G_UNLOCK r in
                              Done (data dt, r)
                          end
                  end
              end
          end
      end
  end.

(** The entry registered under a type and a name, if any. *)
Definition lookup_subplugin (r : registry) (type : subpluginType)
    (nm : string) : option subpluginData :=
  subplugins r type ≫= (.!! nm).

End Registry.

Arguments subpluginData : clear implicits.
Arguments nnstreamer_subplugin_data : clear implicits.
Arguments registry : clear implicits.
Arguments Loader : clear implicits.

End Subplugin.

(** * The configuration (gst/nnstreamer/nnstreamer_conf.c) *)

Module Conf.

Import Call.

(** [nnsconf_type_path] as the two switches name it; [NNSCONF_PATH_END]
    stands for every value that reaches their [default:] labels. *)
Inductive nnsconf_type_path : Set :=
| NNSCONF_PATH_FILTERS
| NNSCONF_PATH_DECODERS
| NNSCONF_PATH_CUSTOM_FILTERS
| NNSCONF_PATH_END.

(** The string macros of nnstreamer_conf.h the file uses: names of
    environment variables, the default conf file, the hardcoded
    directories and the file name prefixes. *)
Record nnstreamer_conf_h : Set := {
  NNSTREAMER_ENVVAR_CONF_FILE : string;
  NNSTREAMER_DEFAULT_CONF_FILE : string;
  NNSTREAMER_ENVVAR_FILTERS : string;
  NNSTREAMER_ENVVAR_DECODERS : string;
  NNSTREAMER_ENVVAR_CUSTOMFILTERS : string;
  NNSTREAMER_FILTERS : string;
  NNSTREAMER_DECODERS : string;
  NNSTREAMER_CUSTOM_FILTERS : string;
  NNSTREAMER_PREFIX_FILTER : string;
  NNSTREAMER_PREFIX_DECODER : string;
  NNSTREAMER_PREFIX_CUSTOMFILTERS : string
}.

(** A key file as [g_key_file_get_string] reads it: group, then key. *)
Definition GKeyFile : Set := string -> string -> option string.

(** The process and the file system at one call: [g_getenv], whether
    [g_stat] returns 0, [g_key_file_load_from_file], [g_dir_open] with
    the names [g_dir_read_name] then yields in order, the two
    [g_file_test]s, and GLib's [g_build_filename] and
    [g_path_get_basename]. *)
Record System : Set := {
  g_getenv : string -> option string;
  g_stat : string -> bool;
  g_key_file_load_from_file : string -> option GKeyFile;
  g_dir_open : string -> option (list string);
  g_file_test_is_dir : string -> bool;
  g_file_test_is_symlink : string -> bool;
  g_build_filename : string -> string -> string;
  g_path_get_basename : string -> string
}.

(** A [gchar *] field: NULL, a string of the heap, or a pointer left
    behind by [g_free]. *)
Inductive gchar_p : Set :=
| NULL
| Str (s : string)
| Freed.

Definition of_option (s : option string) : gchar_p :=
  match s with
  | Some s => Str s
  | None => NULL
  end.

(** [g_free (p)] leaves [p] as it is: dangling unless it was NULL. *)
Definition g_free (p : gchar_p) : gchar_p :=
  match p with
  | NULL => NULL
  | _ => Freed
  end.

(** The struct [confdata].  The [path...] arrays have CONF_SOURCES (3)
    entries: 0 ENVVAR, 1 CONFFILE, 2 hardcoded.  A [gchar **] is [None]
    when NULL and otherwise the strings before the terminator. *)
Record confdata : Set := {
  loaded : bool;
  conffile : gchar_p;
  pathFILTERS : list gchar_p;
  pathDECODERS : list gchar_p;
  pathCUSTOM_FILTERS : list gchar_p;
  filesFILTERS : option (list string);
  filesDECODERS : option (list string);
  filesCUSTOM_FILTERS : option (list string);
  basenameFILTERS : option (list string);
  basenameDECODERS : option (list string);
  basenameCUSTOM_FILTERS : option (list string)
}.

(** [static confdata conf = { 0 };] *)
Definition conf_zero : confdata :=
  {| loaded := false; conffile := NULL;
     pathFILTERS := [NULL; NULL; NULL];
     pathDECODERS := [NULL; NULL; NULL];
     pathCUSTOM_FILTERS := [NULL; NULL; NULL];
     filesFILTERS := None; filesDECODERS := None;
     filesCUSTOM_FILTERS := None;
     basenameFILTERS := None; basenameDECODERS := None;
     basenameCUSTOM_FILTERS := None |}.

(** GLib's [g_str_has_prefix]. *)
Definition g_str_has_prefix (str prefix : string) : bool :=
  String.prefix prefix str.

Section WithHeader.

Variable h : nnstreamer_conf_h.

(** [subplugin_prefixes\[\]], which has NNSCONF_PATH_END entries. *)
Definition subplugin_prefixes (type : nnsconf_type_path) : option string :=
  match type with
  | NNSCONF_PATH_FILTERS => Some (NNSTREAMER_PREFIX_FILTER h)
  | NNSCONF_PATH_DECODERS => Some (NNSTREAMER_PREFIX_DECODER h)
  | NNSCONF_PATH_CUSTOM_FILTERS => Some (NNSTREAMER_PREFIX_CUSTOMFILTERS h)
  | NNSCONF_PATH_END => None
  end.

(** [_strdup_getenv]. *)
Definition _strdup_getenv (sys : System) (nm : string) : option string :=
  match g_getenv sys nm with
  | None => None
  | Some tmp => Some tmp
  end.

(** [_validate_file]. *)
Definition _validate_file (sys : System) (type : nnsconf_type_path)
    (fullpath : string) : bool :=
  (* ignore directory *)
  if g_file_test_is_dir sys fullpath then false
  (* ignore symbol link file *)
  else if g_file_test_is_symlink sys fullpath then false
  else true.

(** The two lists and the counter [_get_filenames] updates. *)
Definition scan_state : Set := list string * list string * nat.

(** The body of the [while] of [_get_filenames] for one name. *)
Definition scan_name (sys : System) (type : nnsconf_type_path)
    (prefix dir : string) (st : scan_state) (nm : string) : scan_state :=
  let '(listF, listB, counter) := st in
  (* check file prefix for given type, handle .so only. *)
  if g_str_has_prefix nm prefix && Resolver.g_str_has_suffix nm ".so" then
    let fullpath := g_build_filename sys dir nm in
    if _validate_file sys type fullpath then
      (fullpath :: listF, g_path_get_basename sys nm :: listB, S counter)
    else st
  else st.

(** [_get_filenames].  The counter is a [guint]; the lists it counts are
    in memory, far fewer than 2^32 entries. *)
Definition _get_filenames (sys : System) (type : nnsconf_type_path)
    (prefix dir : string) (st : scan_state) : bool * scan_state :=
  match g_dir_open sys dir with
  | None => (false, st)
  | Some names => (true, fold_left (scan_name sys type prefix dir) names st)
  end.

(** The [for] of [_fill_in_vstr] from the source [i] on.  Reading the
    directory name through a freed [searchpath\[i\]] is undefined. *)
Fixpoint scan_sources (sys : System) (type : nnsconf_type_path)
    (prefix : string) (searchpath : list gchar_p) (st : scan_state)
  : run scan_state :=
  match searchpath with
  | [] => Done st
  | NULL :: rest => scan_sources sys type prefix rest st
  | Str dir :: rest =>
      scan_sources sys type prefix rest
        (snd (_get_filenames sys type prefix dir st))
  | Freed :: rest => Undefined
  end.

(** [_fill_in_vstr]: the full paths and the base names.  Each
    [g_slist_foreach] asserts [cursor < size] for every element.  The
    function is static and called with the three types only. *)
Definition _fill_in_vstr (sys : System) (searchpath : list gchar_p)
    (type : nnsconf_type_path) : run (list string * list string) :=
  match subplugin_prefixes type with
  | None => Undefined
  | Some prefix =>
      '(lstF, lstB, counter) ← scan_sources sys type prefix searchpath
                                 ([], [], 0%nat);
      (* Because _get_* does "prepend", reverse them to have the correct
         order. *)
      let lstF := rev lstF in
      let lstB := rev lstB in
      if (length lstF <=? counter)%nat && (length lstB <=? counter)%nat
      then Done (lstF, lstB)
      else Aborted
  end.

(** The entries one directory contributes, in reading order: the full
    path and the base name of every name with the prefix and the
    extension that is neither a directory nor a symbolic link. *)
Definition dir_entries (sys : System) (type : nnsconf_type_path)
    (prefix dir : string) : list (string * string) :=
  match g_dir_open sys dir with
  | None => []
  | Some names =>
      omap (fun nm =>
              if g_str_has_prefix nm prefix
                 && Resolver.g_str_has_suffix nm ".so"
                 && _validate_file sys type (g_build_filename sys dir nm)
              then Some (g_build_filename sys dir nm,
                         g_path_get_basename sys nm)
              else None) names
  end.

(** The entries of the directories of a search path, a directory after
    the other. *)
Definition search_entries (sys : System) (type : nnsconf_type_path)
    (prefix : string) (searchpath : list gchar_p) : list (string * string) :=
  flat_map (fun p => match p with
                     | Str dir => dir_entries sys type prefix dir
                     | _ => []
                     end) searchpath.

(** What [nnsconf_loadconf] stores in [conf.conffile]: the file the
    environment names when [g_stat] finds it, the default otherwise. *)
Definition conf_file (sys : System) : string :=
  match _strdup_getenv sys (NNSTREAMER_ENVVAR_CONF_FILE h) with
  | Some file =>
      if g_stat sys file then file else NNSTREAMER_DEFAULT_CONF_FILE h
  | None => NNSTREAMER_DEFAULT_CONF_FILE h
  end.

(** [nnsconf_loadconf]. *)
Definition nnsconf_loadconf (sys : System) (force_reload : bool)
    (conf : confdata) : run (bool * confdata) :=
  if negb force_reload && loaded conf then Done (true, conf)
  else
    (* Do Clean Up *)
    let clean_up := force_reload && loaded conf in
    let pathF := if clean_up then g_free <$> pathFILTERS conf
                 else pathFILTERS conf in
    let pathD := if clean_up then g_free <$> pathDECODERS conf
                 else pathDECODERS conf in
    let pathC := if clean_up then g_free <$> pathCUSTOM_FILTERS conf
                 else pathCUSTOM_FILTERS conf in
    (* Read from Environmental Variables *)
    let file := conf_file sys in
    let pathF :=
      <[0%nat := of_option (_strdup_getenv sys (NNSTREAMER_ENVVAR_FILTERS h))]>
        pathF in
    let pathD :=
      <[0%nat := of_option (_strdup_getenv sys (NNSTREAMER_ENVVAR_DECODERS h))]>
        pathD in
    let pathC :=
      <[0%nat :=
          of_option (_strdup_getenv sys (NNSTREAMER_ENVVAR_CUSTOMFILTERS h))]>
        pathC in
    (* Read the conf file. It's ok even if we cannot load it. *)
    let '(pathF, pathD, pathC) :=
      match g_key_file_load_from_file sys file with
      | Some key_file =>
          (<[1%nat := of_option (key_file "filter" "filters")]> pathF,
           <[1%nat := of_option (key_file "decoder" "decoders")]> pathD,
           <[1%nat := of_option (key_file "filter" "customfilters")]> pathC)
      | None => (pathF, pathD, pathC)
      end in
    (* Strdup the hardcoded *)
    let pathF := <[2%nat := Str (NNSTREAMER_FILTERS h)]> pathF in
    let pathD := <[2%nat := Str (NNSTREAMER_DECODERS h)]> pathD in
    let pathC := <[2%nat := Str (NNSTREAMER_CUSTOM_FILTERS h)]> pathC in
    (* Fill in conf.files* *)
    '(filesF, basenameF) ← _fill_in_vstr sys pathF NNSCONF_PATH_FILTERS;
    '(filesD, basenameD) ← _fill_in_vstr sys pathD NNSCONF_PATH_DECODERS;
    '(filesC, basenameC) ← _fill_in_vstr sys pathC NNSCONF_PATH_CUSTOM_FILTERS;
    Done (true,
          {| loaded := true; conffile := Str file;
             pathFILTERS := pathF; pathDECODERS := pathD;
             pathCUSTOM_FILTERS := pathC;
             filesFILTERS := Some filesF; filesDECODERS := Some filesD;
             filesCUSTOM_FILTERS := Some filesC;
             basenameFILTERS := Some basenameF;
             basenameDECODERS := Some basenameD;
             basenameCUSTOM_FILTERS := Some basenameC |}).

(** The three directories a load under [sys] searches for a type: the
    one of the environment variable, the one of the conf file, the
    hardcoded one. *)
Definition search_path (sys : System) (type : nnsconf_type_path)
  : list gchar_p :=
  let key_file := g_key_file_load_from_file sys (conf_file sys) in
  match type with
  | NNSCONF_PATH_FILTERS =>
      [of_option (_strdup_getenv sys (NNSTREAMER_ENVVAR_FILTERS h));
       of_option (key_file ≫= fun k => k "filter" "filters");
       Str (NNSTREAMER_FILTERS h)]
  | NNSCONF_PATH_DECODERS =>
      [of_option (_strdup_getenv sys (NNSTREAMER_ENVVAR_DECODERS h));
       of_option (key_file ≫= fun k => k "decoder" "decoders");
       Str (NNSTREAMER_DECODERS h)]
  | NNSCONF_PATH_CUSTOM_FILTERS =>
      [of_option (_strdup_getenv sys (NNSTREAMER_ENVVAR_CUSTOMFILTERS h));
       of_option (key_file ≫= fun k => k "filter" "customfilters");
       Str (NNSTREAMER_CUSTOM_FILTERS h)]
  | NNSCONF_PATH_END => []
  end.

(** The sub-plugin files a load under [sys] lists for a type. *)
Definition listed (sys : System) (type : nnsconf_type_path)
  : list (string * string) :=
  match subplugin_prefixes type with
  | Some prefix => search_entries sys type prefix (search_path sys type)
  | None => []
  end.

(** The configuration a load under [sys] builds. *)
Definition loaded_conf (sys : System) : confdata :=
  {| loaded := true; conffile := Str (conf_file sys);
     pathFILTERS := search_path sys NNSCONF_PATH_FILTERS;
     pathDECODERS := search_path sys NNSCONF_PATH_DECODERS;
     pathCUSTOM_FILTERS := search_path sys NNSCONF_PATH_CUSTOM_FILTERS;
     filesFILTERS := Some (fst <$> listed sys NNSCONF_PATH_FILTERS);
     filesDECODERS := Some (fst <$> listed sys NNSCONF_PATH_DECODERS);
     filesCUSTOM_FILTERS :=
       Some (fst <$> listed sys NNSCONF_PATH_CUSTOM_FILTERS);
     basenameFILTERS := Some (snd <$> listed sys NNSCONF_PATH_FILTERS);
     basenameDECODERS := Some (snd <$> listed sys NNSCONF_PATH_DECODERS);
     basenameCUSTOM_FILTERS :=
       Some (snd <$> listed sys NNSCONF_PATH_CUSTOM_FILTERS) |}.

(** The [while] of [nnsconf_get_fullpath_fromfile] from the index [i]
    on.  [vstrFull\[i\]] is read through a NULL array, or it is a
    string, the terminator, or past the array. *)
Fixpoint find_from (file2find : option string) (vstr : list string)
    (vstrFull : option (list string)) (i : nat) : run (option string) :=
  match vstr with
  | [] => Done None
  | nm :: vstr =>
      if bool_decide (file2find = Some nm) then
        match vstrFull with
        | None => Undefined
        | Some vstrFull =>
            match vstrFull !! i with
            | Some fullpath => Done (Some fullpath)
            | None =>
                if (i =? length vstrFull)%nat then Done None else Undefined
            end
        end
      else find_from file2find vstr vstrFull (S i)
  end.

(** The [switch (type)] of [nnsconf_get_fullpath_fromfile] and of
    [nnsconf_get_subplugin_info]: the base names and the full paths. *)
Definition vstr_of (conf : confdata) (type : nnsconf_type_path)
  : option (option (list string) * option (list string)) :=
  match type with
  | NNSCONF_PATH_FILTERS => Some (basenameFILTERS conf, filesFILTERS conf)
  | NNSCONF_PATH_DECODERS => Some (basenameDECODERS conf, filesDECODERS conf)
  | NNSCONF_PATH_CUSTOM_FILTERS =>
      Some (basenameCUSTOM_FILTERS conf, filesCUSTOM_FILTERS conf)
  | NNSCONF_PATH_END => None
  end.

(** [nnsconf_get_fullpath_fromfile]. *)
Definition nnsconf_get_fullpath_fromfile (conf : confdata)
    (file2find : option string) (type : nnsconf_type_path)
  : run (option string) :=
  match vstr_of conf type with
  | None => Done None
  | Some (vstr, vstrFull) =>
      match vstr with
      | None => Done None
      | Some vstr => find_from file2find vstr vstrFull 0
      end
  end.

(** [nnsconf_get_fullpath].  Beyond the three types
    [subplugin_prefixes\[type\]] is read past the array. *)
Definition nnsconf_get_fullpath (sys : System) (conf : confdata)
    (subpluginname : string) (type : nnsconf_type_path)
  : run (option string * confdata) :=
  '(_, conf) ← nnsconf_loadconf sys false conf;
  match subplugin_prefixes type with
  | None => Undefined
  | Some prefix =>
      let filename := (prefix ++ subpluginname ++ ".so")%string in
      ret ← nnsconf_get_fullpath_fromfile conf (Some filename) type;
      Done (ret, conf)
  end.

(** [nnsconf_get_subplugin_info]: the count returned and what is
    stored in [info->names] and [info->paths]; [info] tells whether the
    pointer is non-NULL.  [g_strv_length] of NULL is 0. *)
Definition nnsconf_get_subplugin_info (sys : System) (conf : confdata)
    (type : nnsconf_type_path) (info : bool)
  : run (nat * option (option (list string) * option (list string))
         * confdata) :=
  if negb info then Done (0%nat, None, conf)
  else
    '(_, conf) ← nnsconf_loadconf sys false conf;
    match vstr_of conf type with
    | None => Done (0%nat, Some (None, None), conf)
    | Some (vstr, vstrFull) =>
        Done (match vstr with
              | Some vstr => length vstr
              | None => 0%nat
              end, Some (vstr, vstrFull), conf)
    end.

End WithHeader.

(** ** Custom values *)






Section CustomValues.

Variable h : nnstreamer_conf_h.



End CustomValues.

End Conf.

(** * The query client's properties and sockets
      (gst/nnstreamer/tensor_query/tensor_query_client.c) *)

Module QueryClient.

(** The property ids of the [enum]; [PROP_OTHER] is every other
    [guint]. *)
Inductive prop_id : Set :=
| PROP_0
| PROP_SINK_HOST
| PROP_SINK_PORT
| PROP_SRC_HOST
| PROP_SRC_PORT
| PROP_SILENT
| PROP_OTHER (n : Z).

Definition TCP_HIGHEST_PORT : Z := 65535.
Definition TCP_DEFAULT_HOST : string := "localhost".
Definition TCP_DEFAULT_SINK_PORT : Z := 3000.
Definition TCP_DEFAULT_SRC_PORT : Z := 3001.
Definition DEFAULT_SILENT : bool := true.

(** A [GValue] of the three types the element installs. *)
Inductive GValue : Set :=
| GString (s : option string)
| GInt (i : Z)
| GBoolean (b : bool).

(** GLib's getters, which answer NULL, 0 and FALSE for a value of
    another type. *)
Definition g_value_get_string (value : GValue) : option string :=
  match value with
  | GString s => s
  | _ => None
  end.

Definition g_value_get_int (value : GValue) : Z :=
  match value with
  | GInt i => i
  | _ => 0
  end.

Definition g_value_get_boolean (value : GValue) : bool :=
  match value with
  | GBoolean b => b
  | _ => false
  end.

(** A [GSocket] object. *)
Definition GSocket : Set := positive.

(** The fields of [GstTensorQueryClient] the functions below use, with
    the two object flags GST_TENSOR_QUERY_CLIENT_SINK_SOCKET_OPEN and
    GST_TENSOR_QUERY_CLIENT_SRC_SOCKET_OPEN. *)
Record GstTensorQueryClient : Set := {
  silent : bool;
  sink_host : option string;
  sink_port : Z;
  src_host : option string;
  src_port : Z;
  sink_socket : option GSocket;
  src_socket : option GSocket;
  SINK_SOCKET_OPEN : bool;
  SRC_SOCKET_OPEN : bool
}.

(** [gst_tensor_query_client_init]. *)
Definition gst_tensor_query_client_init : GstTensorQueryClient :=
  {| silent := DEFAULT_SILENT;
     sink_host := Some TCP_DEFAULT_HOST;
     sink_port := TCP_DEFAULT_SINK_PORT;
     src_host := Some TCP_DEFAULT_HOST;
     src_port := TCP_DEFAULT_SRC_PORT;
     sink_socket := None; src_socket := None;
     SINK_SOCKET_OPEN := false; SRC_SOCKET_OPEN := false |}.

Definition set_silent (b : bool) (self : GstTensorQueryClient) :=
  {| silent := b; sink_host := sink_host self; sink_port := sink_port self;
     src_host := src_host self; src_port := src_port self;
     sink_socket := sink_socket self; src_socket := src_socket self;
     SINK_SOCKET_OPEN := SINK_SOCKET_OPEN self;
     SRC_SOCKET_OPEN := SRC_SOCKET_OPEN self |}.

Definition set_sink_host (s : option string) (self : GstTensorQueryClient) :=
  {| silent := silent self; sink_host := s; sink_port := sink_port self;
     src_host := src_host self; src_port := src_port self;
     sink_socket := sink_socket self; src_socket := src_socket self;
     SINK_SOCKET_OPEN := SINK_SOCKET_OPEN self;
     SRC_SOCKET_OPEN := SRC_SOCKET_OPEN self |}.

Definition set_sink_port (i : Z) (self : GstTensorQueryClient) :=
  {| silent := silent self; sink_host := sink_host self; sink_port := i;
     src_host := src_host self; src_port := src_port self;
     sink_socket := sink_socket self; src_socket := src_socket self;
     SINK_SOCKET_OPEN := SINK_SOCKET_OPEN self;
     SRC_SOCKET_OPEN := SRC_SOCKET_OPEN self |}.

Definition set_src_host (s : option string) (self : GstTensorQueryClient) :=
  {| silent := silent self; sink_host := sink_host self;
     sink_port := sink_port self;
     src_host := s; src_port := src_port self;
     sink_socket := sink_socket self; src_socket := src_socket self;
     SINK_SOCKET_OPEN := SINK_SOCKET_OPEN self;
     SRC_SOCKET_OPEN := SRC_SOCKET_OPEN self |}.

Definition set_src_port (i : Z) (self : GstTensorQueryClient) :=
  {| silent := silent self; sink_host := sink_host self;
     sink_port := sink_port self;
     src_host := src_host self; src_port := i;
     sink_socket := sink_socket self; src_socket := src_socket self;
     SINK_SOCKET_OPEN := SINK_SOCKET_OPEN self;
     SRC_SOCKET_OPEN := SRC_SOCKET_OPEN self |}.

(** [self->sink_socket = socket] with the flag that goes with it. *)
Definition set_sink_socket (s : option GSocket) (open : bool)
    (self : GstTensorQueryClient) :=
  {| silent := silent self; sink_host := sink_host self;
     sink_port := sink_port self;
     src_host := src_host self; src_port := src_port self;
     sink_socket := s; src_socket := src_socket self;
     SINK_SOCKET_OPEN := open;
     SRC_SOCKET_OPEN := SRC_SOCKET_OPEN self |}.

Definition set_src_socket (s : option GSocket) (open : bool)
    (self : GstTensorQueryClient) :=
  {| silent := silent self; sink_host := sink_host self;
     sink_port := sink_port self;
     src_host := src_host self; src_port := src_port self;
     sink_socket := sink_socket self; src_socket := s;
     SINK_SOCKET_OPEN := SINK_SOCKET_OPEN self;
     SRC_SOCKET_OPEN := open |}.

(** [gst_tensor_query_client_set_property]. *)
Definition gst_tensor_query_client_set_property (self : GstTensorQueryClient)
    (id : prop_id) (value : GValue) : GstTensorQueryClient :=
  match id with
  | PROP_SINK_HOST =>
      match g_value_get_string value with
      | None => self (* host property cannot be NULL *)
      | Some s => set_sink_host (Some s) self
      end
  | PROP_SINK_PORT => set_sink_port (g_value_get_int value) self
  | PROP_SRC_HOST =>
      match g_value_get_string value with
      | None => self
      | Some s => set_src_host (Some s) self
      end
  | PROP_SRC_PORT => set_src_port (g_value_get_int value) self
  | PROP_SILENT => set_silent (g_value_get_boolean value) self
  | _ => self
  end.

(** [gst_tensor_query_client_get_property]: what is stored in [value],
    [None] when it is left as it was. *)
Definition gst_tensor_query_client_get_property (self : GstTensorQueryClient)
    (id : prop_id) : option GValue :=
  match id with
  | PROP_SINK_HOST => Some (GString (sink_host self))
  | PROP_SINK_PORT => Some (GInt (sink_port self))
  | PROP_SRC_HOST => Some (GString (src_host self))
  | PROP_SRC_PORT => Some (GInt (src_port self))
  | PROP_SILENT => Some (GBoolean (silent self))
  | _ => None
  end.

(** The network at one call: [gst_tensor_query_socket_new] for a host
    and a [guint16] port, [g_socket_connect] and [g_socket_close]. *)
Record Network : Set := {
  gst_tensor_query_socket_new : option string -> Z -> option GSocket;
  g_socket_connect : GSocket -> bool;
  g_socket_close : GSocket -> bool
}.

(** The element and the references to socket objects in the process. *)
Definition client_state : Type := GstTensorQueryClient * gmultiset GSocket.

(** [gst_tensor_query_client_connect].  The socket address is unref'ed
    on every path. *)
Definition gst_tensor_query_client_connect (net : Network)
    (st : client_state) (is_sink : bool) : bool * client_state :=
  let '(self, refs) := st in
  let host := if is_sink then sink_host self else src_host self in
  let port := (if is_sink then sink_port self else src_port self)
              mod 65536 in
  match gst_tensor_query_socket_new net host port with
  | None => (false, (self, refs))
  | Some socket =>
      let refs := refs ⊎ {[+ socket +]} in
      if negb (g_socket_connect net socket) then (false, (self, refs))
      else if is_sink then (true, (set_sink_socket (Some socket) true self, refs))
      else (true, (set_src_socket (Some socket) true self, refs))
  end.

(** [gst_tensor_query_client_start]. *)
Definition gst_tensor_query_client_start (net : Network) (st : client_state)
  : bool * client_state :=
  (* Connect to tensor_query_src *)
  let '(ok, st) :=
    if negb (SINK_SOCKET_OPEN (fst st)) then
      gst_tensor_query_client_connect net st true
    else (true, st) in
  if negb ok then (false, st)
  else
    (* Connect to tensor_query_sink *)
    let '(ok, st) :=
      if negb (SRC_SOCKET_OPEN (fst st)) then
        gst_tensor_query_client_connect net st false
      else (true, st) in
    if negb ok then (false, st) else (true, st).

(** [gst_tensor_query_client_close_socket] on a socket that is there:
    the references after its [g_object_unref]. *)
Definition gst_tensor_query_client_close_socket (net : Network)
    (refs : gmultiset GSocket) (socket : GSocket) : gmultiset GSocket :=
  refs ∖ {[+ socket +]}.

(** [gst_tensor_query_client_stop]. *)
Definition gst_tensor_query_client_stop (net : Network) (st : client_state)
  : bool * client_state :=
  let '(self, refs) := st in
  let '(self, refs) :=
    match sink_socket self with
    | Some socket =>
        (set_sink_socket None false self,
         gst_tensor_query_client_close_socket net refs socket)
    | None => (self, refs)
    end in
  let '(self, refs) :=
    match src_socket self with
    | Some socket =>
        (set_src_socket None false self,
         gst_tensor_query_client_close_socket net refs socket)
    | None => (self, refs)
    end in
  (true, (self, refs)).

(** A value of the type installed for the property, a host not being
    NULL. *)
Definition settable (id : prop_id) (value : GValue) : bool :=
  match id, value with
  | PROP_SINK_HOST, GString (Some _) => true
  | PROP_SRC_HOST, GString (Some _) => true
  | PROP_SINK_PORT, GInt _ => true
  | PROP_SRC_PORT, GInt _ => true
  | PROP_SILENT, GBoolean _ => true
  | _, _ => false
  end.

(** The two flags say what the two socket fields hold. *)
Definition flags_agree (self : GstTensorQueryClient) : Prop :=
  (SINK_SOCKET_OPEN self = true <-> is_Some (sink_socket self))
  /\ (SRC_SOCKET_OPEN self = true <-> is_Some (src_socket self)).

End QueryClient.

(** A registry in its initial state ([= { 0 }]), types numbered as the
    enumeration does and data named by strings, and a loader that finds
    the library of [nm] under /usr/lib/nnstreamer/, opens it with the
    probes [probes] and reads the descriptor [ns] from it. *)
Definition empty_registry : Subplugin.registry nat string :=
  {| Subplugin.subplugins := fun _ => None;
     Subplugin.held_subplugins := fun _ => None;
     Subplugin.splock := false;
     Subplugin.dl_refs := ∅ |}.

Definition sample_loader (probes : list (nat * string * option string))
    (ns : option (Subplugin.nnstreamer_subplugin_data nat string))
  : Subplugin.Loader nat string :=
  {| Subplugin.nnsconf_get_fullpath := fun nm _ =>
       Some ("/usr/lib/nnstreamer/" ++ nm ++ ".so")%string;
     Subplugin.dlopen := fun _ => Some (1%positive, probes);
     Subplugin.dlsym := fun _ _ => (ns, None) |}.

(** A registry that has loaded the library 3 for the one name it holds
    under type 0. *)
Definition sample_registry : Subplugin.registry nat string :=
  {| Subplugin.subplugins := fun t =>
       if decide (t = 0%nat) then
         Some {[ "tensorflow-lite" :=
                   {| Subplugin.name := "tensorflow-lite";
                      Subplugin.data := Some "tflite";
                      Subplugin.handle := Some 3%positive |} ]}
       else None;
     Subplugin.held_subplugins := fun _ => None;
     Subplugin.splock := false;
     Subplugin.dl_refs := {[+ 3%positive +]} |}.

(** The descriptor a well-formed library of the name [nm] and the type
    [type] exports, for the checker 0xdeadbeef. *)
Definition sample_descriptor (type : nat) (nm : string)
  : Subplugin.nnstreamer_subplugin_data nat string :=
  {| Subplugin.ns_checker := 0xdeadbeef; Subplugin.ns_type := type;
     Subplugin.ns_name := Some nm; Subplugin.ns_data := Some "data" |}.

(** The macros as a build for /usr sets them, and a process whose
    environment is [env] and whose file system has two directories of
    filter sub-plugins and, when [online], the conf file
    /etc/nnstreamer.ini. *)
Definition sample_header : Conf.nnstreamer_conf_h :=
  {| Conf.NNSTREAMER_ENVVAR_CONF_FILE := "NNSTREAMER_CONF";
     Conf.NNSTREAMER_DEFAULT_CONF_FILE := "/etc/nnstreamer.ini";
     Conf.NNSTREAMER_ENVVAR_FILTERS := "NNSTREAMER_FILTERS";
     Conf.NNSTREAMER_ENVVAR_DECODERS := "NNSTREAMER_DECODERS";
     Conf.NNSTREAMER_ENVVAR_CUSTOMFILTERS := "NNSTREAMER_CUSTOMFILTERS";
     Conf.NNSTREAMER_FILTERS := "/usr/lib/nnstreamer/filters";
     Conf.NNSTREAMER_DECODERS := "/usr/lib/nnstreamer/decoders";
     Conf.NNSTREAMER_CUSTOM_FILTERS := "/usr/lib/nnstreamer/customfilters";
     Conf.NNSTREAMER_PREFIX_FILTER := "libnnstreamer_filter_";
     Conf.NNSTREAMER_PREFIX_DECODER := "libnnstreamer_decoder_";
     Conf.NNSTREAMER_PREFIX_CUSTOMFILTERS := "libnnstreamer_customfilter_" |}.

Definition sample_key_file : Conf.GKeyFile :=
  fun group key =>
    if String.eqb group "filter" && String.eqb key "filters" then
      Some "/opt/nnstreamer/filters"
    else if String.eqb group "common" && String.eqb key "enable_envvar" then
      Some "Yes"
    else None.

Definition sample_system (env : list (string * string)) (online : bool)
  : Conf.System :=
  {| Conf.g_getenv := fun nm =>
       snd <$> find (fun e => String.eqb nm (fst e)) env;
     Conf.g_stat := fun _ => false;
     Conf.g_key_file_load_from_file := fun file =>
       if online && String.eqb file "/etc/nnstreamer.ini"
       then Some sample_key_file else None;
     Conf.g_dir_open := fun dir =>
       if String.eqb dir "/opt/nnstreamer/filters" then
         Some ["libnnstreamer_filter_tensorflow-lite.so"; "README"]
       else if String.eqb dir "/usr/lib/nnstreamer/filters" then
         Some ["libnnstreamer_filter_tensorflow-lite.so";
               "libnnstreamer_filter_caffe2.so"]
       else None;
     Conf.g_file_test_is_dir := fun _ => false;
     Conf.g_file_test_is_symlink := fun _ => false;
     Conf.g_build_filename := fun dir nm => (dir ++ "/" ++ nm)%string;
     Conf.g_path_get_basename := fun nm => nm |}.

(** A network in which every host answers with the socket 1 for the port
    3000 and the socket 2 otherwise, and connections succeed when
    [up]. *)
Definition sample_network (up : bool) : QueryClient.Network :=
  {| QueryClient.gst_tensor_query_socket_new := fun _ port =>
       Some (if port =? 3000 then 1%positive else 2%positive);
     QueryClient.g_socket_connect := fun _ => up;
     QueryClient.g_socket_close := fun _ => true |}.

(** * Properties *)

(** ** Framework resolution *)

Section ResolverFacts.

Import Resolver.

Lemma g_ascii_tolower_idem (c : ascii) :
  g_ascii_tolower (g_ascii_tolower c) = g_ascii_tolower c.
Proof.
  destruct c as [[] [] [] [] [] [] [] []]; reflexivity.
Qed.

Lemma g_ascii_strdown_idem (str : string) :
  g_ascii_strdown (g_ascii_strdown str) = g_ascii_strdown str.
Proof.
  induction str as [|c rest IH]; simpl; [reflexivity|].
  rewrite g_ascii_tolower_idem, IH. reflexivity.
Qed.

Lemma substring_whole (str : string) :
  substring 0 (String.length str) str = str.
Proof.
  induction str as [|c rest IH]; simpl; [reflexivity|].
  rewrite IH. reflexivity.
Qed.

Lemma substring_after_prefix (pre suf : string) :
  substring (String.length pre) (String.length suf) (pre ++ suf)%string = suf.
Proof.
  induction pre as [|c pre IH]; simpl.
  - apply substring_whole.
  - exact IH.
Qed.

Lemma length_append (a b : string) :
  String.length (a ++ b)%string = (String.length a + String.length b)%nat.
Proof.
  induction a as [|c a IH]; simpl; [reflexivity|]. rewrite IH. reflexivity.
Qed.

Lemma substring_split (n : nat) (str : string) :
  (n <= String.length str)%nat ->
  str = (substring 0 n str ++ substring n (String.length str - n) str)%string.
Proof.
  revert str. induction n as [|n IH]; intros str Hn.
  - simpl. rewrite Nat.sub_0_r, substring_whole.
    destruct str; reflexivity.
  - destruct str as [|c str]; simpl in *; [lia|].
    change (String c str
            = String c (substring 0 n str
                        ++ substring n (String.length str - n) str)%string).
    f_equal. apply IH. lia.
Qed.

(** [g_str_has_suffix] holds exactly of the strings that end with the
    suffix. *)
Lemma g_str_has_suffix_spec (str suffix : string) :
  g_str_has_suffix str suffix = true <->
  exists pre, str = (pre ++ suffix)%string.
Proof.
  unfold g_str_has_suffix. split.
  - destruct (Nat.ltb_spec (String.length str) (String.length suffix)) as [|Hle];
      [discriminate|].
    intros Heq%String.eqb_eq.
    exists (substring 0 (String.length str - String.length suffix) str).
    rewrite (substring_split (String.length str - String.length suffix) str) at 1
      by lia.
    f_equal. rewrite <- Heq at 3. f_equal. lia.
  - intros [pre ->]. rewrite length_append.
    destruct (Nat.ltb_spec (String.length pre + String.length suffix)
                (String.length suffix)); [lia|].
    apply String.eqb_eq.
    replace (String.length pre + String.length suffix - String.length suffix)%nat
      with (String.length pre) by lia.
    apply substring_after_prefix.
Qed.

Lemma append_empty_r (a b : string) :
  (a ++ b)%string = EmptyString -> b = EmptyString.
Proof.
  destruct a as [|c a]; cbv [append]; [tauto | discriminate].
Qed.

Lemma last_char_append (pre suf : string) :
  suf <> EmptyString -> last_char (pre ++ suf)%string = last_char suf.
Proof.
  intros Hne. induction pre as [|c pre IH]; [reflexivity|].
  change (last_char (String c (pre ++ suf)%string) = last_char suf).
  rewrite <- IH. cbn [last_char].
  destruct (pre ++ suf)%string eqn:Happ; [|reflexivity].
  apply append_empty_r in Happ. contradiction.
Qed.

Lemma suffixes_exclusive (str a b : string) :
  a <> EmptyString -> b <> EmptyString -> last_char a <> last_char b ->
  g_str_has_suffix str a = true -> g_str_has_suffix str b = false.
Proof.
  intros Ha Hb Hne [pa Hpa]%g_str_has_suffix_spec.
  destruct (g_str_has_suffix str b) eqn:Hsb; [|reflexivity].
  apply g_str_has_suffix_spec in Hsb as [pb Hpb].
  exfalso. apply Hne.
  rewrite <- (last_char_append pa a Ha), <- (last_char_append pb b Hb).
  congruence.
Qed.

(** The switch of step 1, case by case on the lowered path. *)
Lemma determine_nnfw_cases (model : string) :
  let path_down := g_ascii_strdown model in
  (g_str_has_suffix path_down ".tflite" = true ->
   determine_nnfw ML_NNFW_TYPE_ANY model
   = (ML_ERROR_NONE, ML_NNFW_TYPE_TENSORFLOW_LITE))
  /\ (g_str_has_suffix path_down ".pb" = true ->
      determine_nnfw ML_NNFW_TYPE_ANY model
      = (ML_ERROR_NONE, ML_NNFW_TYPE_TENSORFLOW))
  /\ (g_str_has_suffix path_down NNSTREAMER_SO_FILE_EXTENSION = true ->
      determine_nnfw ML_NNFW_TYPE_ANY model
      = (ML_ERROR_NONE, ML_NNFW_TYPE_CUSTOM_FILTER))
  /\ (g_str_has_suffix path_down ".tflite" = false ->
      g_str_has_suffix path_down ".pb" = false ->
      g_str_has_suffix path_down NNSTREAMER_SO_FILE_EXTENSION = false ->
      determine_nnfw ML_NNFW_TYPE_ANY model
      = (ML_ERROR_INVALID_PARAMETER, ML_NNFW_TYPE_ANY))
  /\ (forall hint ext,
        expected_extension hint = Some ext ->
        determine_nnfw hint model
        = if g_str_has_suffix path_down ext
          then (ML_ERROR_NONE, hint)
          else (ML_ERROR_INVALID_PARAMETER, hint)).
Proof.
  intros path_down. unfold determine_nnfw. fold path_down.
  repeat split.
  - intros Ht. simpl. rewrite Ht. reflexivity.
  - intros Hp. simpl.
    rewrite (suffixes_exclusive path_down ".pb" ".tflite") by (done || exact Hp).
    rewrite Hp. reflexivity.
  - intros Hs. simpl. unfold NNSTREAMER_SO_FILE_EXTENSION in *.
    rewrite (suffixes_exclusive path_down ".so" ".tflite") by (done || exact Hs).
    rewrite (suffixes_exclusive path_down ".so" ".pb") by (done || exact Hs).
    rewrite Hs. reflexivity.
  - intros Ht Hp Hs. simpl. rewrite Ht, Hp, Hs. reflexivity.
  - intros hint ext Hext.
    destruct hint; simpl in Hext; try discriminate;
      injection Hext as <-; simpl;
      destruct (g_str_has_suffix path_down _); reflexivity.
Qed.

Lemma g_ascii_strdown_append (a b : string) :
  g_ascii_strdown (a ++ b)%string
  = (g_ascii_strdown a ++ g_ascii_strdown b)%string.
Proof.
  induction a as [|c a IH]; [reflexivity|].
  change (String (g_ascii_tolower c) (g_ascii_strdown (a ++ b)%string)
          = String (g_ascii_tolower c)
              (g_ascii_strdown a ++ g_ascii_strdown b)%string).
  rewrite IH. reflexivity.
Qed.

(** A path whose last characters lower to [ext] has the suffix [ext]
    once lowered. *)
Lemma lowered_suffix (stem tail ext : string) :
  g_ascii_strdown tail = ext ->
  g_str_has_suffix (g_ascii_strdown (stem ++ tail)%string) ext = true.
Proof.
  intros <-. apply g_str_has_suffix_spec.
  exists (g_ascii_strdown stem). apply g_ascii_strdown_append.
Qed.

(** C10 -- The extension matching of open's framework resolution is
    case-insensitive.  Under every hint a path resolves as its lowercase
    form does, and so do two paths that agree after ASCII lowering; in
    particular a path that ends in any spelling of ".tflite" (".TFLITE",
    ".Tflite", ...) or of ".pb" is inferred as tensorflow-lite or
    tensorflow with no hint, and passes the extension check of that
    hint. *)
Theorem determine_nnfw_case_insensitive
    (nnfw : ml_nnfw_type_e) (model : string) :
  determine_nnfw nnfw model = determine_nnfw nnfw (g_ascii_strdown model)
  /\ (forall model',
        g_ascii_strdown model' = g_ascii_strdown model ->
        determine_nnfw nnfw model' = determine_nnfw nnfw model)
  /\ (forall stem tail,
        model = (stem ++ tail)%string ->
        g_ascii_strdown tail = ".tflite" ->
        determine_nnfw ML_NNFW_TYPE_ANY model
        = (ML_ERROR_NONE, ML_NNFW_TYPE_TENSORFLOW_LITE)
        /\ determine_nnfw ML_NNFW_TYPE_TENSORFLOW_LITE model
           = (ML_ERROR_NONE, ML_NNFW_TYPE_TENSORFLOW_LITE))
  /\ (forall stem tail,
        model = (stem ++ tail)%string ->
        g_ascii_strdown tail = ".pb" ->
        determine_nnfw ML_NNFW_TYPE_ANY model
        = (ML_ERROR_NONE, ML_NNFW_TYPE_TENSORFLOW)
        /\ determine_nnfw ML_NNFW_TYPE_TENSORFLOW model
           = (ML_ERROR_NONE, ML_NNFW_TYPE_TENSORFLOW)).
Proof.
  destruct (determine_nnfw_cases model) as (Htflite & Hpb & _ & _ & Hhint).
  split; [|split; [|split]].
  - unfold determine_nnfw. rewrite g_ascii_strdown_idem. reflexivity.
  - intros model' Heq. unfold determine_nnfw. rewrite Heq. reflexivity.
  - intros stem tail -> Htail.
    pose proof (lowered_suffix stem tail ".tflite" Htail) as Hs.
    split; [exact (Htflite Hs)|].
    rewrite (Hhint ML_NNFW_TYPE_TENSORFLOW_LITE ".tflite" eq_refl).
    simpl. rewrite Hs. reflexivity.
  - intros stem tail -> Htail.
    pose proof (lowered_suffix stem tail ".pb" Htail) as Hs.
    split; [exact (Hpb Hs)|].
    rewrite (Hhint ML_NNFW_TYPE_TENSORFLOW ".pb" eq_refl).
    simpl. rewrite Hs. reflexivity.
Qed.

Lemma determine_nnfw_case_insensitive_witness :
  determine_nnfw ML_NNFW_TYPE_ANY "Model.TfLite"
  = determine_nnfw ML_NNFW_TYPE_ANY "model.tflite"
  /\ (determine_nnfw ML_NNFW_TYPE_ANY "/opt/Model.TFLITE"
      = (ML_ERROR_NONE, ML_NNFW_TYPE_TENSORFLOW_LITE)
      /\ determine_nnfw ML_NNFW_TYPE_TENSORFLOW_LITE "/opt/Model.TFLITE"
         = (ML_ERROR_NONE, ML_NNFW_TYPE_TENSORFLOW_LITE))
  /\ (determine_nnfw ML_NNFW_TYPE_ANY "GRAPH.PB"
      = (ML_ERROR_NONE, ML_NNFW_TYPE_TENSORFLOW)
      /\ determine_nnfw ML_NNFW_TYPE_TENSORFLOW "GRAPH.PB"
         = (ML_ERROR_NONE, ML_NNFW_TYPE_TENSORFLOW)).
Proof.
  split; [|split].
  - apply (determine_nnfw_case_insensitive ML_NNFW_TYPE_ANY "model.tflite").
    reflexivity.
  - apply (determine_nnfw_case_insensitive ML_NNFW_TYPE_ANY "/opt/Model.TFLITE")
      with (stem := "/opt/Model") (tail := ".TFLITE"); reflexivity.
  - apply (determine_nnfw_case_insensitive ML_NNFW_TYPE_ANY "GRAPH.PB")
      with (stem := "GRAPH") (tail := ".PB"); reflexivity.
Defined.

End ResolverFacts.

(** ** Input validation of invoke *)

Section InvokeFacts.

Context {E : Type} `{GstApp E}.

Lemma validate_blocks_spec (single_h : ml_single) (in_data : ml_tensors_data_s)
    (remaining i : nat) :
  validate_blocks single_h in_data remaining i = true <->
  forall j : nat, (i <= j < i + remaining)%nat ->
    is_Some (tensor (data_at j in_data))
    /\ size (data_at j in_data)
       = ml_tensor_info_get_size (info_at j (in_info single_h)).
Proof.
  revert i. induction remaining as [|r IH]; intros i; simpl.
  - split; [intros _ j Hj; lia | reflexivity].
  - destruct (bool_decide_reflect (is_Some (tensor (data_at i in_data))))
      as [Hsome|Hnone]; simpl.
    + destruct (Z.eqb_spec (size (data_at i in_data))
                  (ml_tensor_info_get_size (info_at i (in_info single_h))))
        as [Hsz|Hsz]; simpl.
      * rewrite IH. split.
        -- intros Hall j Hj. destruct (decide (j = i)) as [->|Hne];
             [split; assumption | apply Hall; lia].
        -- intros Hall j Hj. apply Hall. lia.
      * split; [discriminate|]. intros Hall.
        destruct (Hall i ltac:(lia)) as [_ Hsz']. contradiction.
    + split; [discriminate|]. intros Hall.
      destruct (Hall i ltac:(lia)) as [Hsome _]. contradiction.
Qed.

(** The validation of invoke accepts exactly the compatible frames. *)
Lemma validate_input_spec (single_h : ml_single) (in_data : ml_tensors_data_s) :
  validate_input single_h in_data = true <->
  data_compatible (in_info single_h) in_data.
Proof.
  unfold validate_input, data_compatible.
  destruct (Z.eqb_spec (data_num_tensors in_data)
              (num_tensors (in_info single_h))) as [Hn|Hn]; simpl.
  - rewrite validate_blocks_spec. split.
    + intros Hall. split; [exact Hn|]. intros i Hi. apply Hall. lia.
    + intros [_ Hall] j Hj. apply Hall. lia.
  - split; [discriminate | intros [Hn' _]; contradiction].
Qed.

(** C4 -- On a live handle, an input frame whose count differs from the
    negotiated input descriptor's, or with a NULL block, or with a block
    whose byte length is not the entry's computed size, makes invoke
    return invalid-parameter with the output left NULL, the handle as
    it was and nothing handed to the graph. *)
Theorem invoke_rejects_incompatible_input
    (single_h : ml_single) (in_data : ml_tensors_data_s)
    (output0 : option ml_tensors_data_s) (e : E) :
  magic single_h = ML_SINGLE_MAGIC ->
  ~ data_compatible (in_info single_h) in_data ->
  ml_single_invoke (Some single_h) (Some in_data) (Some output0) e
  = Returns (ML_ERROR_INVALID_PARAMETER, None, Some single_h, e).
Proof.
  intros Hmagic Hbad. unfold ml_single_invoke.
  rewrite Hmagic, Z.eqb_refl. simpl.
  destruct (validate_input single_h in_data) eqn:Hv; [|reflexivity].
  apply validate_input_spec in Hv. contradiction.
Qed.

(** *** The result copy *)

Lemma memcpy_length (dst data bytes : list Byte.byte) (n : Z) :
  memcpy dst data n = Some bytes -> length bytes = length dst.
Proof.
  unfold memcpy. intros Hc. case_match; [|discriminate].
  injection Hc as <-.
  rewrite length_app, length_take, length_drop. lia.
Qed.

Lemma memcpy_in_bounds (dst data : list Byte.byte) (n : Z) :
  0 <= n <= Z.of_nat (length dst) -> n <= Z.of_nat (length data) ->
  is_Some (memcpy dst data n).
Proof.
  intros Hn Hd. unfold memcpy.
  destruct (Z.leb_spec 0 n); [|lia].
  destruct (Z.leb_spec n (Z.of_nat (length dst))); [|lia].
  destruct (Z.leb_spec n (Z.of_nat (length data))); [|lia].
  simpl. eauto.
Qed.

Lemma copy_result_shape (buffer : GstBuffer) (remaining : nat) :
  forall (i : nat) (blocks : list ml_tensor_data_s),
    (forall j, (i <= j < i + remaining)%nat ->
       exists mem blk dst,
         buffer !! j = Some mem /\ blocks !! j = Some blk
         /\ tensor blk = Some dst
         /\ 0 <= mem_size mem <= Z.of_nat (length dst)
         /\ mem_size mem <= Z.of_nat (length (mem_data mem))) ->
    exists blocks',
      copy_result buffer remaining i blocks = Some blocks'
      /\ length blocks' = length blocks
      /\ forall j blk, blocks !! j = Some blk ->
           exists blk', blocks' !! j = Some blk' /\ same_block_shape blk blk'.
Proof.
  induction remaining as [|r IH]; intros i blocks Hfit; simpl.
  - exists blocks. repeat split; [].
    intros j blk Hj. exists blk. repeat split; assumption.
  - destruct (Hfit i ltac:(lia)) as (mem & blk & dst & Hmem & Hblk & Hdst & Hn & Hd).
    rewrite Hmem, Hblk. simpl. rewrite Hdst. simpl.
    destruct (memcpy_in_bounds dst (mem_data mem) (mem_size mem) Hn Hd)
      as [bytes Hbytes].
    rewrite Hbytes. simpl.
    pose proof (memcpy_length _ _ _ _ Hbytes) as Hlen.
    destruct (IH (S i) (<[i := {| tensor := Some bytes; size := size blk |}]> blocks))
      as (blocks' & Hcopy & Hlen' & Hshape).
    { intros j Hj. destruct (Hfit j ltac:(lia)) as (m & b & d0 & ? & ? & ?).
      exists m, b, d0. rewrite list_lookup_insert_ne by lia. auto. }
    exists blocks'. split; [exact Hcopy|]. split.
    { rewrite Hlen', length_insert. reflexivity. }
    intros j b Hj. destruct (decide (j = i)) as [->|Hne].
    + assert (b = blk) as -> by congruence.
      destruct (Hshape i {| tensor := Some bytes; size := size blk |})
        as (blk' & Hblk' & Hsz & Hal).
      { apply list_lookup_insert_eq. eapply lookup_lt_Some; eauto. }
      exists blk'. split; [exact Hblk'|]. split; [exact Hsz|].
      rewrite Hal, Hdst. simpl. congruence.
    + apply Hshape. rewrite list_lookup_insert_ne by congruence. exact Hj.
Qed.

Lemma data_create_lookup (ti : ml_tensors_info_s) (result : ml_tensors_data_s)
    (i : nat) :
  snd (ml_tensors_data_create ti) = Some result ->
  (i < Z.to_nat (num_tensors ti))%nat ->
  tensors result !! i
  = Some {| tensor := Some (repeat Byte.x00
                              (Z.to_nat (ml_tensor_info_get_size (info_at i ti))));
            size := ml_tensor_info_get_size (info_at i ti) |}.
Proof.
  simpl. intros [= <-] Hi. simpl.
  rewrite list_lookup_fmap, lookup_seq_lt by exact Hi. reflexivity.
Qed.

(** What invoke makes of a sample that fits the output descriptor. *)
Lemma copy_into_created (ti : ml_tensors_info_s) (sample : GstSample) :
  sample_fits ti sample ->
  exists result blocks,
    ml_tensors_data_create ti = (ML_ERROR_NONE, Some result)
    /\ copy_result sample (Z.to_nat (data_num_tensors result)) 0
         (tensors result) = Some blocks
    /\ data_shaped ti {| data_num_tensors := data_num_tensors result;
                         tensors := blocks |}.
Proof.
  intros Hfit.
  destruct (ml_tensors_data_create ti) as [status [result|]] eqn:Hcreate;
    [|discriminate].
  assert (status = ML_ERROR_NONE) as -> by (injection Hcreate; congruence).
  assert (Hnum : data_num_tensors result = num_tensors ti)
    by (injection Hcreate as <-; reflexivity).
  assert (Hlk : forall i, (i < Z.to_nat (num_tensors ti))%nat ->
            tensors result !! i
            = Some {| tensor := Some (repeat Byte.x00
                        (Z.to_nat (ml_tensor_info_get_size (info_at i ti))));
                      size := ml_tensor_info_get_size (info_at i ti) |}).
  { intros i Hi. apply data_create_lookup; [|exact Hi].
    rewrite Hcreate. reflexivity. }
  destruct (copy_result_shape sample (Z.to_nat (data_num_tensors result)) 0%nat
              (tensors result)) as (blocks & Hcopy & _ & Hshape).
  { intros j Hj. rewrite Hnum in Hj.
    destruct (Hfit j ltac:(lia)) as (mem & Hmem & Hsz & Hdata).
    eexists mem, _, _. split; [exact Hmem|]. split; [apply Hlk; lia|].
    split; [reflexivity|]. rewrite repeat_length. split; [lia|exact Hdata]. }
  exists result, blocks. split; [reflexivity|]. split; [exact Hcopy|].
  split; [exact Hnum|]. intros i Hi.
  destruct (Hshape i _ (Hlk i Hi)) as (blk' & Hblk' & Hsz & Hal).
  unfold data_at. simpl. rewrite nth_lookup, Hblk'. simpl in *.
  destruct (tensor blk') as [bytes|]; [|discriminate].
  exists bytes. split; [reflexivity|]. split; [exact Hsz|].
  injection Hal as ->. apply repeat_length.
Qed.

(** C3 -- On a live handle, with an input frame compatible with the
    negotiated input descriptor, invoke returns, and either with
    success and a newly created frame that has the count and the
    per-block byte sizes computed from the negotiated output
    descriptor, or with one of invalid-parameter, pipe error, timed-out
    and unknown and the output left NULL.  The engine's side of the
    contract is stated: the clean-up pull comes back, and the sample
    the sink hands over fits the caps set on it. *)
Theorem invoke_result_or_error
    (single_h : ml_single) (in_data : ml_tensors_data_s)
    (output0 : option ml_tensors_data_s) (e : E) :
  magic single_h = ML_SINGLE_MAGIC ->
  data_compatible (in_info single_h) in_data ->
  (clear_previous_buffer single_h = true ->
   is_Some (gst_app_sink_pull_sample e (sink single_h))) ->
  (forall sample, awaited_sample single_h in_data e = Some sample ->
                  sample_fits (out_info single_h) sample) ->
  exists status output single_h' e',
    ml_single_invoke (Some single_h) (Some in_data) (Some output0) e
    = Returns (status, output, Some single_h', e')
    /\ ((status = ML_ERROR_NONE
         /\ exists result, output = Some result
                           /\ data_shaped (out_info single_h) result)
        \/ (invoke_error status /\ output = None)).
Proof.
  intros Hmagic Hcompat Hdrain Hfit.
  apply validate_input_spec in Hcompat.
  unfold ml_single_invoke, awaited_sample in *.
  rewrite Hmagic, Z.eqb_refl, Hcompat. simpl.
  assert (Hclear : exists s1 e1,
             clear_old_buffer single_h e = Returns (s1, e1)
             /\ out_info s1 = out_info single_h).
  { unfold clear_old_buffer.
    destruct (clear_previous_buffer single_h) eqn:Hflag; [|eauto].
    destruct (Hdrain eq_refl) as [[sample e1] ->]. eauto. }
  destruct Hclear as (s1 & e1 & Hclear & Hout).
  rewrite Hclear in *. simpl.
  destruct (gst_app_src_push_buffer e1 (src s1) (input_buffer in_data))
    as [ret e2].
  destruct (bool_decide_reflect (ret = GST_FLOW_OK)) as [Hok|Hnok]; simpl.
  - destruct (gst_app_sink_try_pull_sample e2 (sink s1)
                (GST_MSECOND * timeout s1)) as [[sample|] e3]; simpl in *.
    + destruct (copy_into_created (out_info s1) sample) as
        (result & blocks & Hcreate & Hcopy & Hshaped).
      { rewrite Hout. apply Hfit. reflexivity. }
      unfold ml_tensors_data_create in Hcreate. injection Hcreate as <-.
      simpl in Hcopy, Hshaped. rewrite Hcopy.
      eexists _, _, _, _. split; [reflexivity|]. left.
      split; [reflexivity|]. eexists. split; [reflexivity|].
      rewrite <- Hout. exact Hshaped.
    + eexists _, _, _, _. split; [reflexivity|]. right.
      split; [|reflexivity]. unfold invoke_error. auto.
  - eexists _, _, _, _. split; [reflexivity|]. right.
    split; [|reflexivity]. unfold invoke_error. auto.
Qed.

End InvokeFacts.

Lemma invoke_rejects_incompatible_input_witness :
  ml_single_invoke (Some sample_single)
    (Some (one_block Byte.x01 (28 * 28 * 1 - 1))) (Some None)
    (idle_engine (echo_filter 5))
  = Returns (ML_ERROR_INVALID_PARAMETER, None, Some sample_single,
             idle_engine (echo_filter 5)).
Proof.
  apply (invoke_rejects_incompatible_input sample_single
           (one_block Byte.x01 (28 * 28 * 1 - 1)) None
           (idle_engine (echo_filter 5))).
  - reflexivity.
  - intros [_ Hblocks]. destruct (Hblocks 0%nat) as [_ Hsz].
    + simpl. lia.
    + vm_compute in Hsz. discriminate.
Defined.

Lemma invoke_result_or_error_witness :
  exists status output single_h' e',
    ml_single_invoke (Some (fst session_timed_out)) (Some fast_input)
      (Some None) (snd session_timed_out)
    = Returns (status, output, Some single_h', e')
    /\ ((status = ML_ERROR_NONE
         /\ exists result, output = Some result
                           /\ data_shaped (out_info (fst session_timed_out))
                                result)
        \/ (invoke_error status /\ output = None)).
Proof.
  apply (invoke_result_or_error (fst session_timed_out) fast_input None
           (snd session_timed_out)).
  - reflexivity.
  - split; [reflexivity|]. intros i Hi.
    assert (i = 0%nat) as -> by (simpl in Hi; lia).
    split; [eexists; reflexivity | reflexivity].
  - intros _. eexists. reflexivity.
  - intros sample Hs. vm_compute in Hs. injection Hs as <-.
    intros i Hi. assert (i = 0%nat) as -> by (simpl in Hi; lia).
    eexists. split; [reflexivity|]. vm_compute. intuition discriminate.
Defined.

(** ** The streaming engine *)

Section EngineFacts.

Implicit Types (e : Engine) (q : list (Z * GstSample)).

Lemma arrive_pending t q (slot : option GstSample) :
  let n0 := (length q + match slot with Some _ => 1 | None => 0 end)%nat in
  let '(q', slot') := arrive t q slot in
  let n1 := (length q' + match slot' with Some _ => 1 | None => 0 end)%nat in
  (n1 <= n0)%nat.
Proof.
  revert t slot. induction q as [|[d f] rest IH]; intros t slot; simpl.
  - lia.
  - destruct (d <=? t).
    + specialize (IH (t - d) (Some f)).
      destruct (arrive (t - d) rest (Some f)) as [q' slot']. simpl in *.
      destruct slot; lia.
    + simpl. lia.
Qed.

Lemma elapse_pending t e : (pending (elapse t e) <= pending e)%nat.
Proof.
  unfold elapse, pending.
  pose proof (arrive_pending t (inflight e) (sinkq e)) as Harr.
  destruct (arrive t (inflight e) (sinkq e)) as [q' slot']. exact Harr.
Qed.

Lemma elapse_filter_fn t e : filter_fn (elapse t e) = filter_fn e.
Proof.
  unfold elapse. destruct (arrive t (inflight e) (sinkq e)). reflexivity.
Qed.

(** With at most one sample owed, the clean-up pull takes it and
    leaves nothing behind. *)
Lemma engine_pull_drains e (el : GstElement) r e1 :
  (pending e <= 1)%nat ->
  engine_pull_sample e (Some el) = Some (r, e1) ->
  pending e1 = 0%nat /\ filter_fn e1 = filter_fn e /\ running e1 = running e
  /\ is_Some r.
Proof.
  unfold engine_pull_sample, pending. intros Hle Hpull.
  destruct (sinkq e) as [smp|] eqn:Hs.
  - injection Hpull as <- <-. simpl.
    destruct (inflight e); simpl in *; [eauto | lia].
  - destruct (inflight e) as [|[d f] rest] eqn:Hq; [discriminate|].
    injection Hpull as <- <-. simpl in *.
    destruct rest; simpl in *; [eauto | lia].
Qed.

(** The clean-up pull comes back exactly when a sample is owed. *)
Lemma engine_pull_blocks e (el : GstElement) :
  engine_pull_sample e (Some el) = None <-> pending e = 0%nat.
Proof.
  unfold engine_pull_sample, pending.
  destruct (sinkq e); [split; [discriminate | lia]|].
  destruct (inflight e) as [|[d f] rest]; simpl;
    [tauto | split; [discriminate | lia]].
Qed.

Lemma engine_push_idle e appsrc buffer ret e1 :
  pending e = 0%nat ->
  engine_push_buffer e appsrc buffer = (ret, e1) ->
  filter_fn e1 = filter_fn e /\ sinkq e1 = None /\ clock e1 = clock e
  /\ ((ret <> GST_FLOW_OK /\ inflight e1 = [])
      \/ (ret = GST_FLOW_OK
          /\ inflight e1 = match filter_fn e buffer with
                           | Some out => [out]
                           | None => []
                           end)).
Proof.
  unfold engine_push_buffer, pending. intros Hidle Hpush.
  assert (Hq : inflight e = []) by (destruct (inflight e); simpl in *; [done|lia]).
  assert (Hs : sinkq e = None) by (destruct (sinkq e); [lia|done]).
  destruct appsrc; [|injection Hpush as <- <-; eauto 10].
  destruct (running e); simpl in Hpush; [|injection Hpush as <- <-; eauto 10].
  destruct (filter_fn e buffer) as [out|] eqn:Hf;
    injection Hpush as <- <-; simpl; rewrite ?Hq, ?Hs;
    repeat split; try lia; right; split; reflexivity.
Qed.

(** The wait of a call whose own sample is the only one owed. *)
Lemma engine_try_pull_own e (el : GstElement) t r e1 :
  sinkq e = None -> (length (inflight e) <= 1)%nat ->
  engine_try_pull_sample e (Some el) t = (r, e1) ->
  filter_fn e1 = filter_fn e
  /\ clock e1 - clock e <= t
  /\ match r with
     | Some smp =>
         pending e1 = 0%nat /\ exists d, inflight e = [(d, smp)]
     | None => (pending e1 <= 1)%nat /\ clock e1 - clock e = t
     end.
Proof.
  unfold engine_try_pull_sample, pending. intros Hs Hlen Hpull.
  rewrite Hs in Hpull.
  destruct (inflight e) as [|[d f] rest] eqn:Hq.
  - injection Hpull as <- <-. simpl. repeat split; lia.
  - destruct rest; [|simpl in Hlen; lia].
    destruct (Z.leb_spec d t); injection Hpull as <- <-; simpl;
      repeat split; try lia; eauto.
Qed.

End EngineFacts.

(** ** Sessions: the flag and the sample owed *)

Section SessionFacts.

Lemma clear_old_buffer_session (single_h : ml_single) (e : Engine) s1 e1 :
  session_inv (single_h, e) ->
  clear_old_buffer single_h e = Returns (s1, e1) ->
  s1 = set_clear_previous_buffer false single_h
  /\ pending e1 = 0%nat /\ filter_fn e1 = filter_fn e.
Proof.
  intros (Hmagic & [el Hsink] & Hle & Hzero) Hclear. simpl in *.
  unfold clear_old_buffer in Hclear.
  destruct (clear_previous_buffer single_h) eqn:Hflag.
  - rewrite Hsink in Hclear.
    change (gst_app_sink_pull_sample e (Some el))
      with (engine_pull_sample e (Some el)) in Hclear.
    destruct (engine_pull_sample e (Some el)) as [[r e1']|] eqn:Hpull;
      [|discriminate].
    injection Hclear as <- <-.
    destruct (engine_pull_drains _ _ _ _ Hle Hpull) as (? & ? & _).
    auto.
  - injection Hclear as <- <-. split; [|auto].
    destruct single_h; simpl in *; subst; reflexivity.
Qed.

Lemma invoke_session (single_h : ml_single) (e : Engine)
    in_data output0 status output single_h' e' :
  session_inv (single_h, e) ->
  ml_single_invoke (Some single_h) in_data output0 e
  = Returns (status, output, Some single_h', e') ->
  session_inv (single_h', e')
  /\ timeout single_h' = timeout single_h
  /\ (status = ML_ERROR_TIMED_OUT ->
      clear_previous_buffer single_h' = true /\ output = None)
  /\ (status = ML_ERROR_NONE ->
      exists d, in_data = Some d /\ output = own_result single_h d e)
  /\ (clear_previous_buffer single_h' = true <->
      status = ML_ERROR_TIMED_OUT
      \/ (clear_previous_buffer single_h = true
          /\ status = ML_ERROR_INVALID_PARAMETER)).
Proof.
  intros Hinv Hcall.
  pose proof Hinv as (Hmagic & [el Hsink] & Hle & Hzero). simpl in *.
  assert (Hsame : status = ML_ERROR_INVALID_PARAMETER -> single_h' = single_h ->
            e' = e ->
            session_inv (single_h', e')
            /\ timeout single_h' = timeout single_h
            /\ (status = ML_ERROR_TIMED_OUT ->
                clear_previous_buffer single_h' = true /\ output = None)
            /\ (status = ML_ERROR_NONE ->
                exists d, in_data = Some d /\ output = own_result single_h d e)
            /\ (clear_previous_buffer single_h' = true <->
                status = ML_ERROR_TIMED_OUT
                \/ (clear_previous_buffer single_h = true
                    /\ status = ML_ERROR_INVALID_PARAMETER))).
  { intros -> -> ->. split; [exact Hinv|]. split; [reflexivity|].
    split; [discriminate|]. split; [discriminate|]. intuition discriminate. }
  unfold ml_single_invoke in Hcall.
  destruct in_data as [in_data|], output0 as [output0|];
    try (injection Hcall as <- <- <- <-; apply Hsame; reflexivity).
  rewrite Hmagic, Z.eqb_refl in Hcall. simpl in Hcall.
  destruct (validate_input single_h in_data) eqn:Hvalid; simpl in Hcall;
    [|injection Hcall as <- <- <- <-; apply Hsame; reflexivity].
  destruct (clear_old_buffer single_h e) as [[s1 e1]| |] eqn:Hclear;
    simpl in Hcall; try discriminate.
  destruct (clear_old_buffer_session _ _ _ _ Hinv Hclear) as (-> & Hidle & Hfn).
  change (@gst_app_src_push_buffer Engine _) with engine_push_buffer in Hcall.
  change (@gst_app_sink_try_pull_sample Engine _)
    with engine_try_pull_sample in Hcall.
  simpl in Hcall.
  destruct (engine_push_buffer e1 (src single_h) (input_buffer in_data))
    as [ret e2] eqn:Hpush.
  destruct (engine_push_idle _ _ _ _ _ Hidle Hpush)
    as (Hfn2 & Hslot2 & Hclk2 & Hq2).
  destruct (bool_decide_reflect (ret = GST_FLOW_OK)) as [Hok|Hnok];
    simpl in Hcall.
  - destruct Hq2 as [[Hne _]|[_ Hq2]]; [contradiction|].
    rewrite Hsink in Hcall.
    destruct (engine_try_pull_sample e2 (Some el)
                (GST_MSECOND * timeout single_h)) as [r e3] eqn:Hwait.
    assert (Hlen2 : (length (inflight e2) <= 1)%nat)
      by (rewrite Hq2; destruct (filter_fn e1 _); simpl; lia).
    destruct (engine_try_pull_own e2 el _ r e3 Hslot2 Hlen2 Hwait)
      as (Hfn3 & _ & Hr).
    destruct r as [smp|].
    + destruct Hr as [Hidle3 [d Hown]].
      destruct (copy_result smp _ 0 _) as [blocks|] eqn:Hcopy;
        simpl in Hcall; [|discriminate].
      injection Hcall as <- <- <- <-.
      split; [repeat split; simpl; eauto; lia|].
      split; [reflexivity|]. split; [discriminate|].
      split; [|simpl; intuition discriminate].
      intros _. exists in_data. split; [reflexivity|].
      unfold own_result. rewrite <- Hfn.
      rewrite Hown in Hq2.
      destruct (filter_fn e1 (input_buffer in_data)) as [[d' smp']|];
        [|discriminate].
      injection Hq2 as -> ->. simpl. rewrite Hcopy. reflexivity.
    + destruct Hr as [Hle3 _].
      injection Hcall as <- <- <- <-.
      split; [repeat split; simpl; eauto; discriminate|].
      split; [reflexivity|]. split; [auto|]. split; [discriminate|].
      simpl. intuition.
  - destruct Hq2 as [[_ Hq2]|[Hok _]]; [|contradiction].
    injection Hcall as <- <- <- <-.
    split.
    { repeat split; simpl; eauto; unfold pending; rewrite Hq2, Hslot2;
        simpl; lia. }
    split; [reflexivity|]. split; [discriminate|]. split; [discriminate|].
    simpl. intuition discriminate.
Qed.

Lemma opened_inv (st : session) : opened st -> session_inv st.
Proof.
  intros (Hmagic & Hsink & Hflag & Hidle).
  repeat split; auto. lia.
Qed.

Lemma session_step_inv (st st' : session) :
  session_inv st -> session_step st st' -> session_inv st'.
Proof.
  intros Hinv Hstep. destruct Hstep as
    [single_h e in_data output0 status output single_h' e' Hcall
    |single_h e t status single_h' Hset
    |single_h e t Ht].
  - eapply invoke_session; eauto.
  - destruct Hinv as (Hmagic & Hsink & Hle & Hzero). simpl in *.
    unfold ml_single_set_timeout in Hset.
    destruct (t =? 0); [injection Hset as <- <-; repeat split; auto|].
    rewrite Hmagic, Z.eqb_refl in Hset. simpl in Hset.
    injection Hset as <- <-. repeat split; auto.
  - destruct Hinv as (Hmagic & Hsink & Hle & Hzero). simpl in *.
    pose proof (elapse_pending t e).
    repeat split; simpl; auto; [lia|].
    intros Hflag. specialize (Hzero Hflag). lia.
Qed.

Lemma session_steps_inv (st st' : session) :
  rtc session_step st st' -> session_inv st -> session_inv st'.
Proof.
  induction 1 as [st|st st1 st2 Hstep _ IH]; intros Hinv; [exact Hinv|].
  apply IH. eapply session_step_inv; eauto.
Qed.

Lemma reachable_inv (st : session) : reachable st -> session_inv st.
Proof.
  intros (st0 & Hopen & Hsteps).
  eapply session_steps_inv; [exact Hsteps | apply opened_inv, Hopen].
Qed.

Lemma reachable_step (st st' : session) :
  reachable st -> session_step st st' -> reachable st'.
Proof.
  intros (st0 & Hopen & Hsteps) Hstep. exists st0. split; [exact Hopen|].
  eapply rtc_r; eauto.
Qed.

(** C1 -- Timeout self-healing, on every session that follows an open.
    An invoke that times out sets the flag and returns timed-out with
    no output buffer; an invoke that succeeds returns the engine's
    answer to its own input, whatever an earlier timed-out call left
    behind; and on return of invoke the flag is set exactly when the
    call timed out, or was turned away as an invalid parameter with the
    flag already set (the clean-up comes after the validation). *)
Theorem timeout_self_healing (single_h : ml_single) (e : Engine)
    in_data output0 status output single_h' e' :
  reachable (single_h, e) ->
  ml_single_invoke (Some single_h) in_data output0 e
  = Returns (status, output, Some single_h', e') ->
  (status = ML_ERROR_TIMED_OUT ->
   clear_previous_buffer single_h' = true /\ output = None)
  /\ (status = ML_ERROR_NONE ->
      exists d, in_data = Some d /\ output = own_result single_h d e)
  /\ (clear_previous_buffer single_h' = true <->
      status = ML_ERROR_TIMED_OUT
      \/ (clear_previous_buffer single_h = true
          /\ status = ML_ERROR_INVALID_PARAMETER))
  /\ reachable (single_h', e').
Proof.
  intros Hreach Hcall.
  destruct (invoke_session _ _ _ _ _ _ _ _ (reachable_inv _ Hreach) Hcall)
    as (_ & _ & Htimed & Hown & Hflag).
  split; [exact Htimed|]. split; [exact Hown|]. split; [exact Hflag|].
  eapply reachable_step; [exact Hreach|]. econstructor. exact Hcall.
Qed.

End SessionFacts.

Lemma session_start_opened : opened session_start.
Proof. repeat split; simpl; eauto. Qed.

Lemma session_start_times_out :
  ml_single_invoke (Some (fst session_start)) (Some slow_input) (Some None)
    (snd session_start)
  = Returns (ML_ERROR_TIMED_OUT, None, Some (fst session_timed_out),
             snd session_timed_out).
Proof. vm_compute. reflexivity. Qed.

Lemma session_timed_out_reachable : reachable session_timed_out.
Proof.
  exists session_start. split; [apply session_start_opened|].
  apply rtc_once. eapply step_invoke. exact session_start_times_out.
Qed.

Lemma timeout_self_healing_witness :
  (ML_ERROR_NONE = ML_ERROR_TIMED_OUT ->
   clear_previous_buffer sample_single = true
   /\ Some (one_block Byte.x01 40) = None)
  /\ (ML_ERROR_NONE = ML_ERROR_NONE ->
      exists d, Some fast_input = Some d
                /\ Some (one_block Byte.x01 40)
                   = own_result (fst session_timed_out) d (snd session_timed_out))
  /\ (clear_previous_buffer sample_single = true <->
      ML_ERROR_NONE = ML_ERROR_TIMED_OUT
      \/ (clear_previous_buffer (fst session_timed_out) = true
          /\ ML_ERROR_NONE = ML_ERROR_INVALID_PARAMETER))
  /\ reachable (sample_single,
                {| filter_fn := echo_filter one_second; running := true;
                   inflight := []; sinkq := None; clock := 6 * one_second |}).
Proof.
  apply (timeout_self_healing (fst session_timed_out) (snd session_timed_out)
           (Some fast_input) (Some None)).
  - exact session_timed_out_reachable.
  - vm_compute. reflexivity.
Defined.

(** C1, as stated, fails: after a call has timed out, an invoke with a
    frame one byte short returns invalid-parameter and the flag is still
    set on its return, though that call did not time out. *)
Lemma flag_outlives_rejected_invoke :
  reachable session_timed_out
  /\ ml_single_invoke (Some (fst session_timed_out))
       (Some (one_block Byte.x01 783)) (Some None) (snd session_timed_out)
     = Returns (ML_ERROR_INVALID_PARAMETER, None,
                Some (fst session_timed_out), snd session_timed_out)
  /\ clear_previous_buffer (fst session_timed_out) = true
  /\ ML_ERROR_INVALID_PARAMETER <> ML_ERROR_TIMED_OUT.
Proof.
  split; [exact session_timed_out_reachable|].
  split; [vm_compute; reflexivity|].
  split; [reflexivity | discriminate].
Qed.

(** ** The clean-up step of invoke *)

Section CleanupFacts.

Context {E : Type} `{GstApp E}.

(** C2 -- On a live handle whose flag is set, with an input that
    passes the validation, invoke first pulls from the output stage
    with the blocking [gst_app_sink_pull_sample]: while the pull does
    not return, invoke does not return; when it returns, whatever it
    brought is dropped, the flag is cleared, and the call goes on,
    push first, exactly as a call with the flag clear goes from the
    drained state. *)
Theorem cleanup_is_blocking_pull
    (single_h : ml_single) (in_data : ml_tensors_data_s)
    (output0 : option ml_tensors_data_s) (e : E) :
  magic single_h = ML_SINGLE_MAGIC ->
  data_compatible (in_info single_h) in_data ->
  clear_previous_buffer single_h = true ->
  match gst_app_sink_pull_sample e (sink single_h) with
  | None =>
      ml_single_invoke (Some single_h) (Some in_data) (Some output0) e
      = Blocked
  | Some (sample, e1) =>
      clear_old_buffer single_h e
      = Returns (set_clear_previous_buffer false single_h, e1)
      /\ ml_single_invoke (Some single_h) (Some in_data) (Some output0) e
         = ml_single_invoke (Some (set_clear_previous_buffer false single_h))
             (Some in_data) (Some output0) e1
  end.
Proof.
  intros Hmagic Hcompat Hflag.
  assert (Hcompat' : validate_input (set_clear_previous_buffer false single_h)
                       in_data = true)
    by (apply validate_input_spec; exact Hcompat).
  apply validate_input_spec in Hcompat.
  unfold ml_single_invoke.
  change (magic (set_clear_previous_buffer false single_h))
    with (magic single_h).
  rewrite Hmagic, Z.eqb_refl, Hcompat, Hcompat'. simpl.
  unfold clear_old_buffer. simpl. rewrite Hflag.
  destruct (gst_app_sink_pull_sample e (sink single_h)) as [[sample e1]|];
    [|reflexivity].
  split; reflexivity.
Qed.

End CleanupFacts.

Lemma cleanup_is_blocking_pull_witness :
  clear_old_buffer (fst session_timed_out) (snd session_timed_out)
  = Returns (set_clear_previous_buffer false (fst session_timed_out),
             {| filter_fn := echo_filter one_second; running := true;
                inflight := []; sinkq := None; clock := 5 * one_second |})
  /\ ml_single_invoke (Some (fst session_timed_out)) (Some fast_input)
       (Some None) (snd session_timed_out)
     = ml_single_invoke
         (Some (set_clear_previous_buffer false (fst session_timed_out)))
         (Some fast_input) (Some None)
         {| filter_fn := echo_filter one_second; running := true;
            inflight := []; sinkq := None; clock := 5 * one_second |}.
Proof.
  assert (Hcompat : data_compatible (in_info (fst session_timed_out)) fast_input).
  { split; [reflexivity|]. intros i Hi.
    assert (i = 0%nat) as -> by (simpl in Hi; lia).
    split; [eexists; reflexivity | reflexivity]. }
  exact (cleanup_is_blocking_pull (fst session_timed_out) fast_input None
           (snd session_timed_out) eq_refl Hcompat eq_refl).
Defined.

Lemma session_lost_times_out :
  ml_single_invoke (Some sample_single) (Some slow_input) (Some None)
    (idle_engine silent_filter)
  = Returns (ML_ERROR_TIMED_OUT, None, Some (fst session_lost), snd session_lost).
Proof. vm_compute. reflexivity. Qed.

Lemma session_lost_reachable : reachable session_lost.
Proof.
  exists (sample_single, idle_engine silent_filter).
  split; [repeat split; simpl; eauto|].
  apply rtc_once. eapply step_invoke. exact session_lost_times_out.
Qed.

(** C2, as stated, fails: the clean-up is not a drain that returns at
    once.  After a call has timed out with its sample two seconds away,
    the clean-up of the next call waits those two seconds; and when the
    inference stage has yielded nothing for the timed-out call, the next
    call never returns. *)
Lemma cleanup_waits_for_the_sample :
  reachable session_timed_out
  /\ (exists e1,
        clear_old_buffer (fst session_timed_out) (snd session_timed_out)
        = Returns (set_clear_previous_buffer false (fst session_timed_out), e1)
        /\ clock e1 - clock (snd session_timed_out) = 2 * one_second)
  /\ reachable session_lost
  /\ ml_single_invoke (Some (fst session_lost)) (Some fast_input) (Some None)
       (snd session_lost)
     = Blocked.
Proof.
  split; [exact session_timed_out_reachable|].
  split; [eexists; split; [vm_compute; reflexivity | reflexivity]|].
  split; [exact session_lost_reachable|].
  vm_compute. reflexivity.
Qed.

(** ** Open and close *)

Section OpenFacts.

Context {E : Type}.
Implicit Types (w : World E) (env : Env E).

Lemma same_resources_refl w : same_resources w w.
Proof. repeat split. Qed.

(** Closing the handle under construction gives back everything open
    has taken. *)
Lemma close_under_construction w0 w p a fx single_h :
  under_construction w0 w p a fx ->
  singles w !! a = Some single_h ->
  handle_of p single_h ->
  same_resources (snd (ml_single_close w (Some a))) w0.
Proof.
  intros (Hp0 & Ha0 & (pl & Hpl & _) & Hdel & Hrefs & Hdela) Hlook
         (Hmagic & Hpipe & Hsrc & Hsink & Hfilter & _).
  unfold ml_single_close. rewrite Hlook, Hmagic, Z.eqb_refl. simpl.
  rewrite Hsrc, Hsink, Hfilter, Hpipe. simpl.
  unfold ml_pipeline_destroy. simpl. rewrite Hpl. simpl.
  repeat split; simpl; [exact Hdel | | exact Hdela].
  rewrite Hrefs. multiset_solver.
Qed.

Lemma open_finish_spec w0 w p a fx single_h status st out w' :
  under_construction w0 w p a fx ->
  singles w !! a = Some single_h ->
  handle_of p single_h ->
  open_finish w status a = (st, out, w') ->
  st = status
  /\ (st <> ML_ERROR_NONE -> out = None /\ same_resources w' w0)
  /\ (st = ML_ERROR_NONE -> out = Some a /\ w' = w).
Proof.
  intros Huc Hlook Hh. unfold open_finish.
  destruct (bool_decide_reflect (status = ML_ERROR_NONE)) as [->|Hne]; simpl.
  - intros [= <- <- <-]. repeat split; congruence.
  - intros [= <- <- <-]. split; [reflexivity|]. split; [|contradiction].
    intros _. split; [reflexivity|].
    eapply close_under_construction; eauto.
Qed.

Lemma under_construction_store w0 w p a fx content :
  under_construction w0 w p a fx ->
  under_construction w0 (store_single w a content) p a fx
  /\ singles (store_single w a content) !! a = Some content.
Proof.
  intros (Hp0 & Ha0 & Hpl & Hdel & Hrefs & Hdela).
  split; [|apply lookup_insert_eq].
  repeat split; simpl; auto.
  rewrite delete_insert_eq. exact Hdela.
Qed.

Lemma under_construction_update w0 w p a fx (f : Pipeline E -> Pipeline E) :
  (forall pl, filterx (f pl) = filterx pl) ->
  under_construction w0 w p a fx ->
  under_construction w0 (update_pipeline w p f) p a fx
  /\ singles (update_pipeline w p f) = singles w.
Proof.
  intros Hf (Hp0 & Ha0 & (pl & Hpl & Hfx) & Hdel & Hrefs & Hdela).
  split; [|reflexivity].
  repeat split; simpl; auto.
  - exists (f pl). rewrite lookup_alter_eq, Hpl. split; [reflexivity|].
    rewrite Hf. exact Hfx.
  - rewrite delete_alter_eq. exact Hdel.
Qed.

Lemma under_construction_start env w0 w p a fx status w' :
  under_construction w0 w p a fx ->
  ml_pipeline_start env w p = (status, w') ->
  under_construction w0 w' p a fx /\ singles w' = singles w.
Proof.
  intros (Hp0 & Ha0 & (pl & Hpl & Hfx) & Hdel & Hrefs & Hdela).
  unfold ml_pipeline_start. rewrite Hpl.
  destruct (env_start env pl) as [st e]. intros [= <- <-].
  split; [|reflexivity].
  repeat split; simpl; auto.
  - eexists. rewrite lookup_insert_eq. split; [reflexivity|exact Hfx].
  - rewrite delete_insert_eq. exact Hdel.
Qed.

Lemma filter_of_under_construction w0 w p a fx :
  under_construction w0 w p a fx -> filter_of w p = fx.
Proof.
  intros (_ & _ & (pl & Hpl & Hfx) & _). unfold filter_of.
  rewrite Hpl. exact Hfx.
Qed.

Lemma open_set_output_spec env w0 w p a fx content oi st out w' :
  under_construction w0 w p a fx ->
  handle_of p content ->
  open_set_output env w p a content oi = (st, out, w') ->
  (st <> ML_ERROR_NONE -> out = None /\ same_resources w' w0)
  /\ (st = ML_ERROR_NONE ->
      exists single_h pl',
        out = Some a /\ singles w' !! a = Some single_h
        /\ handle_of p single_h
        /\ in_info single_h = in_info content
        /\ out_info single_h = negotiated oi fx false
        /\ pipelines w' !! p = Some pl' /\ filterx pl' = fx).
Proof.
  intros Huc Hh. unfold open_set_output.
  rewrite (filter_of_under_construction _ _ _ _ _ Huc).
  set (content1 := match oi with
                   | Some info => set_out_info _ content
                   | None => set_out_info _ content
                   end).
  assert (Hh1 : handle_of p content1) by (subst content1; destruct oi; exact Hh).
  assert (Hin1 : in_info content1 = in_info content)
    by (subst content1; destruct oi; reflexivity).
  assert (Hout1 : out_info content1 = negotiated oi fx false)
    by (subst content1; destruct oi; reflexivity).
  destruct (under_construction_store _ _ _ _ _ content1 Huc) as [Huc1 Hlk1].
  clearbody content1. revert Huc1 Hlk1.
  generalize (store_single w a content1). clear Huc w. intros w Huc Hlk.
  set (check := match oi with
                | Some _ => (ML_ERROR_NONE, true)
                | None => _
                end).
  destruct check as [status valid].
  destruct (negb (bool_decide (status = ML_ERROR_NONE)) || negb valid).
  - intros Hfin.
    destruct (open_finish_spec _ _ _ _ _ _ _ _ _ _ Huc Hlk Hh1 Hfin)
      as (-> & Hfail & _).
    split; [exact Hfail | discriminate].
  - destruct (under_construction_update _ _ _ _ _
                (gst_app_sink_set_caps (out_info content1))
                ltac:(reflexivity) Huc) as [Huc2 Hs2].
    rewrite <- Hs2 in Hlk. revert Huc2 Hlk.
    generalize (update_pipeline w p (gst_app_sink_set_caps (out_info content1))).
    clear Huc Hs2 w. intros w Huc Hlk.
    destruct (under_construction_update _ _ _ _ _
                (gst_app_sink_set_max_buffers 1)
                ltac:(reflexivity) Huc) as [Huc2 Hs2].
    rewrite <- Hs2 in Hlk. revert Huc2 Hlk.
    generalize (update_pipeline w p (gst_app_sink_set_max_buffers 1)).
    clear Huc Hs2 w. intros w Huc Hlk.
    destruct (under_construction_update _ _ _ _ _
                (gst_app_sink_set_drop true)
                ltac:(reflexivity) Huc) as [Huc2 Hs2].
    rewrite <- Hs2 in Hlk. revert Huc2 Hlk.
    generalize (update_pipeline w p (gst_app_sink_set_drop true)).
    clear Huc Hs2 w. intros w Huc Hlk.
    destruct (ml_pipeline_start env w p) as [status' w2] eqn:Hstart.
    destruct (under_construction_start _ _ _ _ _ _ _ _ Huc Hstart)
      as [Huc2 Hs2].
    rewrite <- Hs2 in Hlk. intros Hfin.
    destruct (open_finish_spec _ _ _ _ _ _ _ _ _ _ Huc2 Hlk Hh1 Hfin)
      as (-> & Hfail & Hok).
    split; [exact Hfail|]. intros Hst.
    destruct (Hok Hst) as [-> ->].
    destruct Huc2 as (_ & _ & (pl' & Hpl' & Hfx') & _).
    exists content1, pl'. repeat split; auto; apply Hh1.
Qed.

Lemma open_set_input_spec env w0 w p a fx content ii oi st out w' :
  under_construction w0 w p a fx ->
  handle_of p content ->
  open_set_input env w p a content ii oi = (st, out, w') ->
  (st <> ML_ERROR_NONE -> out = None /\ same_resources w' w0)
  /\ (st = ML_ERROR_NONE ->
      exists single_h pl',
        out = Some a /\ singles w' !! a = Some single_h
        /\ handle_of p single_h
        /\ in_info single_h = negotiated ii fx true
        /\ out_info single_h = negotiated oi fx false
        /\ pipelines w' !! p = Some pl' /\ filterx pl' = fx).
Proof.
  intros Huc Hh. unfold open_set_input.
  rewrite (filter_of_under_construction _ _ _ _ _ Huc).
  set (content1 := match ii with
                   | Some info => set_in_info _ content
                   | None => set_in_info _ content
                   end).
  assert (Hh1 : handle_of p content1) by (subst content1; destruct ii; exact Hh).
  assert (Hin1 : in_info content1 = negotiated ii fx true)
    by (subst content1; destruct ii; reflexivity).
  destruct (under_construction_store _ _ _ _ _ content1 Huc) as [Huc1 Hlk1].
  clearbody content1. revert Huc1 Hlk1.
  generalize (store_single w a content1). clear Huc w. intros w Huc Hlk.
  set (check := match ii with
                | Some _ => (ML_ERROR_NONE, true)
                | None => _
                end).
  destruct check as [status valid].
  destruct (negb (bool_decide (status = ML_ERROR_NONE)) || negb valid).
  - intros Hfin.
    destruct (open_finish_spec _ _ _ _ _ _ _ _ _ _ Huc Hlk Hh1 Hfin)
      as (-> & Hfail & _).
    split; [exact Hfail | discriminate].
  - destruct (under_construction_update _ _ _ _ _
                (gst_app_src_set_caps (in_info content1))
                ltac:(reflexivity) Huc) as [Huc2 _].
    intros Hrest.
    destruct (open_set_output_spec _ _ _ _ _ _ _ _ _ _ _ Huc2 Hh1 Hrest)
      as [Hfail Hok].
    split; [exact Hfail|]. intros Hst.
    destruct (Hok Hst) as (single_h & pl' & Ha & Hlk' & Hh' & Hin & Hrest').
    exists single_h, pl'. split; [exact Ha|]. split; [exact Hlk'|].
    split; [exact Hh'|]. split; [rewrite Hin; exact Hin1 | exact Hrest'].
Qed.

Lemma open_allocate_spec w0 w p pl :
  pipelines w0 !! p = None ->
  pipelines w = <[p := pl]> (pipelines w0) ->
  element_refs w = element_refs w0 ->
  singles w = singles w0 ->
  under_construction w0 (snd (open_allocate w p)) p
    (fst (fst (open_allocate w p))) (filterx pl)
  /\ singles (snd (open_allocate w p)) !! fst (fst (open_allocate w p))
     = Some (snd (fst (open_allocate w p)))
  /\ handle_of p (snd (fst (open_allocate w p))).
Proof.
  intros Hp0 Hpipes Hrefs Hsingles. unfold open_allocate. simpl.
  split; [|split; [apply lookup_insert_eq | repeat split]].
  assert (Hfresh : singles w0 !! fresh (dom (singles w)) = None).
  { rewrite <- Hsingles. apply not_elem_of_dom, is_fresh. }
  repeat split; simpl.
  - exact Hp0.
  - exact Hfresh.
  - exists pl. rewrite Hpipes, lookup_insert_eq. auto.
  - rewrite Hpipes. apply delete_insert_id, Hp0.
  - rewrite Hrefs. reflexivity.
  - rewrite Hsingles in *. apply delete_insert_id, Hfresh.
Qed.

Lemma open_constructed_spec env w0 w p pl ii oi st out w' :
  pipelines w0 !! p = None ->
  pipelines w = <[p := pl]> (pipelines w0) ->
  element_refs w = element_refs w0 ->
  singles w = singles w0 ->
  open_constructed env w p ii oi = (st, out, w') ->
  (st <> ML_ERROR_NONE -> out = None /\ same_resources w' w0)
  /\ (st = ML_ERROR_NONE ->
      exists a single_h pl',
        out = Some a /\ singles w' !! a = Some single_h
        /\ handle_of p single_h
        /\ in_info single_h = negotiated ii (filterx pl) true
        /\ out_info single_h = negotiated oi (filterx pl) false
        /\ pipelines w' !! p = Some pl' /\ filterx pl' = filterx pl).
Proof.
  intros Hp0 Hpipes Hrefs Hsingles. unfold open_constructed.
  destruct (open_allocate_spec w0 w p pl Hp0 Hpipes Hrefs Hsingles)
    as (Huc & Hlk & Hh).
  destruct (open_allocate w p) as [[a content] w1]. simpl in *.
  intros Hrest.
  destruct (open_set_input_spec _ _ _ _ _ _ _ _ _ _ _ _ Huc Hh Hrest)
    as [Hfail Hok].
  split; [exact Hfail|]. intros Hst.
  destruct (Hok Hst) as (single_h & pl' & Hrest').
  exists a, single_h, pl'. exact Hrest'.
Qed.

(** What a call of open comes to: a failure that leaves the caller's
    variable NULL and the world's resources as they were, or a handle
    as step 4 fills it, with the descriptors settled and the pipeline
    in place. *)
Lemma ml_single_open_spec env w single model ii oi nnfw hw st out w' :
  ml_single_open env w single model ii oi nnfw hw = (st, out, w') ->
  (st <> ML_ERROR_NONE -> out = None /\ same_resources w' w)
  /\ (st = ML_ERROR_NONE ->
      exists a single_h pl,
        out = Some a /\ singles w' !! a = Some single_h
        /\ handle_of (pipe single_h) single_h
        /\ in_info single_h = negotiated ii (filterx pl) true
        /\ out_info single_h = negotiated oi (filterx pl) false
        /\ pipelines w' !! pipe single_h = Some pl).
Proof.
  assert (Hearly : forall status,
            status <> ML_ERROR_NONE ->
            (status, @None positive, w) = (st, out, w') ->
            (st <> ML_ERROR_NONE -> out = None /\ same_resources w' w)
            /\ (st = ML_ERROR_NONE ->
                exists a single_h pl,
                  out = Some a /\ singles w' !! a = Some single_h
                  /\ handle_of (pipe single_h) single_h
                  /\ in_info single_h = negotiated ii (filterx pl) true
                  /\ out_info single_h = negotiated oi (filterx pl) false
                  /\ pipelines w' !! pipe single_h = Some pl)).
  { intros status Hne [= <- <- <-]. split; [|contradiction].
    intros _. split; [reflexivity | apply same_resources_refl]. }
  unfold ml_single_open.
  destruct single as [single0|]; [|apply Hearly; discriminate].
  destruct (env_gst_init_check env); simpl; [|apply Hearly; discriminate].
  destruct (info_param_ok ii); simpl; [|apply Hearly; discriminate].
  destruct (info_param_ok oi); simpl; [|apply Hearly; discriminate].
  destruct model as [model|]; [|apply Hearly; discriminate].
  destruct (env_file_is_regular env model); simpl;
    [|apply Hearly; discriminate].
  destruct (Resolver.determine_nnfw nnfw model) as [status1 nnfw1].
  destruct (bool_decide_reflect (status1 = ML_ERROR_NONE)) as [->|Hne1];
    simpl; [|apply Hearly; exact Hne1].
  destruct (env_check_nnfw_availability env nnfw1 hw) as [status2 available].
  destruct (bool_decide_reflect (status2 = ML_ERROR_NONE)) as [->|Hne2];
    simpl; [|apply Hearly; exact Hne2].
  destruct available; simpl; [|apply Hearly; discriminate].
  destruct (pipeline_description env nnfw1 model ii oi) as [status3|desc]
    eqn:Hdesc.
  { apply Hearly. unfold pipeline_description in Hdesc.
    destruct nnfw1; try (injection Hdesc as <-; discriminate);
      try discriminate.
    destruct ii, oi; try discriminate; injection Hdesc as <-; discriminate. }
  unfold ml_pipeline_construct.
  destruct (env_construct env desc) as [status4 pl].
  destruct (bool_decide_reflect (status4 = ML_ERROR_NONE)) as [->|Hne4];
    simpl; [|rewrite bool_decide_false by exact Hne4; simpl;
             apply Hearly; exact Hne4].
  intros Hrest.
  eapply (open_constructed_spec env w) in Hrest as [Hfail Hok];
    [|apply not_elem_of_dom, is_fresh|reflexivity..].
  split; [exact Hfail|]. intros Hst.
  destruct (Hok Hst) as (a & single_h & pl' & Ha & Hlk & Hh & Hin & Hout & Hpl & Hfx).
  exists a, single_h, pl'.
  assert (Hpipe : pipe single_h = fresh (dom (pipelines w))) by apply Hh.
  rewrite Hpipe, Hfx. auto 10.
Qed.

End OpenFacts.

(** C5 -- Open is atomic on failure: whenever it returns a status other
    than success, the caller's handle variable is NULL and the process
    owns exactly the pipelines, stage references and handle blocks it
    owned before the call. *)
Theorem open_failure_is_atomic {E : Type} (env : Env E) (w : World E)
    (single : option (option positive)) (model : option string)
    (input_info output_info : option ml_tensors_info_s)
    (nnfw : ml_nnfw_type_e) (hw : ml_nnfw_hw_e) :
  let r := ml_single_open env w single model input_info output_info nnfw hw in
  fst (fst r) <> ML_ERROR_NONE ->
  snd (fst r) = None /\ same_resources (snd r) w.
Proof.
  intros r Hfail.
  destruct r as [[st out] w'] eqn:Hr. simpl in *.
  apply (ml_single_open_spec _ _ _ _ _ _ _ _ _ _ _ Hr). exact Hfail.
Qed.

Lemma open_failure_is_atomic_witness :
  let r := ml_single_open (sample_env [] ML_ERROR_STREAMS_PIPE) empty_world
             (Some (Some 7%positive)) (Some "mnist.tflite") None None
             ML_NNFW_TYPE_ANY 0 in
  fst (fst r) = ML_ERROR_STREAMS_PIPE
  /\ snd (fst r) = None /\ same_resources (snd r) empty_world.
Proof.
  split; [vm_compute; reflexivity|].
  apply (open_failure_is_atomic (sample_env [] ML_ERROR_STREAMS_PIPE)
           empty_world (Some (Some 7%positive)) (Some "mnist.tflite")
           None None ML_NNFW_TYPE_ANY 0).
  vm_compute. discriminate.
Defined.

(** C9 -- When open resolves to the tensorflow backend and the caller
    has not given both the input and the output descriptor, open fails
    and leaves the world as it found it: no pipeline has been
    instantiated and no handle made. *)
Theorem tensorflow_needs_both_infos {E : Type} (env : Env E) (w : World E)
    (single : option (option positive)) (model : string)
    (input_info output_info : option ml_tensors_info_s)
    (nnfw : ml_nnfw_type_e) (hw : ml_nnfw_hw_e) :
  Resolver.determine_nnfw nnfw model = (ML_ERROR_NONE, ML_NNFW_TYPE_TENSORFLOW) ->
  input_info = None \/ output_info = None ->
  exists status,
    status <> ML_ERROR_NONE
    /\ ml_single_open env w single (Some model) input_info output_info nnfw hw
       = (status, None, w).
Proof.
  intros Hres Hmissing. unfold ml_single_open.
  destruct single as [single0|]; [|eexists; split; [|reflexivity]; discriminate].
  destruct (env_gst_init_check env); simpl;
    [|eexists; split; [|reflexivity]; discriminate].
  destruct (info_param_ok input_info); simpl;
    [|eexists; split; [|reflexivity]; discriminate].
  destruct (info_param_ok output_info); simpl;
    [|eexists; split; [|reflexivity]; discriminate].
  destruct (env_file_is_regular env model); simpl;
    [|eexists; split; [|reflexivity]; discriminate].
  rewrite Hres. simpl.
  destruct (env_check_nnfw_availability env ML_NNFW_TYPE_TENSORFLOW hw)
    as [status2 available].
  destruct (bool_decide_reflect (status2 = ML_ERROR_NONE)) as [->|Hne2]; simpl;
    [|eexists; split; [exact Hne2 | reflexivity]].
  destruct available; simpl; [|eexists; split; [|reflexivity]; discriminate].
  exists ML_ERROR_INVALID_PARAMETER. split; [discriminate|].
  destruct Hmissing as [-> | ->]; [reflexivity|].
  destruct input_info; reflexivity.
Qed.

Lemma tensorflow_needs_both_infos_witness :
  exists status,
    status <> ML_ERROR_NONE
    /\ ml_single_open (sample_env [] ML_ERROR_NONE) empty_world
         (Some None) (Some "frozen_graph.pb") (Some info_uint8_28x28) None
         ML_NNFW_TYPE_ANY 0
       = (status, None, empty_world).
Proof.
  apply (tensorflow_needs_both_infos (sample_env [] ML_ERROR_NONE) empty_world
           (Some None) "frozen_graph.pb" (Some info_uint8_28x28) None
           ML_NNFW_TYPE_ANY 0).
  - reflexivity.
  - right. reflexivity.
Defined.

(** ** The configured timeout *)

Section TimeoutFacts.

Lemma engine_push_clock (e : Engine) appsrc buffer ret e1 :
  engine_push_buffer e appsrc buffer = (ret, e1) -> clock e1 = clock e.
Proof.
  unfold engine_push_buffer. intros Hpush.
  destruct appsrc; [|injection Hpush as _ <-; reflexivity].
  destruct (running e); simpl in Hpush;
    [|injection Hpush as _ <-; reflexivity].
  destruct (filter_fn e buffer); injection Hpush as _ <-; simpl; lia.
Qed.

Lemma engine_try_pull_bound (e : Engine) appsink t r e1 :
  0 <= t ->
  engine_try_pull_sample e appsink t = (r, e1) ->
  clock e1 - clock e <= t
  /\ (r = None -> is_Some appsink -> clock e1 - clock e = t).
Proof.
  unfold engine_try_pull_sample. intros Ht Hpull.
  destruct appsink as [el|].
  - destruct (sinkq e) as [smp|].
    + injection Hpull as <- <-. simpl. split; [lia | discriminate].
    + destruct (inflight e) as [|[d f] rest].
      * injection Hpull as <- <-. simpl. split; intros; lia.
      * destruct (Z.leb_spec d t); injection Hpull as <- <-; simpl;
          (split; [lia|]); [discriminate | intros; lia].
  - injection Hpull as <- <-. split; [lia|].
    intros _ [? Hnone]. discriminate.
Qed.

(** The wait of one call, measured on the engine's clock from the end
    of the clean-up. *)
Lemma invoke_wait_bounded (single_h : ml_single) (e : Engine)
    in_data output0 status output single_h' e' :
  0 <= timeout single_h ->
  ml_single_invoke (Some single_h) in_data output0 e
  = Returns (status, output, Some single_h', e') ->
  timeout single_h' = timeout single_h
  /\ (e' = e
      \/ exists s1 e1,
           clear_old_buffer single_h e = Returns (s1, e1)
           /\ clock e' - clock e1 <= GST_MSECOND * timeout single_h
           /\ (status = ML_ERROR_TIMED_OUT -> is_Some (sink single_h) ->
               clock e' - clock e1 = GST_MSECOND * timeout single_h)).
Proof.
  intros Ht Hcall. unfold ml_single_invoke in Hcall.
  destruct in_data as [in_data|], output0 as [output0|];
    try (injection Hcall as <- <- <- <-; auto).
  destruct (negb (magic single_h =? ML_SINGLE_MAGIC));
    [injection Hcall as <- <- <- <-; auto|].
  destruct (negb (validate_input single_h in_data));
    [injection Hcall as <- <- <- <-; auto|].
  destruct (clear_old_buffer single_h e) as [[s1 e1]| |] eqn:Hclear;
    simpl in Hcall; try discriminate.
  assert (Hs1 : timeout s1 = timeout single_h /\ sink s1 = sink single_h).
  { unfold clear_old_buffer in Hclear.
    destruct (clear_previous_buffer single_h);
      [destruct (gst_app_sink_pull_sample e (sink single_h)) as [[? ?]|];
       [|discriminate]|];
      injection Hclear as <- <-; auto. }
  destruct Hs1 as [Ht1 Hsink1].
  change (@gst_app_src_push_buffer Engine _) with engine_push_buffer in Hcall.
  change (@gst_app_sink_try_pull_sample Engine _)
    with engine_try_pull_sample in Hcall.
  destruct (engine_push_buffer e1 (src s1) (input_buffer in_data))
    as [ret e2] eqn:Hpush.
  pose proof (engine_push_clock _ _ _ _ _ Hpush) as Hclk2.
  assert (HT : 0 <= GST_MSECOND * timeout single_h)
    by (unfold GST_MSECOND; lia).
  destruct (negb (bool_decide (ret = GST_FLOW_OK))).
  { injection Hcall as <- <- <- <-. split; [exact Ht1|]. right.
    exists s1, e1. split; [reflexivity|]. split; [lia | discriminate]. }
  rewrite Ht1, Hsink1 in Hcall.
  destruct (engine_try_pull_sample e2 (sink single_h)
              (GST_MSECOND * timeout single_h)) as [r e3] eqn:Hwait.
  destruct (engine_try_pull_bound _ _ _ _ _ HT Hwait) as [Hle Heq].
  destruct r as [smp|].
  - simpl in Hcall.
    destruct (copy_result smp _ 0 _); [|discriminate].
    injection Hcall as <- <- <- <-. split; [exact Ht1|]. right.
    exists s1, e1. split; [reflexivity|]. split; [lia | discriminate].
  - injection Hcall as <- <- <- <-. split; [exact Ht1|]. right.
    exists s1, e1. split; [reflexivity|]. split; [lia|].
    intros _ Hsink. rewrite Hclk2 in Heq. auto.
Qed.

End TimeoutFacts.

(** C7 -- The timeout protocol.  A handle made by open has the timeout
    3000 ms; setting 0 returns invalid-parameter and leaves the handle
    as it was; setting a d > 0 on a live handle succeeds and stores d;
    and an invoke entered with the timeout d keeps it for the calls to
    come and waits, once its clean-up is done, at most d ms for the
    output, exactly d ms when it times out. *)
Theorem timeout_protocol :
  (forall (E : Type) (env : Env E) (w : World E) single model
          input_info output_info nnfw hw,
     let r := ml_single_open env w single model input_info output_info
                nnfw hw in
     fst (fst r) = ML_ERROR_NONE ->
     exists a single_h,
       snd (fst r) = Some a /\ singles (snd r) !! a = Some single_h
       /\ timeout single_h = 3000)
  /\ (forall single_h,
        ml_single_set_timeout (Some single_h) 0
        = (ML_ERROR_INVALID_PARAMETER, Some single_h))
  /\ (forall single_h d,
        magic single_h = ML_SINGLE_MAGIC -> 0 < d ->
        ml_single_set_timeout (Some single_h) d
        = (ML_ERROR_NONE, Some (set_timeout d single_h))
        /\ timeout (set_timeout d single_h) = d)
  /\ (forall single_h d (e : Engine) in_data output0 status output
             single_h' e',
        0 < d ->
        ml_single_invoke (Some (set_timeout d single_h)) in_data output0 e
        = Returns (status, output, Some single_h', e') ->
        timeout single_h' = d
        /\ (e' = e
            \/ exists s1 e1,
                 clear_old_buffer (set_timeout d single_h) e = Returns (s1, e1)
                 /\ clock e' - clock e1 <= GST_MSECOND * d
                 /\ (status = ML_ERROR_TIMED_OUT -> is_Some (sink single_h) ->
                     clock e' - clock e1 = GST_MSECOND * d))).
Proof.
  split; [|split; [|split]].
  - intros E env w single model ii oi nnfw hw r Hok.
    destruct r as [[st out] w'] eqn:Hr. simpl in *.
    destruct (ml_single_open_spec _ _ _ _ _ _ _ _ _ _ _ Hr) as [_ Hspec].
    destruct (Hspec Hok) as (a & single_h & pl & Hout & Hlk & Hh & _).
    exists a, single_h. split; [exact Hout|]. split; [exact Hlk|]. apply Hh.
  - intros single_h. reflexivity.
  - intros single_h d Hmagic Hd. unfold ml_single_set_timeout.
    destruct (Z.eqb_spec d 0) as [->|_]; [lia|].
    rewrite Hmagic, Z.eqb_refl. auto.
  - intros single_h d e in_data output0 status output single_h' e' Hd Hcall.
    apply (invoke_wait_bounded (set_timeout d single_h) e) in Hcall;
      [exact Hcall | simpl; lia].
Qed.

Lemma timeout_protocol_witness :
  (let r := ml_single_open (sample_env [] ML_ERROR_NONE) empty_world
              (Some None) (Some "mnist.tflite") None None ML_NNFW_TYPE_ANY 0 in
   exists a single_h,
     snd (fst r) = Some a /\ singles (snd r) !! a = Some single_h
     /\ timeout single_h = 3000)
  /\ ml_single_set_timeout (Some sample_single) 0
     = (ML_ERROR_INVALID_PARAMETER, Some sample_single)
  /\ (ml_single_set_timeout (Some sample_single) 1000
      = (ML_ERROR_NONE, Some (set_timeout 1000 sample_single))
      /\ timeout (set_timeout 1000 sample_single) = 1000)
  /\ (timeout (set_clear_previous_buffer true (set_timeout 1000 sample_single))
      = 1000
      /\ (set_stream [ (4 * one_second,
                        [ {| mem_data := repeat Byte.x05 40; mem_size := 40 |} ]) ]
            None one_second (idle_engine (echo_filter one_second))
          = idle_engine (echo_filter one_second)
          \/ exists s1 e1,
               clear_old_buffer (set_timeout 1000 sample_single)
                 (idle_engine (echo_filter one_second)) = Returns (s1, e1)
               /\ one_second - clock e1 <= GST_MSECOND * 1000
               /\ (ML_ERROR_TIMED_OUT = ML_ERROR_TIMED_OUT ->
                   is_Some (sink sample_single) ->
                   one_second - clock e1 = GST_MSECOND * 1000))).
Proof.
  destruct timeout_protocol as (Hopen & Hzero & Hset & Hwait).
  split; [|split; [|split]].
  - apply (Hopen Engine (sample_env [] ML_ERROR_NONE) empty_world
             (Some None) (Some "mnist.tflite") None None ML_NNFW_TYPE_ANY 0).
    vm_compute. reflexivity.
  - apply (Hzero sample_single).
  - apply (Hset sample_single 1000); [reflexivity | lia].
  - apply (Hwait sample_single 1000 (idle_engine (echo_filter one_second))
             (Some slow_input) (Some None) ML_ERROR_TIMED_OUT None);
      [lia | vm_compute; reflexivity].
Defined.

(** ** Describe *)

(** C6 -- For every handle made by open, describe (input) returns the
    descriptor read from the inference stage's own input properties at
    the time of the call.  That is the negotiated input descriptor held
    since open when open was given none and took it from the stage; a
    descriptor the caller supplied is what the handle holds, and describe
    returns it only in so far as the stage reports the same. *)
Theorem describe_reports_the_stage {E : Type} (env : Env E) (w : World E)
    (single : option (option positive)) (model : option string)
    (input_info output_info : option ml_tensors_info_s)
    (nnfw : ml_nnfw_type_e) (hw : ml_nnfw_hw_e) :
  let r := ml_single_open env w single model input_info output_info nnfw hw in
  fst (fst r) = ML_ERROR_NONE ->
  exists a single_h pl,
    snd (fst r) = Some a
    /\ singles (snd r) !! a = Some single_h
    /\ pipelines (snd r) !! pipe single_h = Some pl
    /\ in_info single_h = negotiated input_info (filterx pl) true
    /\ ml_single_get_input_info (Some single_h) true (filterx pl)
       = Returns (ML_ERROR_NONE,
                  Some (ml_single_get_tensors_info_from_filter (filterx pl) true))
    /\ (input_info = None ->
        ml_single_get_input_info (Some single_h) true (filterx pl)
        = Returns (ML_ERROR_NONE, Some (in_info single_h))).
Proof.
  intros r Hok.
  destruct r as [[st out] w'] eqn:Hr. simpl in *.
  destruct (ml_single_open_spec _ _ _ _ _ _ _ _ _ _ _ Hr) as [_ Hspec].
  destruct (Hspec Hok) as (a & single_h & pl & Hout & Hlk & Hh & Hin & _ & Hpl).
  destruct Hh as (Hmagic & _ & _ & _ & Hfilter & _).
  assert (Hdesc : ml_single_get_input_info (Some single_h) true (filterx pl)
                  = Returns (ML_ERROR_NONE,
                             Some (ml_single_get_tensors_info_from_filter
                                     (filterx pl) true))).
  { unfold ml_single_get_input_info, ml_single_get_tensors_info.
    rewrite Hmagic, Z.eqb_refl, Hfilter. reflexivity. }
  exists a, single_h, pl.
  split; [exact Hout|]. split; [exact Hlk|]. split; [exact Hpl|].
  split; [exact Hin|]. split; [exact Hdesc|].
  intros Hnone. rewrite Hin, Hnone. exact Hdesc.
Qed.

Lemma describe_reports_the_stage_witness :
  let r := ml_single_open (sample_env [] ML_ERROR_NONE) empty_world
             (Some None) (Some "mnist.tflite") None None ML_NNFW_TYPE_ANY 0 in
  exists a single_h pl,
    snd (fst r) = Some a
    /\ singles (snd r) !! a = Some single_h
    /\ pipelines (snd r) !! pipe single_h = Some pl
    /\ in_info single_h = negotiated None (filterx pl) true
    /\ ml_single_get_input_info (Some single_h) true (filterx pl)
       = Returns (ML_ERROR_NONE,
                  Some (ml_single_get_tensors_info_from_filter (filterx pl) true))
    /\ (@None ml_tensors_info_s = None ->
        ml_single_get_input_info (Some single_h) true (filterx pl)
        = Returns (ML_ERROR_NONE, Some (in_info single_h))).
Proof.
  apply (describe_reports_the_stage (sample_env [] ML_ERROR_NONE) empty_world
           (Some None) (Some "mnist.tflite") None None ML_NNFW_TYPE_ANY 0).
  vm_compute. reflexivity.
Defined.

(** The stage of the sample pipeline reports the scenario's descriptor. *)
Lemma sample_filter_reports :
  ml_single_get_tensors_info_from_filter (sample_filter []) true
  = info_uint8_28x28.
Proof. vm_compute. reflexivity. Qed.

(** C6, as stated, fails: open is given the input descriptor {uint8,
    1:28:28:1} with the tensor named by the caller, and the output
    descriptor {float32, 1:10}, against a self-describing stage that
    reports no tensor names.  Open succeeds and the handle holds the
    caller's descriptor, but describe (input) returns the stage's, which
    has no name. *)
Lemma describe_differs_from_supplied :
  let r := ml_single_open (sample_env [] ML_ERROR_NONE) empty_world
             (Some None) (Some "mnist.tflite")
             (Some info_uint8_28x28_named) (Some info_float32_10)
             ML_NNFW_TYPE_ANY 0 in
  exists a single_h pl described,
    fst r = (ML_ERROR_NONE, Some a)
    /\ singles (snd r) !! a = Some single_h
    /\ pipelines (snd r) !! pipe single_h = Some pl
    /\ in_info single_h = info_uint8_28x28_named
    /\ ml_single_get_input_info (Some single_h) true (filterx pl)
       = Returns (ML_ERROR_NONE, Some described)
    /\ name (info_at 0 described) = None
    /\ name (info_at 0 info_uint8_28x28_named) = Some "image"
    /\ described <> info_uint8_28x28_named.
Proof.
  vm_compute.
  eexists _, _, _, _. repeat split; try reflexivity.
  discriminate.
Qed.

(** ** Framework resolution inside open *)

Section ResolutionInOpen.

Context {E : Type}.
Import Resolver.

(** Open depends on the hint only through the outcome of step 1. *)
Lemma open_resolution_eq (env : Env E) (w : World E) single model
    input_info output_info hw (nnfw1 nnfw2 : ml_nnfw_type_e) :
  determine_nnfw nnfw1 model = determine_nnfw nnfw2 model ->
  ml_single_open env w single (Some model) input_info output_info nnfw1 hw
  = ml_single_open env w single (Some model) input_info output_info nnfw2 hw.
Proof.
  intros Heq. unfold ml_single_open. rewrite Heq. reflexivity.
Qed.

(** Once the arguments have passed, a failed step 1 is what open
    returns. *)
Lemma open_resolution_error (env : Env E) (w : World E) single0 model
    input_info output_info hw nnfw status nnfw' :
  env_gst_init_check env = true ->
  info_param_ok input_info = true -> info_param_ok output_info = true ->
  env_file_is_regular env model = true ->
  determine_nnfw nnfw model = (status, nnfw') ->
  status <> ML_ERROR_NONE ->
  ml_single_open env w (Some single0) (Some model) input_info output_info
    nnfw hw
  = (status, None, w).
Proof.
  intros Hinit Hin Hout Hfile Hres Hne. unfold ml_single_open.
  rewrite Hinit, Hin, Hout, Hfile, Hres. simpl.
  rewrite bool_decide_false by exact Hne. reflexivity.
Qed.

(** C8 -- Framework resolution in open is a function of the hint and of
    the extension of the lowered model path.  With no hint, a path ending
    in ".tflite" is opened as with the tensorflow-lite backend, one
    ending in ".pb" as with the tensorflow backend, one ending in the
    shared-library extension as with the custom filter, and any other
    path makes open return invalid-parameter; with a hint that has an
    expected extension, a path that does not end in it makes open return
    invalid-parameter.  (The arguments checked before step 1 are taken to
    have passed.) *)
Theorem framework_resolution (env : Env E) (w : World E)
    (single0 : option positive) (model : string)
    (input_info output_info : option ml_tensors_info_s) (hw : ml_nnfw_hw_e) :
  env_gst_init_check env = true ->
  info_param_ok input_info = true -> info_param_ok output_info = true ->
  env_file_is_regular env model = true ->
  let path_down := g_ascii_strdown model in
  let open_with := fun nnfw =>
    ml_single_open env w (Some single0) (Some model) input_info output_info
      nnfw hw in
  (g_str_has_suffix path_down ".tflite" = true ->
   determine_nnfw ML_NNFW_TYPE_ANY model
   = (ML_ERROR_NONE, ML_NNFW_TYPE_TENSORFLOW_LITE)
   /\ open_with ML_NNFW_TYPE_ANY = open_with ML_NNFW_TYPE_TENSORFLOW_LITE)
  /\ (g_str_has_suffix path_down ".pb" = true ->
      determine_nnfw ML_NNFW_TYPE_ANY model
      = (ML_ERROR_NONE, ML_NNFW_TYPE_TENSORFLOW)
      /\ open_with ML_NNFW_TYPE_ANY = open_with ML_NNFW_TYPE_TENSORFLOW)
  /\ (g_str_has_suffix path_down NNSTREAMER_SO_FILE_EXTENSION = true ->
      determine_nnfw ML_NNFW_TYPE_ANY model
      = (ML_ERROR_NONE, ML_NNFW_TYPE_CUSTOM_FILTER)
      /\ open_with ML_NNFW_TYPE_ANY = open_with ML_NNFW_TYPE_CUSTOM_FILTER)
  /\ (g_str_has_suffix path_down ".tflite" = false ->
      g_str_has_suffix path_down ".pb" = false ->
      g_str_has_suffix path_down NNSTREAMER_SO_FILE_EXTENSION = false ->
      open_with ML_NNFW_TYPE_ANY = (ML_ERROR_INVALID_PARAMETER, None, w))
  /\ (forall hint ext,
        expected_extension hint = Some ext ->
        g_str_has_suffix path_down ext = false ->
        open_with hint = (ML_ERROR_INVALID_PARAMETER, None, w)).
Proof.
  intros Hinit Hin Hout Hfile path_down open_with.
  destruct (determine_nnfw_cases model)
    as (Htflite & Hpb & Hso & Hnone & Hhint).
  fold path_down in Htflite, Hpb, Hso, Hnone, Hhint.
  split; [|split; [|split; [|split]]].
  - intros Hs. split; [exact (Htflite Hs)|].
    apply open_resolution_eq. rewrite (Htflite Hs).
    rewrite (Hhint ML_NNFW_TYPE_TENSORFLOW_LITE ".tflite" eq_refl), Hs.
    reflexivity.
  - intros Hs. split; [exact (Hpb Hs)|].
    apply open_resolution_eq. rewrite (Hpb Hs).
    rewrite (Hhint ML_NNFW_TYPE_TENSORFLOW ".pb" eq_refl), Hs. reflexivity.
  - intros Hs. split; [exact (Hso Hs)|].
    apply open_resolution_eq. rewrite (Hso Hs).
    rewrite (Hhint ML_NNFW_TYPE_CUSTOM_FILTER _ eq_refl), Hs. reflexivity.
  - intros Ht Hp Hs.
    apply (open_resolution_error env w single0 model input_info output_info hw
             ML_NNFW_TYPE_ANY ML_ERROR_INVALID_PARAMETER ML_NNFW_TYPE_ANY
             Hinit Hin Hout Hfile (Hnone Ht Hp Hs)).
    discriminate.
  - intros hint ext Hext Hs.
    apply (open_resolution_error env w single0 model input_info output_info hw
             hint ML_ERROR_INVALID_PARAMETER hint Hinit Hin Hout Hfile).
    + rewrite (Hhint hint ext Hext), Hs. reflexivity.
    + discriminate.
Qed.

End ResolutionInOpen.

Lemma framework_resolution_witness :
  let open_with := fun model nnfw =>
    ml_single_open (sample_env [] ML_ERROR_NONE) empty_world (Some None)
      (Some model) None None nnfw 0 in
  (Resolver.determine_nnfw ML_NNFW_TYPE_ANY "/opt/models/Mobilenet.TFLITE"
   = (ML_ERROR_NONE, ML_NNFW_TYPE_TENSORFLOW_LITE)
   /\ open_with "/opt/models/Mobilenet.TFLITE" ML_NNFW_TYPE_ANY
      = open_with "/opt/models/Mobilenet.TFLITE" ML_NNFW_TYPE_TENSORFLOW_LITE)
  /\ (Resolver.determine_nnfw ML_NNFW_TYPE_ANY "graph.pb"
      = (ML_ERROR_NONE, ML_NNFW_TYPE_TENSORFLOW)
      /\ open_with "graph.pb" ML_NNFW_TYPE_ANY
         = open_with "graph.pb" ML_NNFW_TYPE_TENSORFLOW)
  /\ (Resolver.determine_nnfw ML_NNFW_TYPE_ANY "libpassthrough.so"
      = (ML_ERROR_NONE, ML_NNFW_TYPE_CUSTOM_FILTER)
      /\ open_with "libpassthrough.so" ML_NNFW_TYPE_ANY
         = open_with "libpassthrough.so" ML_NNFW_TYPE_CUSTOM_FILTER)
  /\ open_with "model.onnx" ML_NNFW_TYPE_ANY
     = (ML_ERROR_INVALID_PARAMETER, None, empty_world)
  /\ open_with "model.tflite" ML_NNFW_TYPE_TENSORFLOW
     = (ML_ERROR_INVALID_PARAMETER, None, empty_world).
Proof.
  intros open_with.
  split; [|split; [|split; [|split]]].
  - apply (framework_resolution (sample_env [] ML_ERROR_NONE) empty_world None
             "/opt/models/Mobilenet.TFLITE" None None 0); reflexivity.
  - apply (framework_resolution (sample_env [] ML_ERROR_NONE) empty_world None
             "graph.pb" None None 0); reflexivity.
  - apply (framework_resolution (sample_env [] ML_ERROR_NONE) empty_world None
             "libpassthrough.so" None None 0); reflexivity.
  - apply (framework_resolution (sample_env [] ML_ERROR_NONE) empty_world None
             "model.onnx" None None 0); reflexivity.
  - exact (proj2 (proj2 (proj2 (proj2
             (framework_resolution (sample_env [] ML_ERROR_NONE) empty_world
                None "model.tflite" None None 0
                eq_refl eq_refl eq_refl eq_refl))))
             ML_NNFW_TYPE_TENSORFLOW ".pb" eq_refl eq_refl).
Defined.

(** * Further properties of the single-shot API *)

Section InvokeMore.

Context {E : Type} `{GstApp E}.

Lemma clear_old_buffer_flag (single_h : ml_single) (e : E) s1 e1 :
  clear_old_buffer single_h e = Returns (s1, e1) ->
  s1 = set_clear_previous_buffer false single_h.
Proof.
  unfold clear_old_buffer.
  destruct (clear_previous_buffer single_h) eqn:Hflag.
  - destruct (gst_app_sink_pull_sample e (sink single_h)) as [[smp e2]|];
      [|discriminate].
    intros [= <- <-]. reflexivity.
  - intros [= <- <-]. destruct single_h; simpl in *; subst; reflexivity.
Qed.

(** X1 -- Whatever the engine does, a call of invoke that returns leaves
    the handle as it was in everything but the flag: pipeline, elements,
    both descriptors, magic and timeout are unchanged. *)
Theorem invoke_changes_only_the_flag
    (single_h : ml_single) in_data output0 (e : E)
    status output single_h' e' :
  ml_single_invoke (Some single_h) in_data output0 e
  = Returns (status, output, Some single_h', e') ->
  single_h'
  = set_clear_previous_buffer (clear_previous_buffer single_h') single_h.
Proof.
  assert (Hsame : forall s : ml_single,
            s = set_clear_previous_buffer (clear_previous_buffer s) s)
    by (intros []; reflexivity).
  unfold ml_single_invoke. intros Hcall.
  destruct in_data as [in_data|], output0 as [output0|];
    try (injection Hcall as <- <- <- <-; apply Hsame).
  destruct (negb (magic single_h =? ML_SINGLE_MAGIC));
    [injection Hcall as <- <- <- <-; apply Hsame|].
  destruct (negb (validate_input single_h in_data));
    [injection Hcall as <- <- <- <-; apply Hsame|].
  destruct (clear_old_buffer single_h e) as [[s1 e1]| |] eqn:Hclear;
    simpl in Hcall; try discriminate.
  apply clear_old_buffer_flag in Hclear. subst s1.
  destruct (gst_app_src_push_buffer e1 _ _) as [ret e2].
  destruct (negb (bool_decide (ret = GST_FLOW_OK)));
    [injection Hcall as <- <- <- <-; reflexivity|].
  destruct (gst_app_sink_try_pull_sample e2 _ _) as [[smp|] e3];
    [|injection Hcall as <- <- <- <-; reflexivity].
  simpl in Hcall.
  destruct (copy_result smp _ 0 _); [|discriminate].
  injection Hcall as <- <- <- <-. reflexivity.
Qed.


(** X3 -- An invalid-parameter return of invoke comes from the argument
    checks alone, never from the engine: the handle pointer, the input
    or the output pointer is NULL, the magic is wrong, or the frame is
    not compatible with the input descriptor; and then neither the handle
    nor the streaming state has changed. *)
Theorem invoke_invalid_parameter_is_inert
    (single_h : ml_single) in_data output0 (e : E) output single' e' :
  ml_single_invoke (Some single_h) in_data output0 e
  = Returns (ML_ERROR_INVALID_PARAMETER, output, single', e') ->
  single' = Some single_h /\ e' = e
  /\ (in_data = None \/ output0 = None
      \/ magic single_h <> ML_SINGLE_MAGIC
      \/ exists d, in_data = Some d
                   /\ ~ data_compatible (in_info single_h) d).
Proof.
  unfold ml_single_invoke. intros Hcall.
  destruct in_data as [in_data|];
    [|destruct output0; injection Hcall as <- <- <-; auto].
  destruct output0 as [output0|]; [|injection Hcall as <- <- <-; auto].
  destruct (Z.eqb_spec (magic single_h) ML_SINGLE_MAGIC) as [Hmagic|Hmagic];
    simpl in Hcall; [|injection Hcall as <- <- <-; auto 6].
  destruct (validate_input single_h in_data) eqn:Hvalid; simpl in Hcall.
  - exfalso.
    destruct (clear_old_buffer single_h e) as [[s1 e1]| |];
      simpl in Hcall; try discriminate.
    destruct (gst_app_src_push_buffer e1 _ _) as [ret e2].
    destruct (negb (bool_decide (ret = GST_FLOW_OK))); [discriminate|].
    destruct (gst_app_sink_try_pull_sample e2 _ _) as [[smp|] e3];
      [|discriminate].
    simpl in Hcall. destruct (copy_result smp _ 0 _); discriminate.
  - injection Hcall as <- <- <-. split; [reflexivity|]. split; [reflexivity|].
    right. right. right. exists in_data. split; [reflexivity|].
    intros Hc%validate_input_spec. congruence.
Qed.

Lemma drop_repeat {A : Type} (x : A) (n m : nat) :
  drop n (repeat x m) = repeat x (m - n).
Proof.
  revert m. induction n as [|n IH]; intros m; simpl.
  - rewrite Nat.sub_0_r. reflexivity.
  - destruct m as [|m]; simpl; [reflexivity | apply IH].
Qed.

(** What the result copy leaves in each block it has reached, and that
    it leaves the others alone. *)
Lemma copy_result_inv (buffer : GstBuffer) (remaining : nat) :
  forall (i : nat) (blocks blocks' : list ml_tensor_data_s),
    copy_result buffer remaining i blocks = Some blocks' ->
    (forall j, (j < i)%nat -> blocks' !! j = blocks !! j)
    /\ (forall j, (i <= j < i + remaining)%nat ->
          exists mem blk dst,
            buffer !! j = Some mem /\ blocks !! j = Some blk
            /\ tensor blk = Some dst
            /\ 0 <= mem_size mem <= Z.of_nat (length dst)
            /\ blocks' !! j
               = Some {| tensor :=
                           Some (take (Z.to_nat (mem_size mem)) (mem_data mem)
                                 ++ drop (Z.to_nat (mem_size mem)) dst);
                         size := size blk |}).
Proof.
  induction remaining as [|r IH]; intros i blocks blocks' Hcopy; simpl in Hcopy.
  - injection Hcopy as <-. split; [reflexivity | intros j Hj; lia].
  - destruct (buffer !! i) as [mem|] eqn:Hmem; [|discriminate].
    destruct (blocks !! i) as [blk|] eqn:Hblk; [|discriminate].
    simpl in Hcopy.
    destruct (tensor blk) as [dst|] eqn:Hdst; [|discriminate].
    simpl in Hcopy.
    destruct (memcpy dst (mem_data mem) (mem_size mem)) as [bytes|] eqn:Hcpy;
      [|discriminate].
    simpl in Hcopy.
    destruct (IH _ _ _ Hcopy) as [Hbefore Hrange].
    assert (Hbytes : bytes = take (Z.to_nat (mem_size mem)) (mem_data mem)
                             ++ drop (Z.to_nat (mem_size mem)) dst
                     /\ 0 <= mem_size mem <= Z.of_nat (length dst)).
    { unfold memcpy in Hcpy.
      destruct (Z.leb_spec 0 (mem_size mem)); [|discriminate].
      destruct (Z.leb_spec (mem_size mem) (Z.of_nat (length dst)));
        [|discriminate].
      destruct (mem_size mem <=? Z.of_nat (length (mem_data mem)));
        [|discriminate].
      injection Hcpy as <-. split; [reflexivity | lia]. }
    destruct Hbytes as [-> Hn].
    split.
    + intros j Hj. rewrite Hbefore by lia.
      apply list_lookup_insert_ne. lia.
    + intros j Hj. destruct (decide (j = i)) as [->|Hne].
      * exists mem, blk, dst. repeat split; try assumption; try lia.
        rewrite Hbefore by lia.
        apply list_lookup_insert_eq. eapply lookup_lt_Some; eauto.
      * destruct (Hrange j ltac:(lia)) as (m & b & d0 & Hm & Hb & Hrest).
        exists m, b, d0. split; [exact Hm|]. split; [|exact Hrest].
        rewrite list_lookup_insert_ne in Hb by lia. exact Hb.
Qed.

(** X4 -- When invoke succeeds, every block of the frame it returns
    holds the bytes of the matching memory of the sample that the wait
    got from the sink, in order, followed by the zeros of the fresh
    allocation where the memory is shorter than the block. *)
Theorem invoke_output_bytes
    (single_h : ml_single) (in_data : ml_tensors_data_s) output0 (e : E)
    result single' e' :
  ml_single_invoke (Some single_h) (Some in_data) (Some output0) e
  = Returns (ML_ERROR_NONE, Some result, single', e') ->
  exists sample,
    awaited_sample single_h in_data e = Some sample
    /\ data_num_tensors result = num_tensors (out_info single_h)
    /\ forall i : nat, (i < Z.to_nat (num_tensors (out_info single_h)))%nat ->
         exists mem,
           sample !! i = Some mem
           /\ tensor (data_at i result)
              = Some (take (Z.to_nat (mem_size mem)) (mem_data mem)
                      ++ repeat Byte.x00
                           (Z.to_nat (ml_tensor_info_get_size
                                        (info_at i (out_info single_h)))
                            - Z.to_nat (mem_size mem))).
Proof.
  unfold ml_single_invoke, awaited_sample. intros Hcall.
  destruct (negb (magic single_h =? ML_SINGLE_MAGIC)); [discriminate|].
  destruct (negb (validate_input single_h in_data)); [discriminate|].
  destruct (clear_old_buffer single_h e) as [[s1 e1]| |] eqn:Hclear;
    simpl in Hcall; try discriminate.
  pose proof (clear_old_buffer_flag _ _ _ _ Hclear) as ->.
  destruct (gst_app_src_push_buffer e1 _ _) as [ret e2].
  destruct (bool_decide (ret = GST_FLOW_OK)); simpl in Hcall; [|discriminate].
  destruct (gst_app_sink_try_pull_sample e2 _ _) as [[smp|] e3];
    [|discriminate].
  simpl in Hcall.
  destruct (copy_result smp _ 0 _) as [blocks|] eqn:Hcopy; [|discriminate].
  injection Hcall as <- <- <-.
  exists smp. split; [reflexivity|]. split; [reflexivity|].
  intros i Hi.
  destruct (copy_result_inv _ _ _ _ _ Hcopy) as [_ Hrange].
  destruct (Hrange i ltac:(simpl in *; lia))
    as (mem & blk & dst & Hmem & Hblk & Hdst & Hn & Hres).
  rewrite list_lookup_fmap, lookup_seq_lt in Hblk by (simpl in *; lia).
  simpl in Hblk. injection Hblk as <-. simpl in Hdst, Hres.
  injection Hdst as <-.
  exists mem. split; [exact Hmem|].
  unfold data_at. simpl. rewrite nth_lookup, Hres. simpl.
  rewrite repeat_length in Hn.
  f_equal. f_equal. apply drop_repeat.
Qed.

End InvokeMore.

Lemma invoke_changes_only_the_flag_witness :
  fst session_timed_out
  = set_clear_previous_buffer (clear_previous_buffer (fst session_timed_out))
      (fst session_start).
Proof.
  apply (invoke_changes_only_the_flag (fst session_start) (Some slow_input)
           (Some None) (snd session_start) ML_ERROR_TIMED_OUT None
           (fst session_timed_out) (snd session_timed_out)).
  vm_compute. reflexivity.
Defined.

Lemma invoke_invalid_parameter_is_inert_witness :
  Some (fst session_timed_out) = Some (fst session_timed_out)
  /\ snd session_timed_out = snd session_timed_out
  /\ (Some (one_block Byte.x01 783) = None \/ Some (@None ml_tensors_data_s) = None
      \/ magic (fst session_timed_out) <> ML_SINGLE_MAGIC
      \/ exists d, Some (one_block Byte.x01 783) = Some d
                   /\ ~ data_compatible (in_info (fst session_timed_out)) d).
Proof.
  apply (invoke_invalid_parameter_is_inert (fst session_timed_out)
           (Some (one_block Byte.x01 783)) (Some None) (snd session_timed_out)
           None).
  vm_compute. reflexivity.
Defined.

Lemma invoke_output_bytes_witness :
  exists sample,
    awaited_sample (fst session_timed_out) fast_input (snd session_timed_out)
    = Some sample
    /\ data_num_tensors (one_block Byte.x01 40)
       = num_tensors (out_info (fst session_timed_out))
    /\ forall i : nat,
         (i < Z.to_nat (num_tensors (out_info (fst session_timed_out))))%nat ->
         exists mem,
           sample !! i = Some mem
           /\ tensor (data_at i (one_block Byte.x01 40))
              = Some (take (Z.to_nat (mem_size mem)) (mem_data mem)
                      ++ repeat Byte.x00
                           (Z.to_nat (ml_tensor_info_get_size
                                        (info_at i (out_info
                                                      (fst session_timed_out))))
                            - Z.to_nat (mem_size mem))).
Proof.
  eapply (invoke_output_bytes (fst session_timed_out) fast_input None
            (snd session_timed_out)).
  vm_compute. reflexivity.
Defined.

(** ** Open, from the constructed pipeline to the handle *)

Section OpenMore.

Context {E : Type}.
Implicit Types (w : World E) (env : Env E).

Lemma world_eq w1 w2 :
  pipelines w1 = pipelines w2 -> element_refs w1 = element_refs w2 ->
  singles w1 = singles w2 -> graphs_built w1 = graphs_built w2 -> w1 = w2.
Proof. destruct w1, w2; simpl; intros; subst; reflexivity. Qed.

Lemma open_finish_success w st a out w' :
  open_finish w st a = (ML_ERROR_NONE, out, w') ->
  st = ML_ERROR_NONE /\ out = Some a /\ w' = w.
Proof.
  unfold open_finish. case_bool_decide as Hst; simpl; intros Hfin.
  - injection Hfin as <- <- <-. auto.
  - injection Hfin as Hst' _ _. congruence.
Qed.

Lemma open_set_output_success env w p a pl m s c oi out w' :
  pipelines w = <[p := pl]> m ->
  singles w = <[a := c]> s ->
  open_set_output env w p a c oi = (ML_ERROR_NONE, out, w') ->
  let o := negotiated oi (filterx pl) false in
  let pl' :=
    gst_app_sink_set_drop true
      (gst_app_sink_set_max_buffers 1 (gst_app_sink_set_caps o pl)) in
  exists e,
    out = Some a
    /\ env_start env pl' = (ML_ERROR_NONE, e)
    /\ (oi = None -> ml_tensors_info_validate o = (ML_ERROR_NONE, true))
    /\ pipelines w' = <[p := set_stream_of e pl']> m
    /\ singles w' = <[a := set_out_info o c]> s
    /\ element_refs w' = element_refs w
    /\ graphs_built w' = graphs_built w.
Proof.
  intros Hp Hs Hopen o pl'. unfold open_set_output in Hopen.
  unfold filter_of in Hopen. rewrite Hp, lookup_insert_eq in Hopen.
  unfold ml_tensors_info_clone in Hopen.
  assert (Hc : match oi with
               | Some info => set_out_info info c
               | None =>
                   set_out_info
                     (ml_single_get_tensors_info_from_filter (filterx pl) false)
                     c
               end = set_out_info o c) by (destruct oi; reflexivity).
  rewrite Hc in Hopen. clear Hc.
  assert (Hv : exists status valid,
             match oi with
             | Some _ => (ML_ERROR_NONE, true)
             | None => ml_tensors_info_validate (out_info (set_out_info o c))
             end = (status, valid)
             /\ (status = ML_ERROR_NONE -> valid = true -> oi = None ->
                 ml_tensors_info_validate o = (ML_ERROR_NONE, true))).
  { destruct oi as [info|].
    - exists ML_ERROR_NONE, true. split; [reflexivity|discriminate].
    - simpl. destruct (ml_tensors_info_validate o) as [status valid].
      exists status, valid. split; [reflexivity|]. intros -> -> _. reflexivity. }
  destruct Hv as (status & valid & Hv & Hval). rewrite Hv in Hopen. clear Hv.
  case_bool_decide as Hst; simpl in Hopen.
  2:{ apply open_finish_success in Hopen as [? _]. discriminate. }
  destruct valid; simpl in Hopen.
  2:{ apply open_finish_success in Hopen as [? _]. discriminate. }
  unfold ml_pipeline_start, update_pipeline, store_single in Hopen.
  cbn [pipelines set_pipelines set_singles singles element_refs graphs_built]
    in Hopen.
  rewrite Hp, !alter_insert_eq, lookup_insert_eq in Hopen.
  fold pl' in Hopen.
  destruct (env_start env pl') as [st e] eqn:Hstart.
  apply open_finish_success in Hopen as (-> & -> & ->).
  exists e. cbn [pipelines set_pipelines set_singles singles element_refs
                 graphs_built].
  rewrite Hs, !insert_insert_eq. auto 10.
Qed.

Lemma open_set_input_success env w p a pl m s c ii oi out w' :
  pipelines w = <[p := pl]> m ->
  singles w = <[a := c]> s ->
  open_set_input env w p a c ii oi = (ML_ERROR_NONE, out, w') ->
  let i := negotiated ii (filterx pl) true in
  let o := negotiated oi (filterx pl) false in
  exists e,
    out = Some a
    /\ env_start env (configured i o pl) = (ML_ERROR_NONE, e)
    /\ (ii = None -> ml_tensors_info_validate i = (ML_ERROR_NONE, true))
    /\ (oi = None -> ml_tensors_info_validate o = (ML_ERROR_NONE, true))
    /\ pipelines w' = <[p := set_stream_of e (configured i o pl)]> m
    /\ singles w' = <[a := set_out_info o (set_in_info i c)]> s
    /\ element_refs w' = element_refs w
    /\ graphs_built w' = graphs_built w.
Proof.
  intros Hp Hs Hopen i o. unfold open_set_input in Hopen.
  unfold filter_of in Hopen. rewrite Hp, lookup_insert_eq in Hopen.
  unfold ml_tensors_info_clone in Hopen.
  assert (Hc : match ii with
               | Some info => set_in_info info c
               | None =>
                   set_in_info
                     (ml_single_get_tensors_info_from_filter (filterx pl) true)
                     c
               end = set_in_info i c) by (destruct ii; reflexivity).
  rewrite Hc in Hopen. clear Hc.
  assert (Hv : exists status valid,
             match ii with
             | Some _ => (ML_ERROR_NONE, true)
             | None => ml_tensors_info_validate (in_info (set_in_info i c))
             end = (status, valid)
             /\ (status = ML_ERROR_NONE -> valid = true -> ii = None ->
                 ml_tensors_info_validate i = (ML_ERROR_NONE, true))).
  { destruct ii as [info|].
    - exists ML_ERROR_NONE, true. split; [reflexivity|discriminate].
    - simpl. destruct (ml_tensors_info_validate i) as [status valid].
      exists status, valid. split; [reflexivity|]. intros -> -> _. reflexivity. }
  destruct Hv as (status & valid & Hv & Hval). rewrite Hv in Hopen. clear Hv.
  case_bool_decide as Hst; simpl in Hopen.
  2:{ apply open_finish_success in Hopen as [? _]. discriminate. }
  destruct valid; simpl in Hopen.
  2:{ apply open_finish_success in Hopen as [? _]. discriminate. }
  eapply (open_set_output_success env _ p a
            (gst_app_src_set_caps i pl) m s) in Hopen.
  - destruct Hopen as (e & -> & Hstart & Hvo & Hps & Hss & Hrs & Hgb).
    exists e. repeat split; auto.
  - unfold update_pipeline, store_single.
    cbn [pipelines set_pipelines set_singles]. rewrite Hp, alter_insert_eq.
    reflexivity.
  - unfold update_pipeline, store_single.
    cbn [singles set_pipelines set_singles]. rewrite Hs, insert_insert_eq.
    reflexivity.
Qed.

Lemma open_constructed_success env w pl ii oi out w' :
  open_constructed env (constructed_world w pl) (fresh (dom (pipelines w)))
    ii oi
  = (ML_ERROR_NONE, out, w') ->
  let i := negotiated ii (filterx pl) true in
  let o := negotiated oi (filterx pl) false in
  exists e,
    out = Some (fresh (dom (singles w)))
    /\ env_start env (configured i o pl) = (ML_ERROR_NONE, e)
    /\ (ii = None -> ml_tensors_info_validate i = (ML_ERROR_NONE, true))
    /\ (oi = None -> ml_tensors_info_validate o = (ML_ERROR_NONE, true))
    /\ w' = opened_world w pl i o e.
Proof.
  intros Hopen i o.
  unfold open_constructed, open_allocate, gst_bin_get_by_name,
    g_new0_ml_single, constructed_world in Hopen.
  cbn [set_element_refs set_singles element_refs singles pipelines
       graphs_built] in Hopen.
  eapply (open_set_input_success env _ _ _ pl (pipelines w) (singles w))
    in Hopen; [|reflexivity..].
  destruct Hopen as (e & -> & Hstart & Hvi & Hvo & Hps & Hss & Hrs & Hgb).
  exists e. repeat split; auto.
  apply world_eq; assumption.
Qed.

Lemma info_param_ok_valid ti :
  info_param_ok (Some ti) = true ->
  ml_tensors_info_validate ti = (ML_ERROR_NONE, true).
Proof.
  unfold info_param_ok.
  destruct (ml_tensors_info_validate ti) as [status valid].
  intros [Hst ->]%andb_prop. apply bool_decide_eq_true in Hst as ->.
  reflexivity.
Qed.

Lemma ml_single_open_success env w single model ii oi nnfw hw out w' :
  ml_single_open env w single model ii oi nnfw hw = (ML_ERROR_NONE, out, w') ->
  exists m nnfw1 desc pl e,
    model = Some m
    /\ info_param_ok ii = true /\ info_param_ok oi = true
    /\ Resolver.determine_nnfw nnfw m = (ML_ERROR_NONE, nnfw1)
    /\ pipeline_description env nnfw1 m ii oi = inr desc
    /\ env_construct env desc = (ML_ERROR_NONE, pl)
    /\ out = Some (fresh (dom (singles w)))
    /\ env_start env
         (configured (negotiated ii (filterx pl) true)
            (negotiated oi (filterx pl) false) pl)
       = (ML_ERROR_NONE, e)
    /\ (ii = None ->
        ml_tensors_info_validate (negotiated ii (filterx pl) true)
        = (ML_ERROR_NONE, true))
    /\ (oi = None ->
        ml_tensors_info_validate (negotiated oi (filterx pl) false)
        = (ML_ERROR_NONE, true))
    /\ w' = opened_world w pl (negotiated ii (filterx pl) true)
              (negotiated oi (filterx pl) false) e.
Proof.
  unfold ml_single_open.
  destruct single as [single0|]; [|discriminate].
  destruct (env_gst_init_check env); simpl; [|discriminate].
  destruct (info_param_ok ii) eqn:Hii; simpl; [|discriminate].
  destruct (info_param_ok oi) eqn:Hoi; simpl; [|discriminate].
  destruct model as [model|]; [|discriminate].
  destruct (env_file_is_regular env model); simpl; [|discriminate].
  destruct (Resolver.determine_nnfw nnfw model) as [status1 nnfw1] eqn:Hres.
  destruct (bool_decide_reflect (status1 = ML_ERROR_NONE)) as [->|Hne1];
    simpl; [|intros [= ? _ _]; contradiction].
  destruct (env_check_nnfw_availability env nnfw1 hw) as [status2 available].
  destruct (bool_decide_reflect (status2 = ML_ERROR_NONE)) as [->|Hne2];
    simpl; [|intros [= ? _ _]; contradiction].
  destruct available; simpl; [|discriminate].
  destruct (pipeline_description env nnfw1 model ii oi) as [status3|desc]
    eqn:Hdesc.
  { unfold pipeline_description in Hdesc. intros [= -> _ _].
    destruct nnfw1; try discriminate. destruct ii, oi; discriminate. }
  unfold ml_pipeline_construct.
  destruct (env_construct env desc) as [status4 pl] eqn:Hcons.
  destruct (bool_decide_reflect (status4 = ML_ERROR_NONE)) as [->|Hne4];
    simpl; [|rewrite bool_decide_false by exact Hne4; simpl;
             intros [= ? _ _]; contradiction].
  intros Hrest.
  apply (open_constructed_success env w pl) in Hrest
    as (e & -> & Hstart & Hvi & Hvo & ->).
  exists model, nnfw1, desc, pl, e. repeat split; auto.
Qed.

(** X5 -- A successful open leaves the world it found plus exactly one
    pipeline, one handle block and one reference to each of [srcx],
    [sinkx] and [filterx].  The pipeline was given its source caps, its
    sink caps, max-buffers 1 and drop before the start was requested and
    the start answered ML_ERROR_NONE; the block has the magic, the
    default timeout, a clear flag and the settled descriptors. *)
Theorem open_success_world env w single model ii oi nnfw hw out w' :
  ml_single_open env w single model ii oi nnfw hw = (ML_ERROR_NONE, out, w') ->
  exists pl e,
    let i := negotiated ii (filterx pl) true in
    let o := negotiated oi (filterx pl) false in
    out = Some (fresh (dom (singles w)))
    /\ env_start env (configured i o pl) = (ML_ERROR_NONE, e)
    /\ w' = opened_world w pl i o e.
Proof.
  intros Hopen.
  apply ml_single_open_success in Hopen
    as (m & nnfw1 & desc & pl & e & _ & _ & _ & _ & _ & _ & -> & Hstart
        & _ & _ & ->).
  exists pl, e. auto.
Qed.

(** X6 -- Closing the handle a successful open has returned succeeds
    and gives back everything the open took: the pipelines, the element
    references and the handle blocks are those from before the open. *)
Theorem open_then_close_restores env w single model ii oi nnfw hw out w' :
  ml_single_open env w single model ii oi nnfw hw = (ML_ERROR_NONE, out, w') ->
  exists w'',
    ml_single_close w' out = (ML_ERROR_NONE, w'') /\ same_resources w'' w.
Proof.
  intros Hopen.
  apply ml_single_open_success in Hopen
    as (m & nnfw1 & desc & pl & e & _ & _ & _ & _ & _ & _ & -> & Hstart
        & _ & _ & ->).
  unfold ml_single_close, opened_world.
  cbn [singles]. rewrite lookup_insert_eq.
  cbn [magic opened_single src sink filter pipe negb Z.eqb].
  rewrite Z.eqb_refl. cbn [negb].
  unfold unref_if_set, gst_object_unref, ml_pipeline_destroy.
  cbn [set_element_refs pipelines element_refs singles graphs_built].
  rewrite lookup_insert_eq.
  eexists. split; [reflexivity|].
  unfold same_resources.
  cbn [set_pipelines set_singles pipelines element_refs singles].
  split; [|split].
  - apply delete_insert_id, not_elem_of_dom, is_fresh.
  - multiset_solver.
  - apply delete_insert_id, not_elem_of_dom, is_fresh.
Qed.

(** X7 -- Every handle a successful open returns carries two valid
    descriptors: the caller's, which were validated on entry, or the
    ones read from the inference stage, which were validated in step
    5. *)
Theorem opened_descriptors_are_valid env w single model ii oi nnfw hw a w' :
  ml_single_open env w single model ii oi nnfw hw
  = (ML_ERROR_NONE, Some a, w') ->
  exists single_h,
    singles w' !! a = Some single_h
    /\ ml_tensors_info_validate (in_info single_h) = (ML_ERROR_NONE, true)
    /\ ml_tensors_info_validate (out_info single_h) = (ML_ERROR_NONE, true).
Proof.
  intros Hopen.
  apply ml_single_open_success in Hopen
    as (m & nnfw1 & desc & pl & e & _ & Hii & Hoi & _ & _ & _ & [= ->]
        & Hstart & Hvi & Hvo & ->).
  eexists. split; [apply lookup_insert_eq|]. cbn [in_info out_info opened_single].
  split.
  - destruct ii as [ti|]; [exact (info_param_ok_valid _ Hii)|auto].
  - destruct oi as [ti|]; [exact (info_param_ok_valid _ Hoi)|auto].
Qed.

End OpenMore.

Section CloseMore.

Context {E : Type}.
Implicit Types (w : World E).

Lemma unref_if_set_frame w el :
  pipelines (unref_if_set w el) = pipelines w
  /\ singles (unref_if_set w el) = singles w
  /\ graphs_built (unref_if_set w el) = graphs_built w.
Proof. destruct el; auto. Qed.

(** X8 -- Closing a live handle with the right magic always frees its
    block and gives back the references it holds, also when the
    destruction of the pipeline fails, and returns the status of that
    destruction.  No other handle block and no other pipeline is
    touched. *)
Theorem close_releases_only_its_handle w a single_h st w' :
  singles w !! a = Some single_h ->
  magic single_h = ML_SINGLE_MAGIC ->
  ml_single_close w (Some a) = (st, w') ->
  st = fst (ml_pipeline_destroy w (pipe single_h))
  /\ singles w' !! a = None
  /\ pipelines w' !! pipe single_h = None
  /\ element_refs w'
     = element_refs
         (unref_if_set
            (unref_if_set (unref_if_set w (src single_h)) (sink single_h))
            (filter single_h))
  /\ (forall b, b <> a -> singles w' !! b = singles w !! b)
  /\ (forall q, q <> pipe single_h -> pipelines w' !! q = pipelines w !! q).
Proof.
  intros Hlk Hmagic. unfold ml_single_close. rewrite Hlk, Hmagic.
  cbn [negb Z.eqb]. rewrite Z.eqb_refl. cbn [negb].
  set (w3 := unref_if_set
               (unref_if_set (unref_if_set w (src single_h)) (sink single_h))
               (filter single_h)).
  assert (Hp : pipelines w3 = pipelines w /\ singles w3 = singles w).
  { subst w3.
    destruct (unref_if_set_frame
                (unref_if_set (unref_if_set w (src single_h)) (sink single_h))
                (filter single_h)) as (-> & -> & _).
    destruct (unref_if_set_frame (unref_if_set w (src single_h))
                (sink single_h)) as (-> & -> & _).
    destruct (unref_if_set_frame w (src single_h)) as (-> & -> & _). auto. }
  destruct Hp as [Hp Hs]. clearbody w3.
  unfold ml_pipeline_destroy. rewrite Hp.
  destruct (pipelines w !! pipe single_h) as [pl|] eqn:Hpl;
    intros [= <- <-]; cbn [fst set_singles set_pipelines singles pipelines
                            element_refs]; rewrite ?Hp, ?Hs.
  - repeat split; auto;
      first [apply lookup_delete_eq
            | intros; apply lookup_delete_ne; congruence].
  - repeat split; auto;
      first [apply lookup_delete_eq
            | intros; apply lookup_delete_ne; congruence].
Qed.

End CloseMore.

Lemma open_success_world_witness :
  let r := ml_single_open (sample_env [] ML_ERROR_NONE) empty_world
             (Some None) (Some "mnist.tflite") None None ML_NNFW_TYPE_ANY 0 in
  fst (fst r) = ML_ERROR_NONE
  /\ exists pl e,
       let i := negotiated None (filterx pl) true in
       let o := negotiated None (filterx pl) false in
       snd (fst r) = Some (fresh (dom (singles empty_world)))
       /\ env_start (sample_env [] ML_ERROR_NONE) (configured i o pl)
          = (ML_ERROR_NONE, e)
       /\ snd r = opened_world empty_world pl i o e.
Proof.
  intros r. split; [vm_compute; reflexivity|].
  apply (open_success_world (sample_env [] ML_ERROR_NONE) empty_world
           (Some None) (Some "mnist.tflite") None None ML_NNFW_TYPE_ANY 0
           (snd (fst r)) (snd r)).
  vm_compute. reflexivity.
Defined.

Lemma open_then_close_restores_witness :
  let r := ml_single_open (sample_env [] ML_ERROR_NONE) empty_world
             (Some None) (Some "mnist.tflite") None None ML_NNFW_TYPE_ANY 0 in
  fst (fst r) = ML_ERROR_NONE
  /\ exists w'',
       ml_single_close (snd r) (snd (fst r)) = (ML_ERROR_NONE, w'')
       /\ same_resources w'' empty_world.
Proof.
  intros r. split; [vm_compute; reflexivity|].
  apply (open_then_close_restores (sample_env [] ML_ERROR_NONE) empty_world
           (Some None) (Some "mnist.tflite") None None ML_NNFW_TYPE_ANY 0
           (snd (fst r)) (snd r)).
  vm_compute. reflexivity.
Defined.

Lemma opened_descriptors_are_valid_witness :
  let r := ml_single_open (sample_env [] ML_ERROR_NONE) empty_world
             (Some None) (Some "mnist.tflite") (Some info_uint8_28x28) None
             ML_NNFW_TYPE_ANY 0 in
  fst r = (ML_ERROR_NONE, Some 1%positive)
  /\ exists single_h,
       singles (snd r) !! 1%positive = Some single_h
       /\ ml_tensors_info_validate (in_info single_h) = (ML_ERROR_NONE, true)
       /\ ml_tensors_info_validate (out_info single_h) = (ML_ERROR_NONE, true).
Proof.
  intros r. split; [vm_compute; reflexivity|].
  apply (opened_descriptors_are_valid (sample_env [] ML_ERROR_NONE) empty_world
           (Some None) (Some "mnist.tflite") (Some info_uint8_28x28) None
           ML_NNFW_TYPE_ANY 0 1%positive (snd r)).
  vm_compute. reflexivity.
Defined.

Lemma close_releases_only_its_handle_witness :
  let r := ml_single_close world_with_orphan (Some 1%positive) in
  fst r = ML_ERROR_INVALID_PARAMETER
  /\ singles (snd r) !! 1%positive = None
  /\ singles (snd r) !! 2%positive
     = Some (opened_single 7 info_uint8_28x28 info_float32_10)
  /\ pipelines (snd r) !! 7%positive = Some (sample_pipeline []).
Proof.
  intros r.
  destruct (close_releases_only_its_handle world_with_orphan 1%positive
              (opened_single 5 info_uint8_28x28 info_float32_10)
              (fst r) (snd r))
    as (Hst & Hgone & _ & _ & Hothers & Hpipes).
  - vm_compute. reflexivity.
  - reflexivity.
  - vm_compute. reflexivity.
  - split; [rewrite Hst; vm_compute; reflexivity|].
    split; [exact Hgone|].
    split.
    + rewrite (Hothers 2%positive) by discriminate. vm_compute. reflexivity.
    + rewrite (Hpipes 7%positive) by discriminate. vm_compute. reflexivity.
Defined.

(** * The sub-plugin registry *)

Section SubpluginFacts.

Import Call Subplugin.

Context {subpluginType : Type} `{EqDecision subpluginType} {D : Type}.
Implicit Types (r : registry subpluginType D) (L : Loader subpluginType D).
Implicit Types (type : subpluginType) (nm : string) (dt : option D).

Lemma lookup_set_subplugins r type table t n :
  lookup_subplugin (set_subplugins type table r) t n
  = if decide (t = type) then table !! n else lookup_subplugin r t n.
Proof.
  unfold lookup_subplugin, set_subplugins. simpl.
  destruct (decide (t = type)); reflexivity.
Qed.

Lemma lookup_default_table r type n :
  default ∅ (subplugins r type) !! n = lookup_subplugin r type n.
Proof.
  unfold lookup_subplugin. destruct (subplugins r type); simpl; auto.
Qed.

Lemma lookup_subplugin_frame r r' :
  (forall t, subplugins r' t = subplugins r t) ->
  forall t n, lookup_subplugin r' t n = lookup_subplugin r t n.
Proof. intros Heq t n. unfold lookup_subplugin. rewrite Heq. reflexivity. Qed.

Lemma G_LOCK_done r r1 :
  G_LOCK r = Done r1 -> splock r = false /\ r1 = set_splock true r.
Proof.
  unfold G_LOCK. destruct (splock r); [discriminate|].
  intros [= <-]. auto.
Qed.

Lemma register_subplugin_done r type nm dt ret r' :
  register_subplugin r type nm dt = Done (ret, r') ->
  lookup_subplugin r' type nm
  = Some {| name := nm; data := dt; handle := None |}
  /\ splock r' = false.
Proof.
  unfold register_subplugin, G_LOCK. cbn [splock set_subplugins].
  destruct (splock r); [discriminate|]. cbn [mbind run_bind].
  destruct (default ∅ (subplugins r type) !! nm); intros [= <- <-];
    (split; [|reflexivity]); unfold lookup_subplugin; cbn;
    rewrite decide_True by reflexivity; cbn; apply lookup_insert_eq.
Qed.

(** X9 -- [register_subplugin] returns TRUE exactly when the name was
    not registered under the type.  Either way the name is afterwards
    registered with the new data and no library handle, a library the
    replaced entry had loaded is closed, every other entry is as before
    and the lock is released. *)
Theorem register_subplugin_replaces r type nm dt ret r' :
  register_subplugin r type nm dt = Done (ret, r') ->
  ret = bool_decide (lookup_subplugin r type nm = None)
  /\ lookup_subplugin r' type nm
     = Some {| name := nm; data := dt; handle := None |}
  /\ (forall t n, (t, n) <> (type, nm) ->
        lookup_subplugin r' t n = lookup_subplugin r t n)
  /\ dl_refs r'
     = match lookup_subplugin r type nm ≫= handle with
       | Some h => dl_refs r ∖ {[+ h +]}
       | None => dl_refs r
       end
  /\ splock r' = false.
Proof.
  unfold register_subplugin. unfold G_LOCK at 1. cbn [splock set_subplugins].
  destruct (splock r) eqn:Hlock; [discriminate|]. cbn [mbind run_bind].
  rewrite lookup_default_table.
  assert (Hframe : forall r0 table t n,
            subplugins r0 = subplugins r ->
            (t, n) <> (type, nm) ->
            (if decide (t = type) then Some (<[nm := table]>
                                               (default ∅ (subplugins r type)))
             else if decide (t = type) then Some (default ∅ (subplugins r type))
                  else subplugins r0 t) ≫= (.!! n)
            = lookup_subplugin r t n).
  { intros r0 table t n Hr0 Hne. destruct (decide (t = type)) as [->|Ht].
    - cbn. rewrite lookup_insert_ne by congruence.
      apply lookup_default_table.
    - rewrite Hr0. reflexivity. }
  destruct (lookup_subplugin r type nm) as [old|] eqn:Hold;
    intros [= <- <-].
  - split; [reflexivity|]. split.
    { unfold lookup_subplugin. cbn. rewrite decide_True by reflexivity.
      cbn. apply lookup_insert_eq. }
    split.
    { intros t n Hne. unfold lookup_subplugin, _spdata_destroy. cbn.
      destruct (handle old); cbn; apply (Hframe r); auto. }
    split; [|reflexivity].
    unfold _spdata_destroy. cbn. destruct (handle old); reflexivity.
  - split; [reflexivity|]. split.
    { unfold lookup_subplugin. cbn. rewrite decide_True by reflexivity.
      cbn. apply lookup_insert_eq. }
    split; [|split; reflexivity].
    intros t n Hne. unfold lookup_subplugin. cbn. apply (Hframe r); auto.
Qed.

(** X10 -- [unregister_subplugin] returns TRUE exactly when the name
    was registered under the type; FALSE also covers a type no table
    exists for.  Afterwards the name is not registered, a library its
    entry had loaded is closed, and every other entry is as before. *)
Theorem unregister_subplugin_removes r type nm ret r' :
  unregister_subplugin r type nm = Done (ret, r') ->
  ret = bool_decide (is_Some (lookup_subplugin r type nm))
  /\ lookup_subplugin r' type nm = None
  /\ (forall t n, (t, n) <> (type, nm) ->
        lookup_subplugin r' t n = lookup_subplugin r t n)
  /\ dl_refs r'
     = match lookup_subplugin r type nm ≫= handle with
       | Some h => dl_refs r ∖ {[+ h +]}
       | None => dl_refs r
       end.
Proof.
  unfold unregister_subplugin, lookup_subplugin.
  destruct (subplugins r type) as [table|] eqn:Htable; cbn.
  2:{ intros [= <- <-]. rewrite Htable. cbn.
      repeat split; auto. }
  unfold G_LOCK. destruct (splock r); [discriminate|]. cbn.
  destruct (table !! nm) as [old|] eqn:Hold; intros [= <- <-]; cbn.
  - rewrite decide_True by reflexivity. cbn.
    split; [reflexivity|].
    split; [apply lookup_delete_eq|]. split.
    + intros t n Hne. destruct (decide (t = type)) as [->|Ht]; cbn.
      * rewrite Htable. cbn. apply lookup_delete_ne. congruence.
      * unfold _spdata_destroy. destruct (handle old); reflexivity.
    + unfold _spdata_destroy. destruct (handle old); reflexivity.
  - rewrite Htable. cbn. rewrite Hold. auto.
Qed.

Lemma run_probes_frame r probes r1 :
  run_probes r probes = Done r1 ->
  subplugins r1 = subplugins r /\ splock r1 = splock r
  /\ dl_refs r1 = dl_refs r.
Proof.
  revert r. induction probes as [|[[t n] d] probes IH]; intros r; cbn.
  - intros [= <-]. auto.
  - unfold hold_register_subplugin.
    destruct (default ∅ (held_subplugins r t) !! n); [discriminate|]. cbn.
    intros Hrest. apply IH in Hrest as (-> & -> & ->). auto.
Qed.

Lemma run_probes_not_aborted r probes : run_probes r probes <> Aborted.
Proof.
  revert r. induction probes as [|[[t n] d] probes IH]; intros r; cbn.
  - discriminate.
  - unfold hold_register_subplugin.
    destruct (default ∅ (held_subplugins r t) !! n); [discriminate|].
    cbn. apply IH.
Qed.

Lemma register_subplugin_locked r type nm dt :
  splock r = true -> register_subplugin r type nm dt = Undefined.
Proof.
  intros Hlock. unfold register_subplugin, G_LOCK. cbn. rewrite Hlock.
  reflexivity.
Qed.

(** Every way [get_subplugin] returns: from the entry registered, with
    NULL after a failed search, or from the held table with the library
    left open.  The registered entries are never changed. *)
Lemma get_subplugin_returns checker L r type nm res r' :
  get_subplugin checker L r type nm = Done (res, r') ->
  splock r = false /\ splock r' = false
  /\ (forall t n, lookup_subplugin r' t n = lookup_subplugin r t n)
  /\ ((exists sd, lookup_subplugin r type nm = Some sd /\ res = data sd
                  /\ dl_refs r' = dl_refs r
                  /\ held_subplugins r' = held_subplugins r)
      \/ (lookup_subplugin r type nm = None /\ res = None
          /\ dl_refs r' = dl_refs r)
      \/ (lookup_subplugin r type nm = None
          /\ exists path h probes d,
               nnsconf_get_fullpath L nm type = Some path
               /\ dlopen L path = Some (h, probes)
               /\ res = Some d
               /\ check_held_subplugin r' type nm = Some d
               /\ dl_refs r' = dl_refs r ⊎ {[+ h +]})).
Proof.
  unfold get_subplugin, G_LOCK.
  destruct (splock r) eqn:Hlock; [discriminate|]. cbn [mbind run_bind].
  cbn [subplugins set_splock]. rewrite lookup_default_table.
  assert (Hsame : forall r0,
            subplugins r0
            = subplugins (set_subplugins type (default ∅ (subplugins r type))
                            (set_splock true r)) ->
            forall t n, lookup_subplugin r0 t n = lookup_subplugin r t n).
  { intros r0 Hr0 t n. unfold lookup_subplugin. rewrite Hr0. cbn.
    destruct (decide (t = type)) as [->|Ht]; [|reflexivity].
    cbn. apply lookup_default_table. }
  destruct (lookup_subplugin r type nm) as [sd|] eqn:Hsd.
  { intros [= <- <-]. split; [reflexivity|]. split; [reflexivity|].
    split; [apply Hsame; reflexivity|]. left. exists sd. auto. }
  destruct (nnsconf_get_fullpath L nm type) as [path|] eqn:Hpath.
  2:{ intros [= <- <-]. split; [reflexivity|]. split; [reflexivity|].
      split; [apply Hsame; reflexivity|]. right. left. auto. }
  destruct (dlopen L path) as [[h probes]|] eqn:Hopen.
  2:{ intros [= <- <-]. split; [reflexivity|]. split; [reflexivity|].
      split; [apply Hsame; reflexivity|]. right. left. auto. }
  destruct (run_probes _ probes) as [r1| |] eqn:Hprobes; [|discriminate..].
  cbn [mbind run_bind].
  apply run_probes_frame in Hprobes as (Hsub & Hlk & Hrefs).
  cbn [subplugins splock dl_refs set_dl_refs set_subplugins set_splock]
    in Hsub, Hlk, Hrefs.
  assert (Herr : forall res0 r0,
            error_handle h r1 = Done (res0, r0) ->
            splock r0 = false
            /\ (forall t n, lookup_subplugin r0 t n = lookup_subplugin r t n)
            /\ res0 = None /\ dl_refs r0 = dl_refs r).
  { intros res0 r0 [= <- <-]. split; [reflexivity|].
    split; [apply Hsame; exact Hsub|]. split; [reflexivity|].
    cbn. rewrite Hrefs. multiset_solver. }
  destruct (check_held_subplugin r1 type nm) as [held|] eqn:Hheld.
  { intros [= <- <-]. split; [reflexivity|]. split; [reflexivity|].
    split; [apply Hsame; exact Hsub|]. right. right.
    split; [reflexivity|]. exists path, h, probes, held.
    repeat split; auto. }
  destruct (dlsym L h "nnstreamer_subplugin") as [[ns|] dlsym_error].
  2:{ intros Hret. apply Herr in Hret as (? & ? & -> & ?).
      split; [reflexivity|]. split; [assumption|]. split; [assumption|].
      right. left. auto. }
  destruct (bool_decide (is_Some dlsym_error)).
  { intros Hret. apply Herr in Hret as (? & ? & -> & ?).
    split; [reflexivity|]. split; [assumption|]. split; [assumption|].
    right. left. auto. }
  destruct (negb (ns_checker ns =? checker)).
  { intros Hret. apply Herr in Hret as (? & ? & -> & ?).
    split; [reflexivity|]. split; [assumption|]. split; [assumption|].
    right. left. auto. }
  destruct (negb (bool_decide (ns_type ns = type))).
  { intros Hret. apply Herr in Hret as (? & ? & -> & ?).
    split; [reflexivity|]. split; [assumption|]. split; [assumption|].
    right. left. auto. }
  destruct (negb (bool_decide (ns_name ns = Some nm))).
  { intros Hret. apply Herr in Hret as (? & ? & -> & ?).
    split; [reflexivity|]. split; [assumption|]. split; [assumption|].
    right. left. auto. }
  rewrite (register_subplugin_locked r1) by exact Hlk. discriminate.
Qed.

(** X11 -- A name registered with [register_subplugin] is answered by
    [get_subplugin] with the data registered, without a search: no
    library is opened, and the registry is left as it was. *)
Theorem register_then_get checker L r type nm dt ret r1 :
  register_subplugin r type nm dt = Done (ret, r1) ->
  exists r2,
    get_subplugin checker L r1 type nm = Done (dt, r2)
    /\ dl_refs r2 = dl_refs r1 /\ splock r2 = false
    /\ held_subplugins r2 = held_subplugins r1
    /\ forall t n, lookup_subplugin r2 t n = lookup_subplugin r1 t n.
Proof.
  intros Hreg.
  apply register_subplugin_done in Hreg as (Hnew & Hlock).
  unfold get_subplugin, G_LOCK. rewrite Hlock. cbn [mbind run_bind].
  cbn [subplugins set_splock]. rewrite lookup_default_table, Hnew.
  eexists. split; [reflexivity|]. cbn.
  split; [reflexivity|]. split; [reflexivity|]. split; [reflexivity|].
  intros t n. unfold lookup_subplugin. cbn.
  destruct (decide (t = type)) as [->|Ht]; [|reflexivity].
  cbn. apply lookup_default_table.
Qed.

(** X12 -- When [get_subplugin] returns NULL it has released the lock,
    closed every library it had opened, and left the registered entries
    as they were. *)
Theorem get_subplugin_failure_is_clean checker L r type nm r' :
  get_subplugin checker L r type nm = Done (None, r') ->
  splock r' = false
  /\ dl_refs r' = dl_refs r
  /\ forall t n, lookup_subplugin r' t n = lookup_subplugin r t n.
Proof.
  intros Hget.
  apply get_subplugin_returns in Hget as (_ & Hlock & Hsame & Hcases).
  split; [exact Hlock|]. split; [|exact Hsame].
  destruct Hcases as [(sd & _ & _ & Hrefs & _)|[(_ & _ & Hrefs)|(_ & Hheld)]];
    [exact Hrefs..|].
  destruct Hheld as (? & ? & ? & ? & _ & _ & [=] & _).
Qed.

(** X13 -- [get_subplugin] returns data only from an entry registered
    before the call or from the held table, and it never changes the
    registered entries.  An answer from the held table leaves the
    library it has just opened open and the name unregistered. *)
Theorem get_subplugin_never_registers checker L r type nm d r' :
  get_subplugin checker L r type nm = Done (Some d, r') ->
  (forall t n, lookup_subplugin r' t n = lookup_subplugin r t n)
  /\ ((exists sd, lookup_subplugin r type nm = Some sd /\ data sd = Some d
                  /\ dl_refs r' = dl_refs r)
      \/ (lookup_subplugin r' type nm = None
          /\ check_held_subplugin r' type nm = Some d
          /\ exists path h probes,
               nnsconf_get_fullpath L nm type = Some path
               /\ dlopen L path = Some (h, probes)
               /\ dl_refs r' = dl_refs r ⊎ {[+ h +]})).
Proof.
  intros Hget.
  apply get_subplugin_returns in Hget as (_ & Hlock & Hsame & Hcases).
  split; [exact Hsame|].
  destruct Hcases as [(sd & Hsd & Hres & Hrefs & _)|[(_ & [=] & _)|(Hnone & Hheld)]].
  - left. exists sd. auto.
  - right. destruct Hheld as (path & h & probes & d' & Hpath & Hopen & [= <-]
                              & Hheld & Hrefs).
    rewrite Hsame. split; [exact Hnone|]. split; [exact Hheld|].
    exists path, h, probes. auto.
Qed.

(** X14 -- The search of [get_subplugin] never completes a
    registration.  When the name is not registered and the library found
    for it exports a descriptor that passes every check, the call
    answers from the held table or it locks [splock] a second time, in
    [register_subplugin]; with nothing held for the name it is the
    second. *)
Theorem get_subplugin_load_relocks checker L r type nm path h probes ns :
  splock r = false ->
  lookup_subplugin r type nm = None ->
  nnsconf_get_fullpath L nm type = Some path ->
  dlopen L path = Some (h, probes) ->
  dlsym L h "nnstreamer_subplugin" = (Some ns, None) ->
  ns_checker ns = checker -> ns_type ns = type -> ns_name ns = Some nm ->
  (get_subplugin checker L r type nm = Undefined
   \/ exists d r', get_subplugin checker L r type nm = Done (Some d, r')
                   /\ check_held_subplugin r' type nm = Some d)
  /\ (probes = [] -> check_held_subplugin r type nm = None ->
      get_subplugin checker L r type nm = Undefined).
Proof.
  intros Hlock Hnone Hpath Hopen Hsym Hchk Htype Hname.
  unfold get_subplugin, G_LOCK. rewrite Hlock. cbn [mbind run_bind].
  cbn [subplugins set_splock]. rewrite lookup_default_table, Hnone.
  rewrite Hpath, Hopen.
  assert (Htail : forall r1,
            splock r1 = true -> check_held_subplugin r1 type nm = None ->
            match check_held_subplugin r1 type nm with
            | Some held => Done (Some held, G_UNLOCK r1)
            | None =>
                let '(nsdata, dlsym_error) := dlsym L h "nnstreamer_subplugin" in
                match nsdata with
                | Some nsdata =>
                    if bool_decide (is_Some dlsym_error)
                    then error_handle h r1
                    else
                      if negb (ns_checker nsdata =? checker)
                      then error_handle h r1
                      else
                        if negb (bool_decide (ns_type nsdata = type))
                        then error_handle h r1
                        else
                          if negb (bool_decide (ns_name nsdata = Some nm))
                          then error_handle h r1
                          else
                            '(ret, r) ← register_subplugin r1 type nm
                                          (ns_data nsdata);
                            if negb ret then Aborted
                            else
                              match default ∅ (subplugins r type) !! nm with
                              | Some dt =>
                                  let dt := {| name := name dt; data := data dt;
                                               handle := Some h |} in
                                  let r :=
                                    set_subplugins type
                                      (<[nm := dt]>
                                         (default ∅ (subplugins r type))) r in
                                  let r := G_UNLOCK r in
                                  Done (data dt, r)
                              | None => Aborted
                              end
                | None => error_handle h r1
                end
            end = Undefined).
  { intros r1 Hlk Hheld. rewrite Hheld, Hsym.
    rewrite bool_decide_false by (intros [? ?]; discriminate).
    rewrite Hchk, Z.eqb_refl. cbn [negb].
    rewrite !bool_decide_true by assumption. cbn [negb].
    rewrite register_subplugin_locked by exact Hlk. reflexivity. }
  split.
  - destruct (run_probes _ probes) as [r1| |] eqn:Hprobes;
      cbn [mbind run_bind]; [|exfalso; exact (run_probes_not_aborted _ _ Hprobes)|auto].
    apply run_probes_frame in Hprobes as (_ & Hlk & _).
    destruct (check_held_subplugin r1 type nm) as [held|] eqn:Hheld.
    + right. exists held, (G_UNLOCK r1). split; [reflexivity|]. exact Hheld.
    + left. specialize (Htail r1 Hlk Hheld). rewrite Hheld in Htail.
      exact Htail.
  - intros -> Hheld. cbn [run_probes mbind run_bind].
    apply Htail; [reflexivity|exact Hheld].
Qed.

(** X15 -- A name held with [hold_register_subplugin] is answered by
    [check_held_subplugin] with the data held, and no other name's
    answer changes; the name was not held before, and holding it once
    more leaves defined behaviour (the destroy notifier of the table is
    run on the data held first). *)
Theorem hold_then_check r type nm dt r' :
  hold_register_subplugin r type nm dt = Done r' ->
  check_held_subplugin r' type nm = dt
  /\ check_held_subplugin r type nm = None
  /\ (forall t n, (t, n) <> (type, nm) ->
        check_held_subplugin r' t n = check_held_subplugin r t n)
  /\ forall dt', hold_register_subplugin r' type nm dt' = Undefined.
Proof.
  unfold hold_register_subplugin, check_held_subplugin.
  destruct (default ∅ (held_subplugins r type) !! nm) as [old|] eqn:Hold;
    [discriminate|].
  intros [= <-]. cbn. rewrite decide_True by reflexivity.
  split; [rewrite lookup_insert_eq; reflexivity|]. split.
  { destruct (held_subplugins r type); cbn in *; [rewrite Hold|]; reflexivity. }
  split.
  - intros t n Hne. destruct (decide (t = type)) as [->|Ht]; [|reflexivity].
    rewrite lookup_insert_ne by congruence.
    destruct (held_subplugins r type); cbn; [reflexivity|].
    rewrite lookup_empty. reflexivity.
  - intros dt'. cbn. rewrite lookup_insert_eq. reflexivity.
Qed.

End SubpluginFacts.

(** * The configuration *)

Section ConfFacts.

Import Call Conf.

Variable h : nnstreamer_conf_h.
Implicit Types (sys : System) (type : nnsconf_type_path).

Lemma scan_names_spec sys type prefix dir names lF lB c :
  fold_left (scan_name sys type prefix dir) names (lF, lB, c)
  = let es :=
      omap (fun nm =>
              if g_str_has_prefix nm prefix
                 && Resolver.g_str_has_suffix nm ".so"
                 && _validate_file sys type (g_build_filename sys dir nm)
              then Some (g_build_filename sys dir nm,
                         g_path_get_basename sys nm)
              else None) names in
    (rev (fst <$> es) ++ lF, rev (snd <$> es) ++ lB, (length es + c)%nat).
Proof.
  revert lF lB c. induction names as [|nm names IH]; intros lF lB c.
  - reflexivity.
  - cbn [fold_left]. unfold scan_name at 2.
    destruct (g_str_has_prefix nm prefix && Resolver.g_str_has_suffix nm ".so")
      eqn:Hname; cbn [omap list_omap]; rewrite Hname; [|apply IH].
    cbn [andb].
    destruct (_validate_file sys type (g_build_filename sys dir nm));
      [|apply IH].
    rewrite IH. cbn. rewrite <- !app_assoc. cbn.
    rewrite Nat.add_succ_r. reflexivity.
Qed.

Lemma scan_sources_spec sys type prefix searchpath lF lB c :
  Forall (fun p => p <> Freed) searchpath ->
  scan_sources sys type prefix searchpath (lF, lB, c)
  = let es := search_entries sys type prefix searchpath in
    Done (rev (fst <$> es) ++ lF, rev (snd <$> es) ++ lB,
          (length es + c)%nat).
Proof.
  intros Hlive. revert lF lB c.
  induction Hlive as [|p searchpath Hp _ IH]; intros lF lB c.
  - reflexivity.
  - destruct p as [|dir|]; [apply IH| |contradiction].
    cbn [scan_sources search_entries flat_map].
    unfold _get_filenames, dir_entries.
    destruct (g_dir_open sys dir) as [names|]; cbn [snd]; [|apply IH].
    rewrite scan_names_spec. cbn zeta. rewrite IH. cbn zeta.
    unfold search_entries.
    rewrite !fmap_app, !rev_app_distr, <- !app_assoc, length_app.
    f_equal. f_equal. rewrite Nat.add_assoc. f_equal. apply Nat.add_comm.
Qed.

Lemma _fill_in_vstr_spec sys searchpath type prefix :
  subplugin_prefixes h type = Some prefix ->
  Forall (fun p => p <> Freed) searchpath ->
  _fill_in_vstr h sys searchpath type
  = let es := search_entries sys type prefix searchpath in
    Done (fst <$> es, snd <$> es).
Proof.
  intros Hprefix Hlive. unfold _fill_in_vstr. rewrite Hprefix.
  rewrite scan_sources_spec by exact Hlive. cbn.
  rewrite !app_nil_r, !rev_involutive, !length_fmap, Nat.add_0_r.
  rewrite Nat.leb_refl. reflexivity.
Qed.

Lemma of_option_live (s : option string) : of_option s <> Freed.
Proof. destruct s; discriminate. Qed.

Lemma search_path_live sys type :
  Forall (fun p => p <> Freed) (search_path h sys type).
Proof.
  destruct type; cbn; repeat constructor;
    try apply of_option_live; discriminate.
Qed.

Lemma first_load_total sys force_reload :
  nnsconf_loadconf h sys force_reload conf_zero
  = Done (true, loaded_conf h sys).
Proof.
  unfold nnsconf_loadconf. cbn [loaded conf_zero andb negb].
  rewrite !andb_false_r.
  cbn [pathFILTERS pathDECODERS pathCUSTOM_FILTERS conf_zero].
  pose proof (search_path_live sys NNSCONF_PATH_FILTERS) as HF.
  pose proof (search_path_live sys NNSCONF_PATH_DECODERS) as HD.
  pose proof (search_path_live sys NNSCONF_PATH_CUSTOM_FILTERS) as HC.
  unfold loaded_conf, listed. unfold search_path in *.
  destruct (g_key_file_load_from_file sys (conf_file h sys)) as [key_file|];
    cbn [list_insert insert mbind option_bind of_option] in *;
    rewrite (_fill_in_vstr_spec sys _ NNSCONF_PATH_FILTERS _ eq_refl HF);
    rewrite (_fill_in_vstr_spec sys _ NNSCONF_PATH_DECODERS _ eq_refl HD);
    rewrite (_fill_in_vstr_spec sys _ NNSCONF_PATH_CUSTOM_FILTERS _ eq_refl HC);
    reflexivity.
Qed.

(** X16 -- The first load always returns TRUE, whatever the environment
    and the file system hold.  For each type the two lists it builds
    have the same length and go through the directory of the
    environment variable, then the one of the conf file, then the
    hardcoded one, each in the order the directory is read, keeping the
    names with the prefix of the type and the extension .so that are
    neither directories nor symbolic links. *)
Theorem first_load_lists_in_search_order sys force_reload :
  exists c,
    nnsconf_loadconf h sys force_reload conf_zero = Done (true, c)
    /\ loaded c = true
    /\ conffile c = Str (conf_file h sys)
    /\ forall type prefix,
         subplugin_prefixes h type = Some prefix ->
         let es := search_entries sys type prefix (search_path h sys type) in
         vstr_of c type = Some (Some (snd <$> es), Some (fst <$> es)).
Proof.
  exists (loaded_conf h sys). split; [apply first_load_total|].
  split; [reflexivity|]. split; [reflexivity|].
  intros type prefix Hprefix.
  destruct type; cbn [vstr_of loaded_conf basenameFILTERS filesFILTERS
                        basenameDECODERS filesDECODERS
                        basenameCUSTOM_FILTERS filesCUSTOM_FILTERS];
    try discriminate; unfold listed; rewrite Hprefix; reflexivity.
Qed.

Lemma find_from_spec b (es1 es2 : list (string * string)) :
  find_from (Some b) (snd <$> es2) (Some (fst <$> (es1 ++ es2))) (length es1)
  = Done (fst <$> find (fun e => String.eqb b (snd e)) es2).
Proof.
  revert es1. induction es2 as [|e es2 IH]; intros es1; [reflexivity|].
  cbn [fmap list_fmap find_from find].
  destruct (String.eqb_spec b (snd e)) as [->|Hne].
  - rewrite bool_decide_true by reflexivity.
    rewrite list_lookup_fmap, lookup_app_r, Nat.sub_diag by reflexivity.
    reflexivity.
  - rewrite bool_decide_false by congruence.
    specialize (IH (es1 ++ [e])).
    rewrite <- app_assoc, length_app, Nat.add_1_r in IH. exact IH.
Qed.

Lemma fromfile_loaded sys b type :
  nnsconf_get_fullpath_fromfile (loaded_conf h sys) (Some b) type
  = Done (fst <$> find (fun e => String.eqb b (snd e)) (listed h sys type)).
Proof.
  unfold nnsconf_get_fullpath_fromfile.
  destruct type; cbn [vstr_of loaded_conf basenameFILTERS filesFILTERS
                        basenameDECODERS filesDECODERS
                        basenameCUSTOM_FILTERS filesCUSTOM_FILTERS];
    try apply (find_from_spec b []).
  reflexivity.
Qed.

(** X17 -- [nnsconf_get_fullpath] answers with the full path of the
    first listed file whose base name is the prefix of the type, the
    sub-plugin name and .so: a file in the directory of the environment
    variable comes before one in the directory of the conf file, which
    comes before one in the hardcoded directory.  The lists are those of
    the first load: a later call does not see what has changed since. *)
Theorem get_fullpath_first_match sys0 sys subpluginname type prefix :
  subplugin_prefixes h type = Some prefix ->
  let wanted e := String.eqb (prefix ++ subpluginname ++ ".so") (snd e) in
  let found :=
    fst <$> find wanted
              (search_entries sys0 type prefix (search_path h sys0 type)) in
  exists c,
    nnsconf_get_fullpath h sys0 conf_zero subpluginname type = Done (found, c)
    /\ nnsconf_get_fullpath h sys c subpluginname type = Done (found, c).
Proof.
  intros Hprefix wanted found. exists (loaded_conf h sys0).
  assert (Hfound : nnsconf_get_fullpath_fromfile (loaded_conf h sys0)
                     (Some (prefix ++ subpluginname ++ ".so")%string) type
                   = Done found).
  { rewrite fromfile_loaded. unfold listed. rewrite Hprefix. reflexivity. }
  unfold nnsconf_get_fullpath. split.
  - rewrite first_load_total. cbn [mbind run_bind]. rewrite Hprefix, Hfound.
    reflexivity.
  - unfold nnsconf_loadconf at 1.
    cbn [loaded loaded_conf negb andb mbind run_bind].
    fold (loaded_conf h sys0). rewrite Hprefix, Hfound. reflexivity.
Qed.

Lemma _fill_in_vstr_freed sys e p last type prefix :
  subplugin_prefixes h type = Some prefix ->
  e <> Freed -> p <> NULL ->
  _fill_in_vstr h sys [e; g_free p; last] type = Undefined.
Proof.
  intros Hprefix He Hp. unfold _fill_in_vstr. rewrite Hprefix.
  destruct e as [|dir|]; [| |contradiction];
    destruct p; try contradiction; reflexivity.
Qed.

Lemma _fill_in_vstr_reload sys e p hard type prefix :
  subplugin_prefixes h type = Some prefix ->
  e <> Freed ->
  _fill_in_vstr h sys [e; g_free p; Str hard] type = Undefined
  \/ exists r, _fill_in_vstr h sys [e; g_free p; Str hard] type = Done r.
Proof.
  intros Hprefix He. destruct p as [|dir|].
  - right. eexists. apply (_fill_in_vstr_spec sys _ type prefix Hprefix).
    repeat constructor; [exact He|discriminate..].
  - left. apply (_fill_in_vstr_freed sys e (Str dir) _ type prefix);
      [assumption..|discriminate].
  - left. apply (_fill_in_vstr_freed sys e Freed _ type prefix);
      [assumption..|discriminate].
Qed.

(** X18 -- A forced reload leaves defined behaviour when the conf file
    cannot be loaded any more and the load before it had read a
    directory from it: the pointers of the slots CONFFILE are freed in
    the clean-up and only stored anew when the key file loads, so the
    scan reads the directory name through the freed pointer. *)
Theorem forced_reload_reads_freed_path sys0 sys force_reload c type dir :
  nnsconf_loadconf h sys0 force_reload conf_zero = Done (true, c) ->
  search_path h sys0 type !! 1%nat = Some (Str dir) ->
  g_key_file_load_from_file sys (conf_file h sys) = None ->
  nnsconf_loadconf h sys true c = Undefined.
Proof.
  rewrite first_load_total. intros [= <-].
  intros Hslot Hnone. unfold nnsconf_loadconf.
  cbn [loaded loaded_conf negb andb pathFILTERS pathDECODERS
       pathCUSTOM_FILTERS].
  rewrite Hnone. unfold search_path in *.
  cbn [fmap list_fmap insert list_insert].
  set (kf0 := g_key_file_load_from_file sys0 (conf_file h sys0)) in *.
  destruct (_fill_in_vstr_reload sys
              (of_option (_strdup_getenv sys (NNSTREAMER_ENVVAR_FILTERS h)))
              (of_option (kf0 ≫= fun k => k "filter" "filters"))
              (NNSTREAMER_FILTERS h) NNSCONF_PATH_FILTERS _ eq_refl
              (of_option_live _)) as [HF|[rF HF]].
  { cbn [g_free] in HF |- *. rewrite HF. reflexivity. }
  destruct (_fill_in_vstr_reload sys
              (of_option (_strdup_getenv sys (NNSTREAMER_ENVVAR_DECODERS h)))
              (of_option (kf0 ≫= fun k => k "decoder" "decoders"))
              (NNSTREAMER_DECODERS h) NNSCONF_PATH_DECODERS _ eq_refl
              (of_option_live _)) as [HD|[rD HD]].
  { cbn [g_free] in HF, HD |- *. rewrite HF. destruct rF.
    cbn [mbind run_bind]. rewrite HD. reflexivity. }
  destruct type; cbn [lookup list_lookup] in Hslot; [| | |discriminate].
  - injection Hslot as Hslot. exfalso.
    rewrite (_fill_in_vstr_freed sys _ _ _ NNSCONF_PATH_FILTERS _ eq_refl
               (of_option_live _)) in HF; [discriminate|].
    rewrite Hslot. discriminate.
  - injection Hslot as Hslot. exfalso.
    rewrite (_fill_in_vstr_freed sys _ _ _ NNSCONF_PATH_DECODERS _ eq_refl
               (of_option_live _)) in HD; [discriminate|].
    rewrite Hslot. discriminate.
  - injection Hslot as Hslot.
    rewrite HF. destruct rF. cbn [mbind run_bind].
    rewrite HD. destruct rD. cbn [mbind run_bind].
    rewrite (_fill_in_vstr_freed sys _ _ _ NNSCONF_PATH_CUSTOM_FILTERS _
               eq_refl (of_option_live _)); [reflexivity|].
    rewrite Hslot. discriminate.
Qed.

(** X19 -- When the conf file loads, a forced reload forgets the load
    before it altogether: the result is the one of a first load under
    the present environment and file system. *)
Theorem forced_reload_is_a_first_load sys0 sys force_reload c :
  nnsconf_loadconf h sys0 force_reload conf_zero = Done (true, c) ->
  is_Some (g_key_file_load_from_file sys (conf_file h sys)) ->
  nnsconf_loadconf h sys true c = nnsconf_loadconf h sys true conf_zero.
Proof.
  rewrite first_load_total. intros [= <-].
  intros [key_file Hkf]. unfold nnsconf_loadconf.
  cbn [loaded loaded_conf conf_zero negb andb pathFILTERS pathDECODERS
       pathCUSTOM_FILTERS].
  rewrite Hkf. unfold search_path.
  cbn [fmap list_fmap insert list_insert]. reflexivity.
Qed.

Lemma find_first (b : string) (es : list (string * string)) i e :
  es !! i = Some e -> snd e = b ->
  (forall j e', (j < i)%nat -> es !! j = Some e' -> snd e' <> b) ->
  find (fun e => String.eqb b (snd e)) es = Some e.
Proof.
  revert i. induction es as [|e0 es IH]; intros i Hi Hb Hfirst;
    [discriminate|].
  cbn [find]. destruct i as [|i].
  - injection Hi as ->. rewrite Hb, String.eqb_refl. reflexivity.
  - destruct (String.eqb_spec b (snd e0)) as [Heq|Hne].
    + exfalso. apply (Hfirst 0%nat e0); [lia|reflexivity|congruence].
    + apply (IH i); [exact Hi|exact Hb|].
      intros j e' Hj He'. apply (Hfirst (S j) e'); [lia|exact He'].
Qed.

(** X28 -- After the load it triggers, [nnsconf_get_subplugin_info]
    returns for each of the three types a count that is the length of
    both the names and the paths it hands out, and looking a listed name
    up with [nnsconf_get_fullpath_fromfile] gives the path at the index
    of the first occurrence of the name. *)
Theorem subplugin_info_is_parallel sys type prefix n info c :
  subplugin_prefixes h type = Some prefix ->
  nnsconf_get_subplugin_info h sys conf_zero type true = Done (n, info, c) ->
  exists names paths,
    info = Some (Some names, Some paths)
    /\ length names = n /\ length paths = n
    /\ forall i b,
         names !! i = Some b ->
         (forall j, (j < i)%nat -> names !! j <> Some b) ->
         nnsconf_get_fullpath_fromfile c (Some b) type = Done (paths !! i).
Proof.
  intros Hprefix. unfold nnsconf_get_subplugin_info. cbn [negb].
  rewrite first_load_total. cbn [mbind run_bind].
  assert (Hvstr : vstr_of (loaded_conf h sys) type
                  = Some (Some (snd <$> listed h sys type),
                          Some (fst <$> listed h sys type)))
    by (destruct type; try discriminate; reflexivity).
  rewrite Hvstr. intros [= <- <- <-].
  eexists _, _. split; [reflexivity|].
  rewrite !length_fmap. split; [reflexivity|]. split; [reflexivity|].
  intros i b Hi Hfirst. rewrite fromfile_loaded.
  rewrite list_lookup_fmap in Hi |- *.
  destruct (listed h sys type !! i) as [e|] eqn:He; [|discriminate].
  injection Hi as Hb. f_equal.
  rewrite (find_first b _ i e He Hb); [reflexivity|].
  intros j e' Hj He' Heq. apply (Hfirst j Hj).
  rewrite list_lookup_fmap, He'. cbn. congruence.
Qed.

(** ** Custom values *)
















End ConfFacts.

(** * The query client *)

Section QueryClientFacts.

Import QueryClient.

Implicit Types (self : GstTensorQueryClient) (net : Network).
Implicit Types (refs : gmultiset GSocket).

(** X23 -- A property set to a value of its type, a host not being
    NULL, is read back as that value, and setting it changes no other
    property.  Whatever is set, a host that is not NULL stays so. *)
Theorem set_then_get_property self id value :
  settable id value = true ->
  gst_tensor_query_client_get_property
    (gst_tensor_query_client_set_property self id value) id
  = Some value
  /\ (forall id', id' <> id ->
        gst_tensor_query_client_get_property
          (gst_tensor_query_client_set_property self id value) id'
        = gst_tensor_query_client_get_property self id')
  /\ forall id' value',
       (is_Some (sink_host self) ->
        is_Some (sink_host
                   (gst_tensor_query_client_set_property self id' value')))
       /\ (is_Some (src_host self) ->
           is_Some (src_host
                      (gst_tensor_query_client_set_property self id' value'))).
Proof.
  intros Hset. split; [|split].
  - destruct id, value as [[s|]|i|b]; try discriminate Hset; reflexivity.
  - intros id' Hne.
    destruct id, value as [[s|]|i|b]; try discriminate Hset;
      destruct id'; try reflexivity; contradiction.
  - intros id' value'.
    destruct id'; cbn; try (split; intros Hs; exact Hs);
      destruct (g_value_get_string value'); cbn; split; eauto.
Qed.

Lemma connect_spec net self refs is_sink ok self' refs' :
  gst_tensor_query_client_connect net (self, refs) is_sink
  = (ok, (self', refs')) ->
  (ok = false -> self' = self)
  /\ (ok = true ->
      exists socket,
        refs' = refs ⊎ {[+ socket +]}
        /\ self' = (if is_sink then set_sink_socket (Some socket) true self
                    else set_src_socket (Some socket) true self)).
Proof.
  unfold gst_tensor_query_client_connect.
  destruct (gst_tensor_query_socket_new net _ _) as [socket|].
  2:{ intros [= <- <- <-]. split; [reflexivity|discriminate]. }
  destruct (g_socket_connect net socket); cbn [negb].
  - destruct is_sink; intros [= <- <- <-]; (split; [discriminate|]);
      intros _; exists socket; auto.
  - intros [= <- <- <-]. split; [reflexivity|discriminate].
Qed.

Lemma connect_flags_agree net self refs is_sink :
  flags_agree self ->
  flags_agree (fst (snd (gst_tensor_query_client_connect net (self, refs)
                           is_sink))).
Proof.
  intros Hagree.
  destruct (gst_tensor_query_client_connect net (self, refs) is_sink)
    as [ok [self' refs']] eqn:Hconn.
  apply connect_spec in Hconn as [Hfail Hok]. cbn [fst snd].
  destruct ok; [|rewrite Hfail by reflexivity; exact Hagree].
  destruct (Hok eq_refl) as (socket & _ & ->).
  destruct Hagree as [Hsink Hsrc].
  destruct is_sink; split; cbn; try assumption; split; eauto.
Qed.

(** X24 -- The two socket flags always say what the two socket fields
    hold: it is so after [gst_tensor_query_client_init], and setting a
    property, starting and stopping keep it so, whatever the network
    does. *)
Theorem flags_agree_is_kept net self refs id value :
  flags_agree gst_tensor_query_client_init
  /\ (flags_agree self ->
      flags_agree (gst_tensor_query_client_set_property self id value)
      /\ flags_agree
           (fst (snd (gst_tensor_query_client_start net (self, refs))))
      /\ flags_agree
           (fst (snd (gst_tensor_query_client_stop net (self, refs))))).
Proof.
  split.
  { split; cbn; split; try discriminate; intros [? ?]; discriminate. }
  intros Hagree. split; [|split].
  - destruct id; cbn; try exact Hagree;
      try (destruct (g_value_get_string value)); exact Hagree.
  - assert (Hstep : forall self1 refs1,
              flags_agree self1 ->
              flags_agree
                (fst (snd (let '(ok, st) :=
                             if negb (SRC_SOCKET_OPEN (fst (self1, refs1)))
                             then gst_tensor_query_client_connect net
                                    (self1, refs1) false
                             else (true, (self1, refs1)) in
                           if negb ok then (false, st) else (true, st))))).
    { intros self1 refs1 H1. cbn [fst].
      destruct (SRC_SOCKET_OPEN self1); cbn [negb fst snd]; [exact H1|].
      pose proof (connect_flags_agree net self1 refs1 false H1) as Hc.
      destruct (gst_tensor_query_client_connect net (self1, refs1) false)
        as [ok [self' refs']].
      destruct ok; exact Hc. }
    unfold gst_tensor_query_client_start. cbn [fst].
    destruct (SINK_SOCKET_OPEN self); cbn [negb]; [apply Hstep, Hagree|].
    pose proof (connect_flags_agree net self refs true Hagree) as Hc.
    destruct (gst_tensor_query_client_connect net (self, refs) true)
      as [ok [self' refs']].
    cbn [fst snd] in Hc. destruct ok; cbn [negb fst snd]; [|exact Hc].
    apply Hstep, Hc.
  - unfold gst_tensor_query_client_stop. destruct Hagree as [Hsink Hsrc].
    destruct (sink_socket self) as [a|] eqn:Ha;
      cbn [src_socket set_sink_socket];
      destruct (src_socket self) as [b|] eqn:Hb; cbn [fst snd];
      split; cbn; rewrite ?Ha, ?Hb; try assumption;
      split; try discriminate; intros [? ?]; discriminate.
Qed.

(** X25 -- After a start that has returned TRUE both flags are set, and
    a further start returns TRUE without a connection attempt: it
    leaves the element and the socket references as they are, whatever
    the network would answer. *)
Theorem start_is_idempotent net net' st st' :
  gst_tensor_query_client_start net st = (true, st') ->
  SINK_SOCKET_OPEN (fst st') = true /\ SRC_SOCKET_OPEN (fst st') = true
  /\ gst_tensor_query_client_start net' st' = (true, st').
Proof.
  destruct st as [self refs]. unfold gst_tensor_query_client_start at 1.
  cbn [fst].
  assert (Hfinal : forall st1,
            SINK_SOCKET_OPEN (fst st1) = true ->
            SRC_SOCKET_OPEN (fst st1) = true ->
            SINK_SOCKET_OPEN (fst st1) = true
            /\ SRC_SOCKET_OPEN (fst st1) = true
            /\ gst_tensor_query_client_start net' st1 = (true, st1)).
  { intros st1 H1 H2. split; [exact H1|]. split; [exact H2|].
    unfold gst_tensor_query_client_start. rewrite H1. cbn [negb].
    rewrite H2. reflexivity. }
  assert (Hsrc : forall self1 refs1,
            SINK_SOCKET_OPEN self1 = true ->
            (let '(ok, st) :=
               if negb (SRC_SOCKET_OPEN (fst (self1, refs1)))
               then gst_tensor_query_client_connect net (self1, refs1) false
               else (true, (self1, refs1)) in
             if negb ok then (false, st) else (true, st)) = (true, st') ->
            SINK_SOCKET_OPEN (fst st') = true
            /\ SRC_SOCKET_OPEN (fst st') = true
            /\ gst_tensor_query_client_start net' st' = (true, st')).
  { intros self1 refs1 Hsink. cbn [fst].
    destruct (SRC_SOCKET_OPEN self1) eqn:Hs; cbn [negb].
    - intros [= <-]. apply Hfinal; assumption.
    - destruct (gst_tensor_query_client_connect net (self1, refs1) false)
        as [ok [self2 refs2]] eqn:Hconn.
      destruct ok; cbn [negb]; [|discriminate]. intros [= <-].
      apply connect_spec in Hconn as [_ Hok].
      destruct (Hok eq_refl) as (socket & _ & ->).
      apply Hfinal; [exact Hsink|reflexivity]. }
  destruct (SINK_SOCKET_OPEN self) eqn:Hsink; cbn [negb].
  - apply Hsrc. exact Hsink.
  - destruct (gst_tensor_query_client_connect net (self, refs) true)
      as [ok [self1 refs1]] eqn:Hconn.
    destruct ok; cbn [negb]; [|discriminate].
    apply connect_spec in Hconn as [_ Hok].
    destruct (Hok eq_refl) as (socket & _ & ->).
    apply Hsrc. reflexivity.
Qed.

(** X26 -- When the socket is created and [g_socket_connect] fails, the
    connect returns FALSE and leaves every field of the element as it
    was, but the reference to the new socket object is still there:
    nothing the element holds leads to it. *)
Theorem failed_connect_keeps_the_socket net self refs (is_sink : bool) socket :
  gst_tensor_query_socket_new net
    (if is_sink then sink_host self else src_host self)
    ((if is_sink then sink_port self else src_port self) mod 65536)
  = Some socket ->
  g_socket_connect net socket = false ->
  gst_tensor_query_client_connect net (self, refs) is_sink
  = (false, (self, refs ⊎ {[+ socket +]}))
  /\ multiplicity socket (refs ⊎ {[+ socket +]}) = S (multiplicity socket refs).
Proof.
  intros Hnew Hconn. unfold gst_tensor_query_client_connect.
  rewrite Hnew, Hconn. split; [reflexivity|].
  rewrite multiplicity_disj_union, multiplicity_singleton.
  rewrite decide_True by reflexivity. apply Nat.add_1_r.
Qed.

(** X27 -- Starting an element that holds no socket and then stopping
    it gives back the element and the socket references from before the
    start. *)
Theorem start_then_stop_restores net net' self refs st' :
  sink_socket self = None -> src_socket self = None ->
  SINK_SOCKET_OPEN self = false -> SRC_SOCKET_OPEN self = false ->
  gst_tensor_query_client_start net (self, refs) = (true, st') ->
  gst_tensor_query_client_stop net' st' = (true, (self, refs)).
Proof.
  intros Hs1 Hs2 Hf1 Hf2. unfold gst_tensor_query_client_start.
  cbn [fst]. rewrite Hf1. cbn [negb].
  destruct (gst_tensor_query_client_connect net (self, refs) true)
    as [ok [self1 refs1]] eqn:Hconn1.
  destruct ok; cbn [negb]; [|discriminate].
  apply connect_spec in Hconn1 as [_ Hok1].
  destruct (Hok1 eq_refl) as (a & -> & ->).
  cbn [fst SRC_SOCKET_OPEN set_sink_socket]. rewrite Hf2. cbn [negb].
  destruct (gst_tensor_query_client_connect net _ false)
    as [ok [self2 refs2]] eqn:Hconn2.
  destruct ok; cbn [negb]; [|discriminate].
  apply connect_spec in Hconn2 as [_ Hok2].
  destruct (Hok2 eq_refl) as (b & -> & ->).
  intros [= <-]. unfold gst_tensor_query_client_stop.
  cbn. unfold gst_tensor_query_client_close_socket.
  f_equal. f_equal.
  - destruct self; cbn in *; subst; reflexivity.
  - multiset_solver.
Qed.

End QueryClientFacts.

Section SubpluginWitnesses.

Import Call Subplugin.

Lemma register_subplugin_replaces_witness :
  exists ret r',
    register_subplugin empty_registry 0%nat "tensorflow-lite" (Some "tflite")
    = Done (ret, r')
    /\ ret = true
    /\ lookup_subplugin r' 0%nat "tensorflow-lite"
       = Some {| name := "tensorflow-lite"; data := Some "tflite";
                 handle := None |}
    /\ splock r' = false.
Proof.
  eexists _, _. split; [reflexivity|].
  destruct (register_subplugin_replaces empty_registry 0%nat "tensorflow-lite"
              (Some "tflite") _ _ eq_refl) as (Hret & Hnew & _ & _ & Hlock).
  split; [exact Hret|]. split; [exact Hnew|exact Hlock].
Defined.

Lemma unregister_subplugin_removes_witness :
  exists ret r',
    unregister_subplugin sample_registry 0%nat "tensorflow-lite"
    = Done (ret, r')
    /\ ret = true
    /\ lookup_subplugin r' 0%nat "tensorflow-lite" = None
    /\ dl_refs r' = dl_refs sample_registry ∖ {[+ 3%positive +]}.
Proof.
  eexists _, _. split; [reflexivity|].
  destruct (unregister_subplugin_removes sample_registry 0%nat
              "tensorflow-lite" _ _ eq_refl) as (Hret & Hgone & _ & Hrefs).
  split; [exact Hret|]. split; [exact Hgone|exact Hrefs].
Defined.

Lemma register_then_get_witness :
  exists ret r1,
    register_subplugin empty_registry 0%nat "tensorflow-lite" (Some "tflite")
    = Done (ret, r1)
    /\ exists r2,
         get_subplugin 0xdeadbeef (sample_loader [] None) r1 0%nat
           "tensorflow-lite"
         = Done (Some "tflite", r2)
         /\ dl_refs r2 = dl_refs r1 /\ splock r2 = false.
Proof.
  eexists _, _. split; [reflexivity|].
  destruct (register_then_get 0xdeadbeef (sample_loader [] None)
              empty_registry 0%nat "tensorflow-lite" (Some "tflite") _ _
              eq_refl) as (r2 & Hget & Hrefs & Hlock & _).
  exists r2. split; [exact Hget|]. split; [exact Hrefs|exact Hlock].
Defined.

Lemma get_subplugin_failure_is_clean_witness :
  exists r',
    get_subplugin 0xdeadbeef (sample_loader [] None) sample_registry 0%nat
      "pytorch"
    = Done (None, r')
    /\ splock r' = false
    /\ dl_refs r' = dl_refs sample_registry
    /\ lookup_subplugin r' 0%nat "tensorflow-lite"
       = lookup_subplugin sample_registry 0%nat "tensorflow-lite".
Proof.
  eexists. split; [reflexivity|].
  destruct (get_subplugin_failure_is_clean 0xdeadbeef (sample_loader [] None)
              sample_registry 0%nat "pytorch" _ eq_refl)
    as (Hlock & Hrefs & Hsame).
  split; [exact Hlock|]. split; [exact Hrefs|apply Hsame].
Defined.

Lemma get_subplugin_never_registers_witness :
  match get_subplugin 0xdeadbeef
          (sample_loader [(0%nat, "pytorch", Some "probed")] None)
          sample_registry 0%nat "pytorch" with
  | Done (Some d, r') =>
      d = "probed"
      /\ lookup_subplugin r' 0%nat "pytorch" = None
      /\ dl_refs r' = dl_refs sample_registry ⊎ {[+ 1%positive +]}
  | _ => False
  end.
Proof.
  destruct (get_subplugin 0xdeadbeef
              (sample_loader [(0%nat, "pytorch", Some "probed")] None)
              sample_registry 0%nat "pytorch") as [[[d|] r']| |] eqn:Hcall;
    try (vm_compute in Hcall; discriminate Hcall).
  destruct (get_subplugin_never_registers _ _ _ _ _ _ _ Hcall)
    as (_ & [(sd & Hsd & _)|(Hnone & _ & path & h & probes & _ & Hopen & Hrefs)]).
  - vm_compute in Hsd. discriminate Hsd.
  - injection Hopen as <- _.
    split; [vm_compute in Hcall; congruence|].
    split; [exact Hnone|exact Hrefs].
Defined.

Lemma get_subplugin_load_relocks_witness :
  get_subplugin 0xdeadbeef
    (sample_loader [] (Some (sample_descriptor 0 "pytorch")))
    sample_registry 0%nat "pytorch"
  = Undefined.
Proof.
  apply (get_subplugin_load_relocks 0xdeadbeef
           (sample_loader [] (Some (sample_descriptor 0 "pytorch")))
           sample_registry 0%nat "pytorch" "/usr/lib/nnstreamer/pytorch.so"
           1%positive [] (sample_descriptor 0 "pytorch"));
    reflexivity.
Defined.

Lemma hold_then_check_witness :
  exists r',
    hold_register_subplugin empty_registry 0%nat "pytorch" (Some "probed")
    = Done r'
    /\ check_held_subplugin r' 0%nat "pytorch" = Some "probed"
    /\ hold_register_subplugin r' 0%nat "pytorch" (Some "again") = Undefined.
Proof.
  eexists. split; [reflexivity|].
  destruct (hold_then_check empty_registry 0%nat "pytorch" (Some "probed") _
              eq_refl) as (Hchk & _ & _ & Hagain).
  split; [exact Hchk|apply Hagain].
Defined.

End SubpluginWitnesses.

Section ConfWitnesses.

Import Call Conf.

Lemma get_fullpath_first_match_witness :
  exists c,
    nnsconf_get_fullpath sample_header (sample_system [] true) conf_zero
      "tensorflow-lite" NNSCONF_PATH_FILTERS
    = Done (Some "/opt/nnstreamer/filters/libnnstreamer_filter_tensorflow-lite.so",
            c)
    /\ nnsconf_get_fullpath sample_header (sample_system [] false) c
         "tensorflow-lite" NNSCONF_PATH_FILTERS
       = Done (Some "/opt/nnstreamer/filters/libnnstreamer_filter_tensorflow-lite.so",
               c).
Proof.
  exact (get_fullpath_first_match sample_header (sample_system [] true)
           (sample_system [] false) "tensorflow-lite" NNSCONF_PATH_FILTERS
           "libnnstreamer_filter_" eq_refl).
Defined.

Lemma forced_reload_reads_freed_path_witness :
  match nnsconf_loadconf sample_header (sample_system [] true) false
          conf_zero with
  | Done (true, c) =>
      nnsconf_loadconf sample_header (sample_system [] false) true c
      = Undefined
  | _ => False
  end.
Proof.
  destruct (nnsconf_loadconf sample_header (sample_system [] true) false
              conf_zero) as [[[] c]| |] eqn:Hload;
    try (vm_compute in Hload; discriminate Hload).
  apply (forced_reload_reads_freed_path sample_header (sample_system [] true)
           (sample_system [] false) false c NNSCONF_PATH_FILTERS
           "/opt/nnstreamer/filters" Hload); reflexivity.
Defined.

Lemma forced_reload_is_a_first_load_witness :
  match nnsconf_loadconf sample_header (sample_system [] false) false
          conf_zero with
  | Done (true, c) =>
      nnsconf_loadconf sample_header (sample_system [] true) true c
      = nnsconf_loadconf sample_header (sample_system [] true) true conf_zero
  | _ => False
  end.
Proof.
  destruct (nnsconf_loadconf sample_header (sample_system [] false) false
              conf_zero) as [[[] c]| |] eqn:Hload;
    try (vm_compute in Hload; discriminate Hload).
  apply (forced_reload_is_a_first_load sample_header (sample_system [] false)
           (sample_system [] true) false c Hload).
  vm_compute. eexists. reflexivity.
Defined.

Lemma subplugin_info_is_parallel_witness :
  match nnsconf_get_subplugin_info sample_header (sample_system [] true)
          conf_zero NNSCONF_PATH_FILTERS true with
  | Done (n, info, c) =>
      n = 3%nat
      /\ exists names paths,
           info = Some (Some names, Some paths)
           /\ length names = n /\ length paths = n
  | _ => False
  end.
Proof.
  destruct (nnsconf_get_subplugin_info sample_header (sample_system [] true)
              conf_zero NNSCONF_PATH_FILTERS true) as [[[n info] c]| |]
    eqn:Hinfo; try (vm_compute in Hinfo; discriminate Hinfo).
  split; [vm_compute in Hinfo; congruence|].
  destruct (subplugin_info_is_parallel sample_header (sample_system [] true)
              NNSCONF_PATH_FILTERS "libnnstreamer_filter_" n info c eq_refl
              Hinfo) as (names & paths & Hi & Hn & Hp & _).
  exists names, paths. auto.
Defined.




End ConfWitnesses.

Section QueryClientWitnesses.

Import QueryClient.

Lemma set_then_get_property_witness :
  gst_tensor_query_client_get_property
    (gst_tensor_query_client_set_property gst_tensor_query_client_init
       PROP_SINK_PORT (GInt 8080)) PROP_SINK_PORT
  = Some (GInt 8080).
Proof.
  exact (proj1 (set_then_get_property gst_tensor_query_client_init
                  PROP_SINK_PORT (GInt 8080) eq_refl)).
Defined.

Lemma flags_agree_is_kept_witness :
  flags_agree
    (fst (snd (gst_tensor_query_client_start (sample_network true)
                 (gst_tensor_query_client_init, ∅)))).
Proof.
  destruct (flags_agree_is_kept (sample_network true)
              gst_tensor_query_client_init ∅ PROP_0 (GInt 0))
    as [Hinit Hkeep].
  exact (proj1 (proj2 (Hkeep Hinit))).
Defined.

Lemma start_is_idempotent_witness :
  match gst_tensor_query_client_start (sample_network true)
          (gst_tensor_query_client_init, ∅) with
  | (true, st') =>
      gst_tensor_query_client_start (sample_network false) st' = (true, st')
  | _ => False
  end.
Proof.
  destruct (gst_tensor_query_client_start (sample_network true)
              (gst_tensor_query_client_init, ∅)) as [[] st'] eqn:Hstart;
    [|vm_compute in Hstart; discriminate Hstart].
  exact (proj2 (proj2 (start_is_idempotent _ (sample_network false) _ _
                         Hstart))).
Defined.

Lemma failed_connect_keeps_the_socket_witness :
  gst_tensor_query_client_connect (sample_network false)
    (gst_tensor_query_client_init, ∅) true
  = (false, (gst_tensor_query_client_init, ∅ ⊎ {[+ 1%positive +]})).
Proof.
  exact (proj1 (failed_connect_keeps_the_socket (sample_network false)
                  gst_tensor_query_client_init ∅ true 1%positive
                  eq_refl eq_refl)).
Defined.

Lemma start_then_stop_restores_witness :
  match gst_tensor_query_client_start (sample_network true)
          (gst_tensor_query_client_init, ∅) with
  | (true, st') =>
      gst_tensor_query_client_stop (sample_network true) st'
      = (true, (gst_tensor_query_client_init, ∅))
  | _ => False
  end.
Proof.
  destruct (gst_tensor_query_client_start (sample_network true)
              (gst_tensor_query_client_init, ∅)) as [[] st'] eqn:Hstart;
    [|vm_compute in Hstart; discriminate Hstart].
  exact (start_then_stop_restores (sample_network true) (sample_network true)
           gst_tensor_query_client_init ∅ st'
           eq_refl eq_refl eq_refl eq_refl Hstart).
Defined.

End QueryClientWitnesses.
